(** * SolanaAIO: the wallet scanner (BalanceTxFilter) and the wallet sweeper
      (SolanaCollector), embedded in Rocq.

    Both programs are JavaScript drivers around a remote RPC node.  The
    embedding keeps the control flow of the source and makes the
    collaborators explicit:

    - a JavaScript promise is represented by what it settles to
      ([result]); code that awaits is written in a state-and-exception
      monad whose state is the list of observable effects performed so
      far (remote calls, timers, log lines);
    - the remote node is a function from the number of earlier calls of
      a method to the answer of the next call, so every possible sequence
      of answers (successes, rate-limit errors, other errors) is covered
      by quantifying over it;
    - a JavaScript number is an IEEE 754 double ([number]), with the
      arithmetic and the comparisons of the standard library's
      [SpecFloat] at precision 53: products, differences and quotients
      are rounded to the nearest double as the source's are.  Integers
      the programs only count or index with (attempts, delays, array
      lengths, the bounds of the count range, the timeout in seconds)
      are [Z];
    - a JavaScript string is represented by the bytes of its UTF-8
      encoding ([string]). *)

From Stdlib Require Import ZArith String Ascii DecimalString Lia SpecFloat.
From Equations Require Import Equations.
From stdpp Require Import base tactics option list.

Local Open Scope string_scope.
Local Open Scope list_scope.
Local Open Scope Z_scope.

(** ** JavaScript values shared by the two programs *)

(** An [Error] object.  [message] is what both programs log and what
    [withRetry] inspects; [is_SendTransactionError] and [transaction] are
    read by the error handler of the sweeper only. *)
Record error : Type := Error {
  message : string;
  is_SendTransactionError : bool;
  transaction : option string
}.

Definition new_Error (m : string) : error := Error m false None.

(** What a promise (or a call that may throw) ends in. *)
Inductive result (A : Type) : Type :=
| Fulfilled (a : A)
| Rejected (e : error).
Arguments Fulfilled {A} a.
Arguments Rejected {A} e.

Definition fulfilled {A} (r : result A) : Prop := exists v, r = Fulfilled v.

(** ** JavaScript numbers *)

Definition number : Type := spec_float.

Definition prec : Z := 53.
Definition emax : Z := 1024.

(** The number an integer becomes (a JSON integer read by [JSON.parse],
    an array length, a digit string read by [parseInt]): the nearest
    double, the integer itself up to 2^53. *)
Definition Number (z : Z) : number := binary_normalize prec emax z 0 false.

Definition NaN : number := S754_nan.

(** [a * b], [a - b], [a / b], [a < b], [a <= b] and [-a]. *)
Definition mul (a b : number) : number := SFmul prec emax a b.
Definition sub (a b : number) : number := SFsub prec emax a b.
Definition div (a b : number) : number := SFdiv prec emax a b.
Definition ltb (a b : number) : bool := SFltb a b.
Definition leb (a b : number) : bool := SFleb a b.
Definition neg (a : number) : number := SFopp a.

Arguments Number : simpl never.
Arguments mul : simpl never.
Arguments sub : simpl never.
Arguments div : simpl never.
Arguments ltb : simpl never.
Arguments leb : simpl never.
Arguments neg : simpl never.

Declare Scope number_scope.
Delimit Scope number_scope with number.
Bind Scope number_scope with number.
Infix "*" := mul : number_scope.
Infix "-" := sub : number_scope.
Infix "/" := div : number_scope.
Infix "<?" := ltb : number_scope.
Infix "<=?" := leb : number_scope.

(** The number a decimal literal [n / d] denotes ([0.001] is
    [decimal 1 1000]): the quotient rounded to the nearest double, for
    [n] and [d] below 2^53. *)
Definition decimal (n : Z) (d : positive) : number :=
  (Number n / Number (Zpos d))%number.

(** A number that counts as false in [x || y]: zero or [NaN]. *)
Definition falsy (x : number) : bool :=
  match x with
  | S754_zero _ | S754_nan => true
  | _ => false
  end.

(** The integer part of a number, towards zero ([NaN] and the infinities
    give 0). *)
Definition truncate (x : number) : Z :=
  match x with
  | S754_finite s m e =>
      let magnitude :=
        if 0 <=? e then Zpos m * 2 ^ e else Zpos m / 2 ^ (- e) in
      if s then - magnitude else magnitude
  | _ => 0
  end.

(** Whether a number is an integer ([NaN] and the infinities are not). *)
Definition is_integer (x : number) : bool :=
  match x with
  | S754_zero _ => true
  | S754_finite _ m e =>
      if 0 <=? e then true else Zpos m mod 2 ^ (- e) =? 0
  | _ => false
  end.

(** [LAMPORTS_PER_SOL] of web3.js, written [1e9] in the scanner. *)
Definition LAMPORTS_PER_SOL : number := Number 1000000000.

(** [String.prototype.includes]. *)
Fixpoint includes (hay needle : string) : bool :=
  String.prefix needle hay ||
  match hay with
  | EmptyString => false
  | String _ rest => includes rest needle
  end.

(** ** Awaiting code: state and exceptions *)

Module Eff.
Section Monad.
Context {S : Type}.

Definition M (A : Type) : Type := S -> result A * S.

Definition ret {A} (a : A) : M A := fun s => (Fulfilled a, s).

Definition throw {A} (e : error) : M A := fun s => (Rejected e, s).

Definition bind {A B} (m : M A) (k : A -> M B) : M B :=
  fun s => match m s with
           | (Fulfilled a, s') => k a s'
           | (Rejected e, s') => (Rejected e, s')
           end.

(** [try { m } catch (e) { h e }]: effects done before the throw stay. *)
Definition try_catch {A} (m : M A) (h : error -> M A) : M A :=
  fun s => match m s with
           | (Fulfilled a, s') => (Fulfilled a, s')
           | (Rejected e, s') => h e s'
           end.
End Monad.
Arguments M : clear implicits.
End Eff.

Declare Scope eff_scope.
Delimit Scope eff_scope with eff.
Notation "'let*' x ':=' m 'in' k" := (Eff.bind m (fun x => k))
  (at level 10, x binder, m at level 100, k at level 200) : eff_scope.
Notation "m ';;' k" := (Eff.bind m (fun _ => k))
  (at level 100, k at level 200, right associativity) : eff_scope.

(** * BalanceTxFilter/index.js *)

Module BalanceTxFilter.

(** The two remote queries of the scanner. *)
Inductive rpc_call : Type :=
| getBalance (publicKey : string)
| getSignaturesForAddress (publicKey : string) (limit : Z).

(** The object [checkWallet] builds for a wallet that passes. *)
Record walletInfo : Type := WalletInfo {
  address : string;
  balance : number;
  transactionCount : Z
}.

(** Effects a scan task performs, in the order it performs them. *)
Inductive event : Type :=
| rpc (c : rpc_call)                        (* a request sent to the node *)
| console_warn_429 (currentDelay : Z)       (* "Error 429 Too Many Requests ..." *)
| setTimeout (ms : Z)                       (* the awaited delay *)
| transactionLogger_info (w : walletInfo)
| errorLogger_error (address error_message : string)
| console_error (address error_message : string).

Definition rpc_call_eqb (c1 c2 : rpc_call) : bool :=
  match c1, c2 with
  | getBalance p1, getBalance p2 => String.eqb p1 p2
  | getSignaturesForAddress p1 l1, getSignaturesForAddress p2 l2 =>
      String.eqb p1 p2 && Z.eqb l1 l2
  | _, _ => false
  end.

Definition is_rpc (c : rpc_call) (e : event) : bool :=
  match e with rpc c' => rpc_call_eqb c c' | _ => false end.

Abbreviation trace := (list event).
Abbreviation M := (Eff.M trace).

Definition emit (e : event) : M unit := fun t => (Fulfilled tt, t ++ [e]).

(** How often request [c] has been sent so far. *)
Definition calls (c : rpc_call) (t : trace) : nat :=
  length (List.filter (is_rpc c) t).

(** A remote operation: sending request [c] is recorded, and the node's
    answer to it depends on how many times it was asked before. *)
Definition remote {A} (c : rpc_call) (answers : nat -> result A) : M A :=
  fun t => (answers (calls c t), t ++ [rpc c]).

Section WithRetry.
Context {A : Type}.
Variable fn : M A.

Local Open Scope eff_scope.

(** The [while (attempt < retries)] loop of [withRetry], from the state
    [attempt], [currentDelay]. *)
Equations? withRetry_loop (retries attempt currentDelay : Z) : M A
  by wf (Z.to_nat (retries - attempt)) lt :=
withRetry_loop retries attempt currentDelay :=
  if Z_lt_dec attempt retries then
    Eff.try_catch fn (fun error =>
      if includes (message error) "429" then
        emit (console_warn_429 currentDelay) ;;
        emit (setTimeout currentDelay) ;;
        withRetry_loop retries (attempt + 1) (currentDelay * 2)
      else Eff.throw error)
  else Eff.throw (new_Error "Maximum retry attempts reached").
Proof. lia. Qed.

Definition withRetry (retries : Z) (initialDelay : Z) : M A :=
  withRetry_loop retries 0 initialDelay.
End WithRetry.

(** ** checkWallet *)

(** [config/settings.toml], the keys the scan reads. *)
Record settings : Type := Settings {
  transaction_count_range : Z * Z;
  min_balance_sol : number;
  max_concurrent_requests : Z
}.

(** The node as one scan task sees it: for each public key, the answer to
    the n-th [getBalance] request and the full signature history the node
    would return to the n-th [getSignaturesForAddress] request. *)
Record node : Type := Node {
  answers_getBalance : string -> nat -> result Z;
  answers_getSignaturesForAddress : string -> nat -> result (list string)
}.

(** The node returns at most [limit] signatures. *)
Definition at_most {A} (limit : Z) (r : result (list A)) : result (list A) :=
  match r with
  | Fulfilled l => Fulfilled (firstn (Z.to_nat limit) l)
  | Rejected e => Rejected e
  end.

Section Scan.
Variable config : settings.
(** [new PublicKey(address)] of web3.js: the key, or the error it throws. *)
Variable PublicKey : string -> result string.
Variable connection : node.

Local Open Scope eff_scope.

Definition new_PublicKey (address : string) : M string :=
  fun t => (PublicKey address, t).

Definition connection_getBalance (publicKey : string) : M Z :=
  remote (getBalance publicKey) (answers_getBalance connection publicKey).

Definition connection_getSignaturesForAddress (publicKey : string) (limit : Z)
  : M (list string) :=
  remote (getSignaturesForAddress publicKey limit)
         (fun n => at_most limit
                     (answers_getSignaturesForAddress connection publicKey n)).

Definition minBalanceLamports : number :=
  (min_balance_sol config * Number 1000000000)%number.
Definition txMin : Z := fst (transaction_count_range config).
Definition txMax : Z := snd (transaction_count_range config).

(** The body of the [try] block of [checkWallet]; [None] is [null]. *)
Definition checkWallet_try (address : string) : M (option walletInfo) :=
  let* publicKey := new_PublicKey address in
  let* balanceLamports := withRetry (connection_getBalance publicKey) 5 500 in
  if (Number balanceLamports <? minBalanceLamports)%number then Eff.ret None
  else
    let* signatures :=
      withRetry (connection_getSignaturesForAddress publicKey 1000) 5 500 in
    let transactionCount := Z.of_nat (length signatures) in
    if (transactionCount <? txMin) || (transactionCount >? txMax)
    then Eff.ret None
    else
      let walletInfo :=
        WalletInfo address (Number balanceLamports / Number 1000000000)%number
                   transactionCount in
      emit (transactionLogger_info walletInfo) ;;
      Eff.ret (Some walletInfo).

Definition checkWallet (address : string) : M (option walletInfo) :=
  Eff.try_catch (checkWallet_try address)
    (fun error =>
       emit (errorLogger_error address (message error)) ;;
       emit (console_error address (message error)) ;;
       Eff.ret None).
End Scan.

(** ** asyncPool *)

(** [Array.prototype.indexOf] on an array of promises (compared by
    identity), and [Array.prototype.splice(start, 1)]. *)
Fixpoint indexOf (l : list nat) (x : nat) : Z :=
  match l with
  | [] => -1
  | y :: l' =>
      if Nat.eqb y x then 0
      else let r := indexOf l' x in if r <? 0 then -1 else r + 1
  end.

Definition splice1 (l : list nat) (start : Z) : list nat :=
  let len := Z.of_nat (length l) in
  let actualStart :=
    if start <? 0 then Z.max (len + start) 0 else Z.min start len in
  firstn (Z.to_nat actualStart) l ++ skipn (Z.to_nat actualStart + 1) l.

(** The element a scheduling choice [n] designates in a non-empty list. *)
Definition pick (n : nat) (l : list nat) : option nat :=
  l !! (n mod length l)%nat.

Section AsyncPool.
Context {T R : Type}.

(** [iteratorFn i item] is what the promise returned by the call
    [iteratorFn(item)] made for the [i]-th element settles to. *)
Variable iteratorFn : nat -> T -> result R.

(** The order in which pending promises settle is not fixed by the
    program.  [sched k] lists the choices made while [asyncPool] is
    suspended for the [k]-th time: each number designates one of the
    promises pending at that moment. *)
Variable sched : nat -> list nat.

(** The arrays of [asyncPool].  A promise [p] is the index of its item;
    [ret] stores with each [p] what it settles to.  [executing] holds
    the promises [e = p.then(...)], named by the index of their [p].
    [settled] lists the promises that have settled so far. *)
Record pool : Type := Pool {
  ret : list (result R);
  executing : list nat;
  settled : list nat
}.

Definition is_settled (st : pool) (j : nat) : bool :=
  existsb (Nat.eqb j) (settled st).

Definition pending (st : pool) : list nat :=
  List.filter (fun j => negb (is_settled st j)) (executing st).

(** Promise [p] number [j] settles.  If it is fulfilled the callback of
    [e] runs: [executing.splice(executing.indexOf(e), 1)].  If it is
    rejected, [e] is rejected too and stays in [executing]. *)
Definition settle (j : nat) (st : pool) : pool :=
  match ret st !! j with
  | Some (Fulfilled _) =>
      Pool (ret st)
           (splice1 (executing st) (indexOf (executing st) j))
           (settled st ++ [j])
  | _ => Pool (ret st) (executing st) (settled st ++ [j])
  end.

(** Further promises that settle before [asyncPool] resumes. *)
Fixpoint settle_more (picks : list nat) (st : pool) : pool :=
  match picks with
  | [] => st
  | n :: picks' =>
      match pick n (pending st) with
      | Some j => settle_more picks' (settle j st)
      | None => st
      end
  end.

Inductive raced : Type :=
| race_fulfilled (st : pool)
| race_rejected (e : error)
| race_never.

(** [await Promise.race(executing)].  A promise of the array that has
    already settled decides at once (the first one in array order);
    otherwise the first of them to settle decides. *)
Definition race (picks : list nat) (st : pool) : raced :=
  match List.find (is_settled st) (executing st) with
  | Some j =>
      match ret st !! j with
      | Some (Rejected e) => race_rejected e
      | _ => race_fulfilled (settle_more picks st)
      end
  | None =>
      match pick (hd 0%nat picks) (executing st) with
      | None => race_never
      | Some j =>
          match ret st !! j with
          | Some (Rejected e) => race_rejected e
          | _ => race_fulfilled (settle_more (tl picks) (settle j st))
          end
      end
  end.

Inductive looped : Type :=
| loop_done (k : nat) (st : pool)
| loop_throws (e : error)
| loop_never.

(** The [for (const item of array)] loop, from the element [items] on;
    [k] counts the suspensions so far. *)
Fixpoint asyncPool_loop (poolLimit : Z) (array_length : nat)
         (items : list T) (k : nat) (st : pool) : looped :=
  match items with
  | [] => loop_done k st
  | item :: items' =>
      let i := length (ret st) in
      let p := iteratorFn i item in
      let st := Pool (ret st ++ [p]) (executing st) (settled st) in
      if poolLimit <=? Z.of_nat array_length then
        let st := Pool (ret st) (executing st ++ [i]) (settled st) in
        if Z.of_nat (length (executing st)) >=? poolLimit then
          match race (sched k) st with
          | race_fulfilled st' =>
              asyncPool_loop poolLimit array_length items' (S k) st'
          | race_rejected e => loop_throws e
          | race_never => loop_never
          end
        else asyncPool_loop poolLimit array_length items' k st
      else asyncPool_loop poolLimit array_length items' k st
  end.

(** The promises the loop pushes from a state on. *)
Definition pushed (st : pool) (items : list T) : list (result R) :=
  ret st ++ imap (fun i item => iteratorFn (length (ret st) + i)%nat item) items.

(** The order in which the promises [js] settle under the choices
    [picks]; when the choices run out the rest settles in array order. *)
Fixpoint settle_order (picks : list nat) (js : list nat) : list nat :=
  match picks with
  | [] => js
  | n :: picks' =>
      match pick n js with
      | Some j => j :: settle_order picks' (List.filter (fun x => negb (Nat.eqb x j)) js)
      | None => []
      end
  end.

Definition rejection (st : pool) (j : nat) : option error :=
  match ret st !! j with
  | Some (Rejected e) => Some e
  | _ => None
  end.

Definition value (r : result R) : option R :=
  match r with Fulfilled v => Some v | Rejected _ => None end.

(** [Promise.all(ret)].  Promises that have settled already are seen in
    array order, the others in the order in which they settle; the first
    rejection seen rejects the whole, otherwise the values come back in
    the order of [ret]. *)
Definition Promise_all (picks : list nat) (st : pool) : result (list R) :=
  let ids := seq 0 (length (ret st)) in
  let seen :=
    List.filter (is_settled st) ids ++
    settle_order picks (List.filter (fun j => negb (is_settled st j)) ids) in
  match omap (rejection st) seen with
  | e :: _ => Rejected e
  | [] => Fulfilled (omap value (ret st))
  end.

(** [asyncPool(poolLimit, array, iteratorFn)]; [None] when the returned
    promise never settles. *)
Definition asyncPool (poolLimit : Z) (array : list T)
  : option (result (list R)) :=
  match asyncPool_loop poolLimit (length array) array 0 (Pool [] [] []) with
  | loop_done k st => Some (Promise_all (sched k) st)
  | loop_throws e => Some (Rejected e)
  | loop_never => None
  end.
End AsyncPool.

(** ** main *)

Inductive main_outcome : Type :=
| saved (filteredWallets : list walletInfo)   (* written to filteredWallets.json *)
| main_error (error_message : string)         (* errorLogger.error({ error }) *)
| main_never.

Section Main.
Variable config : settings.
Variable PublicKey : string -> result string.
(** The node as seen by the task started for the [i]-th wallet. *)
Variable connection : nat -> node.
Variable sched : nat -> list nat.

(** What the promise [checkWallet(address)] of the [i]-th task settles
    to, and the effects of that task. *)
Definition task (i : nat) (address : string)
  : result (option walletInfo) * trace :=
  checkWallet config PublicKey (connection i) address [].

Definition main (walletList : list string) : main_outcome :=
  match asyncPool (fun i address => fst (task i address)) sched
                  (max_concurrent_requests config) walletList with
  | Some (Fulfilled results) =>
      let filteredWallets := omap id results in
      saved filteredWallets
  | Some (Rejected error) => main_error (message error)
  | None => main_never
  end.
End Main.

(** ** Reading traces *)

(** The effects of [n] rate-limited attempts on request [c], the first
    one waiting [delay] milliseconds. *)
Fixpoint retried (c : rpc_call) (n : nat) (delay : Z) : trace :=
  match n with
  | O => []
  | S n' => [rpc c; console_warn_429 delay; setTimeout delay]
              ++ retried c n' (delay * 2)
  end.

(** The delays a trace waited for, and the requests it sent. *)
Definition waits (t : trace) : list Z :=
  omap (fun e => match e with setTimeout ms => Some ms | _ => None end) t.

Definition is_request (e : event) : bool :=
  match e with rpc _ => true | _ => false end.

Definition invocations (t : trace) : nat :=
  length (List.filter is_request t).

(** The answers of the node from its [n0]-th answer on. *)
Definition later {A} (n0 : nat) (answers : nat -> result A) : nat -> result A :=
  fun n => answers (n0 + n)%nat.

(** Events of a retried request [c]: the request, warnings and waits. *)
Definition of_request (c : rpc_call) (e : event) : Prop :=
  match e with
  | rpc c' => c' = c
  | console_warn_429 _ | setTimeout _ => True
  | _ => False
  end.

Definition rate_limited {A} (r : result A) : Prop :=
  exists e, r = Rejected e /\ includes (message e) "429" = true.

(** What the two retried queries of a scan task come back with. *)
Definition observed_balance (connection : node) (publicKey : string)
  : result Z :=
  fst (withRetry (connection_getBalance connection publicKey) 5 500 []).

Definition observed_signatures (connection : node) (publicKey : string)
  : result (list string) :=
  fst (withRetry (connection_getSignaturesForAddress connection publicKey 1000)
                 5 500 []).

(** The wallet at [address] passes the filter and [w] is its record: the
    address parses, the balance query came back with a number of lamports
    that is not below [min_balance_sol * 1e9], the signature query came
    back with a count within [transaction_count_range], and the record
    shows the balance divided by [1e9].  Product, comparison and quotient
    are those of doubles. *)
Definition qualifies (config : settings) (PublicKey : string -> result string)
    (connection : node) (address : string) (w : walletInfo) : Prop :=
  exists publicKey balanceLamports signatures,
    PublicKey address = Fulfilled publicKey /\
    observed_balance connection publicKey = Fulfilled balanceLamports /\
    (Number balanceLamports <? min_balance_sol config * Number 1000000000)%number
    = false /\
    observed_signatures connection publicKey = Fulfilled signatures /\
    fst (transaction_count_range config) <= Z.of_nat (length signatures)
      <= snd (transaction_count_range config) /\
    w = WalletInfo address
                   (Number balanceLamports / Number 1000000000)%number
                   (Z.of_nat (length signatures)).

(** What ends up in the slot of a task in the results: the record, or
    [null] when the wallet was excluded or the [try] block failed. *)
Definition slot (config : settings) (PublicKey : string -> result string)
    (connection : node) (address : string) : option walletInfo :=
  match fst (checkWallet_try config PublicKey connection address []) with
  | Fulfilled w => w
  | Rejected _ => None
  end.

Definition is_getSignaturesForAddress (e : event) : bool :=
  match e with rpc (getSignaturesForAddress _ _) => true | _ => false end.

Definition is_transactionLogger_info (e : event) : bool :=
  match e with transactionLogger_info _ => true | _ => false end.

End BalanceTxFilter.

(** * SolanaCollector/main.js *)

Module SolanaCollector.

(** ** String methods used by the sweeper

    A string holds the bytes of the UTF-8 encoding of the JavaScript
    string.  White space is what [trim] and [parseInt] strip: the
    characters of the productions WhiteSpace and LineTerminator of
    ECMAScript, which take one, two or three bytes. *)

(** U+0009 to U+000D and U+0020. *)
Definition is_whitespace1 (c1 : ascii) : bool :=
  let n := nat_of_ascii c1 in
  ((9 <=? n) && (n <=? 13))%nat || (n =? 32)%nat.

(** U+00A0. *)
Definition is_whitespace2 (c1 c2 : ascii) : bool :=
  ((nat_of_ascii c1 =? 194) && (nat_of_ascii c2 =? 160))%nat.

(** U+1680, U+2000 to U+200A, U+2028, U+2029, U+202F, U+205F, U+3000 and
    U+FEFF. *)
Definition is_whitespace3 (c1 c2 c3 : ascii) : bool :=
  let n1 := nat_of_ascii c1 in
  let n2 := nat_of_ascii c2 in
  let n3 := nat_of_ascii c3 in
  ((n1 =? 225) && (n2 =? 154) && (n3 =? 128)
   || (n1 =? 226) && (n2 =? 128)
      && ((128 <=? n3) && (n3 <=? 138)
          || (n3 =? 168) || (n3 =? 169) || (n3 =? 175))
   || (n1 =? 226) && (n2 =? 129) && (n3 =? 159)
   || (n1 =? 227) && (n2 =? 128) && (n3 =? 128)
   || (n1 =? 239) && (n2 =? 187) && (n3 =? 191))%nat.

Fixpoint trimStart (s : string) : string :=
  match s with
  | EmptyString => EmptyString
  | String c1 rest1 =>
      if is_whitespace1 c1 then trimStart rest1
      else
        match rest1 with
        | EmptyString => s
        | String c2 rest2 =>
            if is_whitespace2 c1 c2 then trimStart rest2
            else
              match rest2 with
              | EmptyString => s
              | String c3 rest3 =>
                  if is_whitespace3 c1 c2 c3 then trimStart rest3 else s
              end
        end
  end.

(** The longest prefix after which only white space follows. *)
Fixpoint trimEnd (s : string) : string :=
  match s with
  | EmptyString => EmptyString
  | String c rest =>
      if String.eqb (trimStart s) "" then EmptyString
      else String c (trimEnd rest)
  end.

Definition trim (s : string) : string := trimEnd (trimStart s).

Definition startsWith (s searchString : string) : bool :=
  String.prefix searchString s.

Definition reverse (s : string) : string :=
  string_of_list_ascii (rev (list_ascii_of_string s)).

Definition endsWith (s searchString : string) : bool :=
  String.prefix (reverse searchString) (reverse s).

(** [s.slice(start, end)]; negative indices count from the end. *)
Definition slice (s : string) (start end_ : Z) : string :=
  let len := Z.of_nat (String.length s) in
  let from := if start <? 0 then Z.max (len + start) 0 else Z.min start len in
  let to := if end_ <? 0 then Z.max (len + end_) 0 else Z.min end_ len in
  String.substring (Z.to_nat from) (Z.to_nat (Z.max (to - from) 0)) s.

(** [s.slice(start)]. *)
Definition slice_from (s : string) (start : Z) : string :=
  slice s start (Z.of_nat (String.length s)).

(** [s.split(sep)] for a one-character separator. *)
Fixpoint split (s : string) (sep : ascii) : list string :=
  match s with
  | EmptyString => [EmptyString]
  | String c rest =>
      if Ascii.eqb c sep then EmptyString :: split rest sep
      else match split rest sep with
           | part :: parts => String c part :: parts
           | [] => [String c EmptyString]
           end
  end.

(** [parseInt(s, 10)]: the digits after leading white space and a sign
    are read as an integer, which becomes the nearest number; [NaN]
    without a digit. *)
Definition digit (c : ascii) : option Z :=
  let n := Z.of_nat (nat_of_ascii c) in
  if (48 <=? n) && (n <=? 57) then Some (n - 48) else None.

Fixpoint digits (s : string) (acc : option Z) : option Z :=
  match s with
  | EmptyString => acc
  | String c rest =>
      match digit c with
      | Some d => digits rest (Some (10 * default 0 acc + d))
      | None => acc
      end
  end.

Definition parseInt (s : string) : number :=
  match trimStart s with
  | String "-" rest =>
      match digits rest None with
      | Some z => neg (Number z)
      | None => NaN
      end
  | String "+" rest =>
      match digits rest None with
      | Some z => Number z
      | None => NaN
      end
  | inputString =>
      match digits inputString None with
      | Some z => Number z
      | None => NaN
      end
  end.

(** The conversion [Uint8Array.from] applies to each element: [NaN]
    and the infinities become 0, any other number is truncated and taken
    modulo 256. *)
Definition ToUint8 (n : number) : Z := truncate n mod 256.

(** ** readPrivateKeys, parsePrivateKey and maskAddress *)

(** [data.split(/\r?\n/)]: a carriage return right before a line feed
    belongs to the separator. *)
Definition chomp (s : string) : string :=
  if endsWith s (String (ascii_of_nat 13) EmptyString)
  then slice s 0 (-1) else s.

Fixpoint split_lines (pieces : list string) : list string :=
  match pieces with
  | [] => []
  | [last] => [last]
  | piece :: pieces' => chomp piece :: split_lines pieces'
  end.

(** [readPrivateKeys], from the content of the file on. *)
Definition readPrivateKeys (data : string) : list string :=
  let keys :=
    List.filter (fun line => negb (String.eqb (trim line) ""))
                (split_lines (split data (ascii_of_nat 10))) in
  keys.

Section Keys.
(** [bs58.decode] of the bs58 package: the bytes, or the error thrown. *)
Variable bs58_decode : string -> result (list Z).

Definition parsePrivateKey (line : string) : result (list Z) :=
  let line := trim line in
  if startsWith line "[" && endsWith line "]" then
    let arrayString := slice line 1 (-1) in
    let byteArray := map (fun num => parseInt (trim num)) (split arrayString ",") in
    Fulfilled (map ToUint8 byteArray)
  else
    match bs58_decode line with
    | Fulfilled bytes => Fulfilled bytes
    | Rejected err => Rejected (new_Error "Invalid Base58 format")
    end.
End Keys.

Definition maskAddress (address : string) : string :=
  if (Z.of_nat (String.length address) <=? 10) then address
  else slice address 0 5 ++ "..." ++ slice_from address (-5).

(** ** confirmTransactionWithTimeout *)

Definition string_of_Z (z : Z) : string :=
  NilZero.string_of_int (Z.to_int z).

Section Awaiter.
Context {A : Type}.

Inductive timer : Type := armed | cleared | fired.

(** The promise built by [new Promise((resolve, reject) => ...)] and
    the timer set by its executor. *)
Record awaiter : Type := Awaiter {
  promise : option (result A);
  timeout : timer
}.

(** [resolve]/[reject]: only the first call settles the promise. *)
Definition settle_with (r : result A) (st : awaiter) : awaiter :=
  match promise st with
  | None => Awaiter (Some r) (timeout st)
  | Some _ => st
  end.

Definition clearTimeout (st : awaiter) : awaiter :=
  match timeout st with
  | armed => Awaiter (promise st) cleared
  | _ => st
  end.

(** What can happen while the caller awaits. *)
Inductive happening : Type :=
| timer_fires
| operation_settles (r : result A).

Definition not_confirmed (timeoutSeconds : Z) : error :=
  new_Error ("Transaction was not confirmed in "
             ++ string_of_Z timeoutSeconds ++ " seconds.").

(** The three callbacks: the one given to [setTimeout], which runs only
    if the timer is still armed, and the [then] and [catch] callbacks of
    the confirmation. *)
Definition react (timeoutSeconds : Z) (st : awaiter) (h : happening) : awaiter :=
  match h with
  | timer_fires =>
      match timeout st with
      | armed => settle_with (Rejected (not_confirmed timeoutSeconds))
                             (Awaiter (promise st) fired)
      | _ => st
      end
  | operation_settles (Fulfilled result) =>
      settle_with (Fulfilled result) (clearTimeout st)
  | operation_settles (Rejected err) =>
      settle_with (Rejected err) (clearTimeout st)
  end.

(** The awaiter after the given happenings; a timer that is still armed
    after them fires. *)
Definition confirmTransactionWithTimeout_state (timeoutSeconds : Z)
           (happenings : list happening) : awaiter :=
  fold_left (react timeoutSeconds) (happenings ++ [timer_fires])
            (Awaiter None armed).
End Awaiter.
Arguments awaiter : clear implicits.
Arguments happening : clear implicits.

(** ** The sweep *)

(** The argument of [SystemProgram.transfer]. *)
Record TransferIntent : Type := Transfer {
  fromPubkey : string;
  toPubkey : string;
  lamports : number
}.

(** [Keypair]: the secret key and the base-58 form of the public key. *)
Record Keypair : Type := MkKeypair {
  publicKey : string;
  secretKey : list Z
}.

Inductive rpc_call : Type :=
| getBalance (publicKey : string)
| getMinimumBalanceForRentExemption (dataLength : Z)
| sendTransaction (transaction : TransferIntent) (signer : string)
| confirmTransaction (signature : string)
| getTransaction (signature : string).

(** The lines written to the console and to the two log files, by
    template; amounts in SOL are the numbers the template formats. *)
Inductive line : Type :=
| At_least_two_wallets_are_required
| Recipient_Wallet (masked : string)
| Recipient_key_parsing_error (error_message : string)
| Failed_to_parse_the_recipient_private_key
| Processing_Wallet (i : nat) (masked : string)
| Invalid_private_key_format (i : nat)
| Invalid_private_key_format_check_log (i : nat)
| Wallet_Balance (i : nat) (sol : number)
| Insufficient_balance_for_wallet (i : nat) (masked : string)
| Sent (sol : number) (masked_from masked_to signature : string)
| Actions_completed (actionCount : Z)
| Transfer_error (i : nat) (error_message : string) (logs : list string)
| Transfer_error_check_log (i : nat)
| Finished (actionCount : Z)
| General_error (error_message : string)
| An_error_occurred.

Inductive event : Type :=
| console_log (l : line)
| console_error (l : line)
| transactionLogger_info (l : line)
| errorLogger_error (l : line)
| rpc (c : rpc_call)
| new_Transaction (transfer : TransferIntent)   (* SystemProgram.transfer is called *)
| setTimeout (ms : Z)
| process_exit (code : Z).

(** How a piece of the program ends: normally, by a thrown error, by
    [process.exit], or suspended on a promise that never settles. *)
Inductive completion (A : Type) : Type :=
| normal (a : A)
| thrown (e : error)
| exited (code : Z)
| suspended.
Arguments normal {A} a.
Arguments thrown {A} e.
Arguments exited {A} code.
Arguments suspended {A}.

(** The mutable state: what has been done so far, and [actionCount]. *)
Record state : Type := State {
  done : list event;
  actionCount : Z
}.

Definition Run (A : Type) : Type := state -> completion A * state.

Definition ret {A} (a : A) : Run A := fun s => (normal a, s).
Definition throw {A} (e : error) : Run A := fun s => (thrown e, s).

Definition bind {A B} (m : Run A) (k : A -> Run B) : Run B :=
  fun s => match m s with
           | (normal a, s') => k a s'
           | (thrown e, s') => (thrown e, s')
           | (exited code, s') => (exited code, s')
           | (suspended, s') => (suspended, s')
           end.

(** [try { m } catch (err) { h err }] catches thrown errors only. *)
Definition try_catch {A} (m : Run A) (h : error -> Run A) : Run A :=
  fun s => match m s with
           | (thrown e, s') => h e s'
           | other => other
           end.

Definition emit (e : event) : Run unit :=
  fun s => (normal tt, State (done s ++ [e]) (actionCount s)).

Definition process_exit_ {A} (code : Z) : Run A :=
  fun s => (exited code, State (done s ++ [process_exit code]) (actionCount s)).

(** A call that returns or throws without any other effect. *)
Definition call {A} (r : result A) : Run A :=
  fun s => match r with
           | Fulfilled a => (normal a, s)
           | Rejected e => (thrown e, s)
           end.

(** Awaiting a promise. *)
Definition await {A} (p : option (result A)) : Run A :=
  fun s => match p with
           | Some (Fulfilled a) => (normal a, s)
           | Some (Rejected e) => (thrown e, s)
           | None => (suspended, s)
           end.

Declare Scope run_scope.
Delimit Scope run_scope with run.
Notation "'let*' x ':=' m 'in' k" := (bind m (fun x => k))
  (at level 10, x binder, m at level 100, k at level 200) : run_scope.
Notation "m ';;' k" := (bind m (fun _ => k))
  (at level 100, k at level 200, right associativity) : run_scope.

(** [config/settings.toml], the keys the amounts depend on; [None] is a
    missing key. *)
Record settings : Type := Settings {
  transaction_fee_sol : option number;
  confirmation_timeout_seconds : option Z
}.

(** [connection]: what the n-th call of each of its methods returns or
    throws, and for a confirmation what happens while the sweeper waits
    for it. *)
Record node : Type := Node {
  answers_getBalance : nat -> result Z;
  answers_getMinimumBalanceForRentExemption : nat -> result Z;
  answers_sendTransaction : nat -> result string;
  answers_confirmTransaction : nat -> list (happening unit);
  answers_getTransaction : nat -> result (list string)
}.

Definition same_method (c : rpc_call) (e : event) : bool :=
  match c, e with
  | getBalance _, rpc (getBalance _) => true
  | getMinimumBalanceForRentExemption _,
    rpc (getMinimumBalanceForRentExemption _) => true
  | sendTransaction _ _, rpc (sendTransaction _ _) => true
  | confirmTransaction _, rpc (confirmTransaction _) => true
  | getTransaction _, rpc (getTransaction _) => true
  | _, _ => false
  end.

Definition calls (c : rpc_call) (s : state) : nat :=
  length (List.filter (same_method c) (done s)).

Section Sweep.
Variable config : settings.
Variable bs58_decode : string -> result (list Z).
(** [Keypair.fromSecretKey] of web3.js: the key pair, or the error. *)
Variable Keypair_fromSecretKey : list Z -> result Keypair.
(** [new Transaction().add(SystemProgram.transfer(...))] of web3.js:
    whether the library builds the transaction, or the error it throws. *)
Variable SystemProgram_transfer : TransferIntent -> result unit.
(** The methods of [connection]: what each call of a method returns or
    throws, whatever the client does underneath to get it. *)
Variable connection : node.
(** [new Connection(RPC_ENDPOINT, 'confirmed')] of web3.js: the client is
    built, or the constructor throws. *)
Variable new_Connection : result unit.
(** [fs.readFileSync(KEYS_FILE_PATH, 'utf-8')]: the content of the key
    file, or the error thrown. *)
Variable fs_readFileSync : result string.

Local Open Scope run_scope.

(** [config.transaction_fee_sol || 0.001]. *)
Definition TRANSACTION_FEE_SOL : number :=
  match transaction_fee_sol config with
  | Some fee => if falsy fee then decimal 1 1000 else fee
  | None => decimal 1 1000
  end.

Definition CONFIRMATION_TIMEOUT_SECONDS : Z :=
  match confirmation_timeout_seconds config with
  | Some seconds => if seconds =? 0 then 60 else seconds
  | None => 60
  end.

(** A call of a method of [connection]: it is recorded, and returns or
    throws what the next call of that method does. *)
Definition remote {A} (c : rpc_call) (answers : nat -> result A) : Run A :=
  fun s => call (answers (calls c s))
                (State (done s ++ [rpc c]) (actionCount s)).

Definition confirmTransactionWithTimeout (signature : string)
           (timeoutSeconds : Z) : Run unit :=
  fun s =>
    let happenings :=
      answers_confirmTransaction connection (calls (confirmTransaction signature) s) in
    (emit (setTimeout (timeoutSeconds * 1000)) ;;
     emit (rpc (confirmTransaction signature)) ;;
     await (promise (confirmTransactionWithTimeout_state timeoutSeconds happenings))) s.

(** The first [try] of the loop body: the sender's key pair, or [None]
    after the error was logged (the [continue] of the [catch]). *)
Definition sender_of (i : nat) (line : string) : Run (option Keypair) :=
  try_catch
    (let* secretKey := call (parsePrivateKey bs58_decode line) in
     let* senderKeypair := call (Keypair_fromSecretKey secretKey) in
     emit (console_log (Processing_Wallet i (maskAddress (publicKey senderKeypair)))) ;;
     ret (Some senderKeypair))
    (fun err =>
       emit (errorLogger_error (Invalid_private_key_format i)) ;;
       emit (console_error (Invalid_private_key_format_check_log i)) ;;
       ret None).

(** The second [try] block of the loop body. *)
Definition transfer_try (i : nat) (senderKeypair recipientKeypair : Keypair)
  : Run unit :=
  let senderPublicKey := publicKey senderKeypair in
  let recipientPublicKey := publicKey recipientKeypair in
  let* senderBalanceLamports :=
    remote (getBalance senderPublicKey) (answers_getBalance connection) in
  let* minimumBalance :=
    remote (getMinimumBalanceForRentExemption 0)
           (answers_getMinimumBalanceForRentExemption connection) in
  let transactionFeeLamports := (TRANSACTION_FEE_SOL * LAMPORTS_PER_SOL)%number in
  let amountToSend :=
    (Number senderBalanceLamports - Number minimumBalance
     - transactionFeeLamports)%number in
  emit (console_log
          (Wallet_Balance i (Number senderBalanceLamports / LAMPORTS_PER_SOL)%number)) ;;
  if (amountToSend <=? Number 0)%number then
    emit (transactionLogger_info
            (Insufficient_balance_for_wallet i (maskAddress senderPublicKey)))
  else
    let transaction := Transfer senderPublicKey recipientPublicKey amountToSend in
    emit (new_Transaction transaction) ;;
    call (SystemProgram_transfer transaction) ;;
    let* signature :=
      remote (sendTransaction transaction senderPublicKey)
             (answers_sendTransaction connection) in
    confirmTransactionWithTimeout signature CONFIRMATION_TIMEOUT_SECONDS ;;
    emit (transactionLogger_info
            (Sent (amountToSend / LAMPORTS_PER_SOL)%number
                  (maskAddress senderPublicKey) (maskAddress recipientPublicKey)
                  signature)) ;;
    (fun s => (normal tt, State (done s) (actionCount s + 1))) ;;
    (fun s => emit (console_log (Actions_completed (actionCount s))) s).

(** The [catch] of the second [try] block. *)
Definition transfer_catch (i : nat) (err : error) : Run unit :=
  let* logs :=
    match is_SendTransactionError err, transaction err with
    | true, Some tx =>
        try_catch (remote (getTransaction tx) (answers_getTransaction connection))
                  (fun _ => ret [])
    | _, _ => ret []
    end in
  emit (errorLogger_error (Transfer_error i (message err) logs)) ;;
  emit (console_error (Transfer_error_check_log i)).

(** One round of the [for] loop. *)
Definition iteration (recipientKeypair : Keypair) (i : nat) (line : string)
  : Run unit :=
  let* sender := sender_of i line in
  match sender with
  | None => ret tt
  | Some senderKeypair =>
      try_catch (transfer_try i senderKeypair recipientKeypair)
                (transfer_catch i)
  end.

(** [for (let i = ...; i < privateKeys.length; i++)] over the lines
    still to process. *)
Fixpoint sweep (recipientKeypair : Keypair) (i : nat) (lines : list string)
  : Run unit :=
  match lines with
  | [] => ret tt
  | line :: lines' =>
      iteration recipientKeypair i line ;;
      sweep recipientKeypair (S i) lines'
  end.

(** The body of the program: the anonymous [async] function that is
    called at once. *)
Definition main : Run unit :=
  try_catch
    (call new_Connection ;;
     let* data := call fs_readFileSync in
     let privateKeys := readPrivateKeys data in
     if (Z.of_nat (length privateKeys) <? 2) then
       emit (console_error At_least_two_wallets_are_required) ;;
       process_exit_ 1
     else
       let* recipientKeypair :=
         try_catch
           (let* recipientSecretKey :=
              call (parsePrivateKey bs58_decode (default "" (privateKeys !! 0%nat))) in
            let* recipientKeypair := call (Keypair_fromSecretKey recipientSecretKey) in
            emit (console_log
                    (Recipient_Wallet (maskAddress (publicKey recipientKeypair)))) ;;
            ret recipientKeypair)
           (fun err =>
              emit (errorLogger_error (Recipient_key_parsing_error (message err))) ;;
              emit (console_error Failed_to_parse_the_recipient_private_key) ;;
              process_exit_ 1) in
       sweep recipientKeypair 1 (skipn 1 privateKeys) ;;
       (fun s => emit (console_log (Finished (actionCount s))) s))
    (fun err =>
       emit (errorLogger_error (General_error (message err))) ;;
       emit (console_error An_error_occurred)).
End Sweep.

Definition start : state := State [] 0.

(** ** Vocabulary of the properties *)

(** The fee in force, in SOL: [transaction_fee_sol] of the settings, or
    0.001 when the key is missing, zero or not a number. *)
Definition fee_in_force (config : settings) : number :=
  match transaction_fee_sol config with
  | Some (S754_finite s m e) => S754_finite s m e
  | Some (S754_infinity s) => S754_infinity s
  | _ => decimal 1 1000
  end.

(** A transfer is built from an amount that is a balance minus a reserve
    minus the fee in lamports, each operation rounded to a double, and
    that was not found to be [<= 0]. *)
Definition sound_amount (config : settings) (amount : number) : Prop :=
  (amount <=? Number 0)%number = false /\
  exists B R : Z,
    amount = (Number B - Number R
              - fee_in_force config * LAMPORTS_PER_SOL)%number.

(** Amounts in SOL occur in two lines only: the balance line shows an
    integer balance divided by [LAMPORTS_PER_SOL], the line of a completed
    transfer shows its amount divided by [LAMPORTS_PER_SOL]. *)
Definition sound_event (config : settings) (e : event) : Prop :=
  match e with
  | new_Transaction transfer => sound_amount config (lamports transfer)
  | rpc (sendTransaction transfer _) => sound_amount config (lamports transfer)
  | console_log (Wallet_Balance _ sol) =>
      exists B : Z, sol = (Number B / LAMPORTS_PER_SOL)%number
  | transactionLogger_info (Sent sol _ _ _) =>
      exists amount, sound_amount config amount /\
                     sol = (amount / LAMPORTS_PER_SOL)%number
  | _ => True
  end.

Definition sound (config : settings) (s : state) : Prop :=
  Forall (sound_event config) (done s).

(** A piece of program that only adds sound events. *)
Definition keeps {A} (config : settings) (m : Run A) : Prop :=
  forall s, sound config s -> sound config (snd (m s)).

End SolanaCollector.

(** * BalanceTxFilter/index.js: the wallet file *)

Module BalanceTxFilterInput.

(** [walletList], from the content of the wallets file on:
    [data.split('\n').map(line => line.trim()).filter(line => line)].
    The string methods are those of the sweeper's model; a string is
    truthy when it is not empty. *)
Definition walletList (data : string) : list string :=
  List.filter (fun line => negb (String.eqb line ""))
              (map (fun line => SolanaCollector.trim line)
                   (SolanaCollector.split data (ascii_of_nat 10))).

End BalanceTxFilterInput.

(** * Example collaborators and inputs *)

Module Examples.

(** A decoder with the behaviour of [bs58.decode]: the digits of the
    number in base 58, big-endian, one zero byte per leading "1"; an
    error for a character outside the alphabet. *)
Definition base58_alphabet : string :=
  "123456789ABCDEFGHJKLMNPQRSTUVWXYZabcdefghijkmnopqrstuvwxyz".

Definition base58_digit (c : ascii) : option Z :=
  option_map Z.of_nat (String.index 0 (String c EmptyString) base58_alphabet).

Fixpoint base58_value (s : string) (acc : Z) : option Z :=
  match s with
  | EmptyString => Some acc
  | String c rest =>
      match base58_digit c with
      | Some d => base58_value rest (acc * 58 + d)
      | None => None
      end
  end.

Fixpoint leading_ones (s : string) : list Z :=
  match s with
  | String "1" rest => 0 :: leading_ones rest
  | _ => []
  end.

Fixpoint base256 (fuel : nat) (v : Z) (acc : list Z) : list Z :=
  match fuel with
  | O => acc
  | S fuel' => if v =? 0 then acc else base256 fuel' (v / 256) (v mod 256 :: acc)
  end.

Definition bs58_decode (s : string) : result (list Z) :=
  match base58_value s 0 with
  | Some v => Fulfilled (leading_ones s ++ base256 (String.length s) v [])
  | None => Rejected (new_Error "Non-base58 character")
  end.

(** A stand-in for [Keypair.fromSecretKey]: 64 bytes are required, and the
    public key is named after the first byte. *)
Definition Keypair_fromSecretKey (secretKey : list Z)
  : result SolanaCollector.Keypair :=
  if (length secretKey =? 64)%nat then
    Fulfilled (SolanaCollector.MkKeypair
                 ("Key" ++ SolanaCollector.string_of_Z (default 0 (head secretKey))
                        ++ "PublicKey"
                        ++ SolanaCollector.string_of_Z (default 0 (head secretKey)))
                 secretKey)
  else Rejected (new_Error "bad secret key size").

(** Two stand-ins for [SystemProgram.transfer]: one takes any amount, one
    throws for an amount that is not an integer, as a conversion to
    [BigInt] does. *)
Definition accept_transfer (transfer : SolanaCollector.TransferIntent)
  : result unit := Fulfilled tt.

Definition integer_transfer (transfer : SolanaCollector.TransferIntent)
  : result unit :=
  if is_integer (SolanaCollector.lamports transfer)
  then Fulfilled tt
  else Rejected (new_Error "The number cannot be converted to a BigInt").

(** A key line as a bracketed array of 64 bytes whose first byte is [b]. *)
Definition key_line (b : Z) : string :=
  "[" ++ String.concat ","
           (map SolanaCollector.string_of_Z (b :: repeat 0 63)) ++ "]".

(** A byte-order mark and a no-break space, in UTF-8. *)
Definition byte_order_mark : string :=
  String (ascii_of_nat 239)
         (String (ascii_of_nat 187) (String (ascii_of_nat 191) EmptyString)).

Definition no_break_space : string :=
  String (ascii_of_nat 194) (String (ascii_of_nat 160) EmptyString).

(** A key file with one such line per first byte. *)
Definition key_file (firsts : list Z) : string :=
  String.concat (String (ascii_of_nat 10) EmptyString) (map key_line firsts).

(** *** A scan *)

Definition too_many_requests : error := new_Error "429 Too Many Requests".
Definition connection_reset : error := new_Error "read ECONNRESET".

(** Two rate-limit errors, then an answer. *)
Definition flaky (n : nat) : result Z :=
  match n with
  | 0%nat | 1%nat => Rejected too_many_requests
  | _ => Fulfilled 7
  end.

(** One rate-limit error, then a failure of another kind. *)
Definition flaky_then_down (n : nat) : result Z :=
  match n with
  | 0%nat => Rejected too_many_requests
  | _ => Rejected connection_reset
  end.

Definition double_task (i : nat) (item : Z) : result Z :=
  Fulfilled (2 * item + Z.of_nat i).

Definition late_first (k : nat) : list nat := [1; 0]%nat.

(** A task that fails on the odd items. *)
Definition even_only (i : nat) (item : Z) : result Z :=
  if Z.odd item then Rejected connection_reset else Fulfilled item.

(** At least 0.01 SOL and from 1 to 10 transactions, two wallets at a
    time. *)
Definition scan_settings : BalanceTxFilter.settings :=
  BalanceTxFilter.Settings (1, 10) (decimal 1 100) 2.

(** [min_balance_sol = 0.067]. *)
Definition settings_0_067 : BalanceTxFilter.settings :=
  BalanceTxFilter.Settings (1, 10) (decimal 67 1000) 2.

(** [min_balance_sol = 631.7939173780001]. *)
Definition settings_631 : BalanceTxFilter.settings :=
  BalanceTxFilter.Settings (1, 10) (decimal 6317939173780001 10000000000000) 2.

(** A node on which every wallet holds [lamports] lamports and has three
    signatures. *)
Definition holding (lamports : Z) : BalanceTxFilter.node :=
  BalanceTxFilter.Node (fun _ _ => Fulfilled lamports)
                       (fun _ _ => Fulfilled ["s1"; "s2"; "s3"]).

Definition PublicKey (address : string) : result string :=
  if String.eqb address "not-a-key"
  then Rejected (new_Error "Invalid public key input")
  else Fulfilled address.

(** Wallet 0 is rich and active, wallet 1 is poor, the node is down for
    wallet 2 and slow for wallet 3. *)
Definition scan_node (i : nat) : BalanceTxFilter.node :=
  match i with
  | 0%nat => BalanceTxFilter.Node (fun _ _ => Fulfilled 50000000)
                                  (fun _ _ => Fulfilled ["s1"; "s2"; "s3"])
  | 1%nat => BalanceTxFilter.Node (fun _ _ => Fulfilled 5)
                                  (fun _ _ => Fulfilled ["s1"])
  | 2%nat => BalanceTxFilter.Node (fun _ _ => Rejected connection_reset)
                                  (fun _ _ => Fulfilled [])
  | _ => BalanceTxFilter.Node (fun _ => flaky)
                              (fun _ _ => Fulfilled ["s1"])
  end.

Definition scan_wallets : list string := ["alice"; "bob"; "carol"].

Definition alice_record : BalanceTxFilter.walletInfo :=
  BalanceTxFilter.WalletInfo "alice" (Number 50000000 / Number 1000000000) 3.

(** *** A sweep *)

Definition default_settings : SolanaCollector.settings :=
  SolanaCollector.Settings None None.

(** [transaction_fee_sol = 0.00013] and [transaction_fee_sol = 0.0041]. *)
Definition settings_0_00013 : SolanaCollector.settings :=
  SolanaCollector.Settings (Some (decimal 13 100000)) None.

Definition settings_0_0041 : SolanaCollector.settings :=
  SolanaCollector.Settings (Some (decimal 41 10000)) None.

(** A node on which every sender holds [lamports] lamports. *)
Definition sender_holding (lamports : Z) : SolanaCollector.node :=
  SolanaCollector.Node
    (fun _ => Fulfilled lamports)
    (fun _ => Fulfilled 890880)
    (fun _ => Fulfilled "signature1")
    (fun _ => [SolanaCollector.operation_settles (Fulfilled tt)])
    (fun _ => Fulfilled []).

Definition confirmed_at_once (n : nat) : list (SolanaCollector.happening unit) :=
  [SolanaCollector.operation_settles (Fulfilled tt)].

(** The first sender holds 5000000 lamports, the others 1000. *)
Definition healthy_node : SolanaCollector.node :=
  SolanaCollector.Node
    (fun n => match n with 0%nat => Fulfilled 5000000 | _ => Fulfilled 1000 end)
    (fun _ => Fulfilled 890880)
    (fun _ => Fulfilled "signature1")
    confirmed_at_once
    (fun _ => Fulfilled []).

(** The node answers the first balance query with a rate-limit error and
    would answer every later one. *)
Definition rate_limiting_node : SolanaCollector.node :=
  SolanaCollector.Node
    (fun n => match n with
              | 0%nat => Rejected too_many_requests
              | _ => Fulfilled 5000000
              end)
    (fun _ => Fulfilled 890880)
    (fun _ => Fulfilled "signature1")
    confirmed_at_once
    (fun _ => Fulfilled []).

(** Every sender holds 1000 lamports. *)
Definition poor_node : SolanaCollector.node :=
  SolanaCollector.Node
    (fun _ => Fulfilled 1000)
    (fun _ => Fulfilled 890880)
    (fun _ => Fulfilled "signature1")
    confirmed_at_once
    (fun _ => Fulfilled []).

(** A node that accepts transactions and never confirms them, and that
    has logs for the transactions it is asked about. *)
Definition stalling_node : SolanaCollector.node :=
  SolanaCollector.Node
    (fun _ => Fulfilled 5000000)
    (fun _ => Fulfilled 890880)
    (fun _ => Fulfilled "signature1")
    (fun _ => [])
    (fun _ => Fulfilled ["Program log: insufficient lamports"]).

Definition simulation_failed : error :=
  Error "Transaction simulation failed" true (Some "signature0").

Definition in_base58_alphabet (c : ascii) : bool :=
  match base58_digit c with Some _ => true | None => false end.

End Examples.

(** * Further vocabulary *)

Module Vocabulary.

(** The sum of a list of delays. *)
Definition total (l : list Z) : Z := fold_right Z.add 0 l.

(** The delays of [m] retries in a row that start at [delay]. *)
Definition doubling (delay : Z) (m : nat) : list Z :=
  map (fun i => delay * 2 ^ Z.of_nat i) (seq 0 m).

(** Characters and lines of text files. *)
Definition line_feed : ascii := ascii_of_nat 10.
Definition carriage_return : ascii := ascii_of_nat 13.

(** The two line ends. *)
Definition LF : string := String line_feed "".
Definition CRLF : string := String carriage_return (String line_feed "").

Definition has_char (c : ascii) (s : string) : bool :=
  existsb (Ascii.eqb c) (list_ascii_of_string s).

(** The lines contain no line feed. *)
Definition single_lines (ls : list string) : bool :=
  forallb (fun l => negb (has_char line_feed l)) ls.

(** The lines of the key file the sweeper works on; none when the file
    cannot be read. *)
Definition keys_read (fs_readFileSync : result string) : list string :=
  match fs_readFileSync with
  | Fulfilled data => SolanaCollector.readPrivateKeys data
  | Rejected _ => []
  end.

(** One white-space character taken from the start of a string. *)
Definition strip (s : string) : option string :=
  match s with
  | EmptyString => None
  | String c1 rest1 =>
      if SolanaCollector.is_whitespace1 c1 then Some rest1
      else
        match rest1 with
        | EmptyString => None
        | String c2 rest2 =>
            if SolanaCollector.is_whitespace2 c1 c2 then Some rest2
            else
              match rest2 with
              | EmptyString => None
              | String c3 rest3 =>
                  if SolanaCollector.is_whitespace3 c1 c2 c3
                  then Some rest3 else None
              end
        end
  end.

(** A character of one byte. *)
Definition one_byte (c : ascii) : Prop := (nat_of_ascii c < 128)%nat.

Definition blank (l : string) : bool :=
  String.eqb (SolanaCollector.trim l) "".

Definition ends_with_carriage_return (l : string) : bool :=
  SolanaCollector.endsWith l (String carriage_return "").

Definition bytes_in_range (bytes : list Z) : bool :=
  forallb (fun b => (0 <=? b) && (b <? 256)) bytes.

(** The text of a byte array as [JSON.stringify] writes it. *)
Definition byte_array_text (bytes : list Z) : string :=
  ("[" ++ String.concat "," (map SolanaCollector.string_of_Z bytes) ++ "]")%string.

(** The promises pushed to [ret] that have not settled yet. *)
Definition unresolved {R} (st : @BalanceTxFilter.pool R) : list nat :=
  List.filter (fun j => negb (BalanceTxFilter.is_settled st j))
              (seq 0 (length (BalanceTxFilter.ret st))).

(** The arrays of [asyncPool] are consistent: [executing] holds distinct
    promises of [ret]; only promises of [ret] have settled; a promise of
    [executing] that has settled is a rejected one; and every promise of
    [ret] that has not settled is in [executing]. *)
Definition tracked {R} (st : @BalanceTxFilter.pool R) : Prop :=
  List.NoDup (BalanceTxFilter.executing st) /\
  (forall j, In j (BalanceTxFilter.executing st) ->
             (j < length (BalanceTxFilter.ret st))%nat) /\
  (forall j, In j (BalanceTxFilter.settled st) ->
             (j < length (BalanceTxFilter.ret st))%nat) /\
  (forall j, In j (BalanceTxFilter.executing st) ->
             In j (BalanceTxFilter.settled st) ->
             exists e, BalanceTxFilter.ret st !! j = Some (Rejected e)) /\
  (forall j, (j < length (BalanceTxFilter.ret st))%nat ->
             ~ In j (BalanceTxFilter.settled st) ->
             In j (BalanceTxFilter.executing st)).

(** ** Reading the trace of a sweep *)

Definition is_Sent (e : SolanaCollector.event) : bool :=
  match e with
  | SolanaCollector.transactionLogger_info (SolanaCollector.Sent _ _ _ _) => true
  | _ => false
  end.

Definition is_submission (e : SolanaCollector.event) : bool :=
  match e with
  | SolanaCollector.rpc (SolanaCollector.sendTransaction _ _) => true
  | _ => false
  end.

Definition is_node_request (e : SolanaCollector.event) : bool :=
  match e with SolanaCollector.rpc _ => true | _ => false end.

Definition count (p : SolanaCollector.event -> bool)
           (evs : list SolanaCollector.event) : nat :=
  length (List.filter p evs).

(** The key pair a line of the key file stands for: the two calls
    [Keypair.fromSecretKey(parsePrivateKey(line))] of the program. *)
Definition keypair_of (bs58_decode : string -> result (list Z))
    (Keypair_fromSecretKey : list Z -> result SolanaCollector.Keypair)
    (line : string) : result SolanaCollector.Keypair :=
  match SolanaCollector.parsePrivateKey bs58_decode line with
  | Fulfilled secretKey => Keypair_fromSecretKey secretKey
  | Rejected e => Rejected e
  end.

(** The public keys of the lines that stand for a key pair. *)
Definition senders_of (bs58_decode : string -> result (list Z))
    (Keypair_fromSecretKey : list Z -> result SolanaCollector.Keypair)
    (lines : list string) : list string :=
  omap (fun line =>
          match keypair_of bs58_decode Keypair_fromSecretKey line with
          | Fulfilled keypair => Some (SolanaCollector.publicKey keypair)
          | Rejected _ => None
          end) lines.

(** The first thing a round does for its line: it announces the wallet
    it processes, or logs that the key of the line cannot be read. *)
Definition round_start (bs58_decode : string -> result (list Z))
    (Keypair_fromSecretKey : list Z -> result SolanaCollector.Keypair)
    (i : nat) (line : string) : SolanaCollector.event :=
  match keypair_of bs58_decode Keypair_fromSecretKey line with
  | Fulfilled keypair =>
      SolanaCollector.console_log
        (SolanaCollector.Processing_Wallet i
           (SolanaCollector.maskAddress (SolanaCollector.publicKey keypair)))
  | Rejected _ =>
      SolanaCollector.errorLogger_error
        (SolanaCollector.Invalid_private_key_format i)
  end.

Definition is_round_start (e : SolanaCollector.event) : bool :=
  match e with
  | SolanaCollector.console_log (SolanaCollector.Processing_Wallet _ _) => true
  | SolanaCollector.errorLogger_error
      (SolanaCollector.Invalid_private_key_format _) => true
  | _ => false
  end.

(** Where transfers go, for a given recipient and given senders: a
    transfer is built or submitted only from a sender to the recipient
    and signed by that sender, a balance is asked only for a sender, and
    a completed transfer is logged only towards the recipient. *)
Definition directed (recipient : string) (senders : list string)
           (e : SolanaCollector.event) : Prop :=
  match e with
  | SolanaCollector.new_Transaction transfer =>
      SolanaCollector.toPubkey transfer = recipient /\
      In (SolanaCollector.fromPubkey transfer) senders
  | SolanaCollector.rpc (SolanaCollector.sendTransaction transfer signer) =>
      SolanaCollector.toPubkey transfer = recipient /\
      signer = SolanaCollector.fromPubkey transfer /\
      In signer senders
  | SolanaCollector.rpc (SolanaCollector.getBalance publicKey) =>
      In publicKey senders
  | SolanaCollector.transactionLogger_info
      (SolanaCollector.Sent _ _ masked_to _) =>
      masked_to = SolanaCollector.maskAddress recipient
  | _ => True
  end.

(** An event that neither ends the process, nor reports a general error,
    nor is the closing line. *)
Definition calm (e : SolanaCollector.event) : Prop :=
  match e with
  | SolanaCollector.process_exit _ => False
  | SolanaCollector.errorLogger_error (SolanaCollector.General_error _) => False
  | SolanaCollector.console_error SolanaCollector.An_error_occurred => False
  | SolanaCollector.console_log (SolanaCollector.Finished _) => False
  | _ => True
  end.

(** What the rounds of the loop do. *)
Definition of_round (recipient : string) (senders : list string)
           (e : SolanaCollector.event) : Prop :=
  directed recipient senders e /\ calm e.

End Vocabulary.

(** * Properties of BalanceTxFilter *)

Module ScanFacts.
Import BalanceTxFilter.
Local Open Scope eff_scope.

Section WithRetryEq.
Context {A : Type}.
Variable fn : M A.

Lemma withRetry_loop_eq retries attempt currentDelay :
  withRetry_loop fn retries attempt currentDelay =
  if Z_lt_dec attempt retries then
    Eff.try_catch fn (fun error =>
      if includes (message error) "429" then
        emit (console_warn_429 currentDelay) ;;
        emit (setTimeout currentDelay) ;;
        withRetry_loop fn retries (attempt + 1) (currentDelay * 2)
      else Eff.throw error)
  else Eff.throw (new_Error "Maximum retry attempts reached").
Proof.
  now rewrite withRetry_loop_equation_1 at 1.
Qed.
End WithRetryEq.

(** ** Facts about traces *)

Lemma rpc_call_eqb_refl (c : rpc_call) : rpc_call_eqb c c = true.
Proof.
  destruct c; simpl; rewrite ?String.eqb_refl, ?Z.eqb_refl; reflexivity.
Qed.

Lemma calls_app (c : rpc_call) (t1 t2 : trace) :
  calls c (t1 ++ t2) = (calls c t1 + calls c t2)%nat.
Proof. unfold calls. rewrite List.filter_app, length_app. reflexivity. Qed.

Lemma calls_retried (c : rpc_call) (n : nat) (delay : Z) :
  calls c (retried c n delay) = n.
Proof.
  revert delay. induction n as [|n IH]; intros delay; [reflexivity|].
  cbn [retried]. rewrite calls_app, IH.
  unfold calls. cbn. rewrite rpc_call_eqb_refl. reflexivity.
Qed.

Lemma waits_app (t1 t2 : trace) : waits (t1 ++ t2) = waits t1 ++ waits t2.
Proof. unfold waits. apply omap_app. Qed.

Lemma invocations_app (t1 t2 : trace) :
  invocations (t1 ++ t2) = (invocations t1 + invocations t2)%nat.
Proof. unfold invocations. rewrite List.filter_app, length_app. reflexivity. Qed.

Lemma waits_retried (c : rpc_call) (n : nat) (delay : Z) :
  waits (retried c n delay) =
  map (fun i => delay * 2 ^ Z.of_nat i) (seq 0 n).
Proof.
  revert delay. induction n as [|n IH]; intros delay; [reflexivity|].
  cbn [retried]. rewrite waits_app, IH. cbn [seq map].
  rewrite <- seq_shift, map_map. cbn. f_equal; [lia|].
  apply map_ext. intros i. rewrite Nat2Z.inj_succ, Z.pow_succ_r by lia. lia.
Qed.

Lemma invocations_retried (c : rpc_call) (n : nat) (delay : Z) :
  invocations (retried c n delay) = n.
Proof.
  revert delay. induction n as [|n IH]; intros delay; [reflexivity|].
  cbn [retried]. rewrite invocations_app, IH. reflexivity.
Qed.

(** ** The retry loop on a rate-limited node *)

Section WithRetryFacts.
Context {A : Type}.
Variable c : rpc_call.
Variable answers : nat -> result A.

(** [n] rate-limited answers in a row take the loop [n] rounds further. *)
Lemma withRetry_loop_retried (retries : Z) (n : nat) :
  forall (attempt delay : Z) (t : trace),
    (forall i, (i < n)%nat -> rate_limited (answers (calls c t + i))) ->
    attempt + Z.of_nat n <= retries ->
    withRetry_loop (remote c answers) retries attempt delay t =
    withRetry_loop (remote c answers) retries
      (attempt + Z.of_nat n) (delay * 2 ^ Z.of_nat n) (t ++ retried c n delay).
Proof.
  induction n as [|n IH]; intros attempt delay t Hlim Hle.
  - cbn. rewrite app_nil_r. f_equal; lia.
  - rewrite withRetry_loop_eq.
    destruct (Z_lt_dec attempt retries) as [_|]; [|lia].
    destruct (Hlim 0%nat ltac:(lia)) as (e & He & H429).
    rewrite Nat.add_0_r in He.
    unfold Eff.try_catch at 1. unfold remote at 1. rewrite He, H429.
    unfold Eff.bind, emit. rewrite <- !app_assoc. cbn [app].
    rewrite (IH (attempt + 1) (delay * 2)).
    + cbn [retried]. rewrite Nat2Z.inj_succ, Z.pow_succ_r by lia.
      f_equal; [lia | lia | ].
      rewrite <- !app_assoc. reflexivity.
    + intros i Hi. specialize (Hlim (S i) ltac:(lia)).
      rewrite !calls_app. unfold calls at 2. cbn. rewrite rpc_call_eqb_refl.
      cbn. replace (calls c t + 1 + i)%nat with (calls c t + S i)%nat by lia.
      exact Hlim.
    + lia.
Qed.

(** One more attempt that the node answers. *)
Lemma withRetry_loop_answer (retries attempt delay : Z) (t : trace) (v : A) :
  attempt < retries ->
  answers (calls c t) = Fulfilled v ->
  withRetry_loop (remote c answers) retries attempt delay t =
  (Fulfilled v, t ++ [rpc c]).
Proof.
  intros Hlt Hv. rewrite withRetry_loop_eq.
  destruct (Z_lt_dec attempt retries); [|lia].
  unfold Eff.try_catch, remote. rewrite Hv. reflexivity.
Qed.

(** One more attempt that fails for another reason. *)
Lemma withRetry_loop_other (retries attempt delay : Z) (t : trace) (e : error) :
  attempt < retries ->
  answers (calls c t) = Rejected e ->
  includes (message e) "429" = false ->
  withRetry_loop (remote c answers) retries attempt delay t =
  (Rejected e, t ++ [rpc c]).
Proof.
  intros Hlt He H429. rewrite withRetry_loop_eq.
  destruct (Z_lt_dec attempt retries); [|lia].
  unfold Eff.try_catch, remote. rewrite He, H429. reflexivity.
Qed.

(** No attempt left. *)
Lemma withRetry_loop_exhausted (retries attempt delay : Z) (t : trace) :
  retries <= attempt ->
  withRetry_loop (remote c answers) retries attempt delay t =
  (Rejected (new_Error "Maximum retry attempts reached"), t).
Proof.
  intros Hle. rewrite withRetry_loop_eq.
  destruct (Z_lt_dec attempt retries); [lia|]. reflexivity.
Qed.
End WithRetryFacts.

Lemma try_catch_remote {A} (c : rpc_call) (answers : nat -> result A)
      (h : error -> M A) (t : trace) :
  Eff.try_catch (remote c answers) h t =
  match answers (calls c t) with
  | Fulfilled a => (Fulfilled a, t ++ [rpc c])
  | Rejected e => h e (t ++ [rpc c])
  end.
Proof. reflexivity. Qed.

Lemma emit_then {A} (e : event) (m : M A) (t : trace) :
  (emit e ;; m) t = m (t ++ [e]).
Proof. reflexivity. Qed.

Section WithRetryFrame.
Context {A : Type}.
Variable c : rpc_call.
Variable answers : nat -> result A.
Variable retries : Z.

(** [withRetry] only looks at how often its request was sent before,
    and only adds to the trace. *)
Lemma withRetry_loop_frame (n : nat) :
  forall (attempt delay : Z) (t t0 : trace),
    Z.to_nat (retries - attempt) = n ->
    withRetry_loop (remote c answers) retries attempt delay (t ++ t0) =
    let run := withRetry_loop (remote c (later (calls c t) answers))
                              retries attempt delay t0 in
    (fst run, t ++ snd run).
Proof.
  induction n as [|n IH]; intros attempt delay t t0 Hn;
    rewrite (withRetry_loop_eq (remote c answers)),
            (withRetry_loop_eq (remote c (later _ _)));
    destruct (Z_lt_dec attempt retries) as [Hlt|Hge]; try lia;
    try (cbn; reflexivity).
  rewrite !try_catch_remote, calls_app.
  change (later (calls c t) answers (calls c t0))
    with (answers (calls c t + calls c t0)%nat).
  destruct (answers (calls c t + calls c t0)) as [v|e].
  - cbn. now rewrite app_assoc.
  - destruct (includes (message e) "429").
    + rewrite !emit_then, <- !(app_assoc t). rewrite IH by lia. reflexivity.
    + cbn. now rewrite app_assoc.
Qed.

Lemma withRetry_frame (delay : Z) (t : trace) :
  withRetry (remote c answers) retries delay t =
  let run := withRetry (remote c (later (calls c t) answers))
                       retries delay [] in
  (fst run, t ++ snd run).
Proof.
  unfold withRetry.
  rewrite <- (app_nil_r t) at 1.
  now apply (withRetry_loop_frame (Z.to_nat (retries - 0))).
Qed.

Lemma withRetry_loop_of_request (n : nat) :
  forall (attempt delay : Z) (t : trace),
    Z.to_nat (retries - attempt) = n ->
    Forall (of_request c) t ->
    Forall (of_request c)
           (snd (withRetry_loop (remote c answers) retries attempt delay t)).
Proof.
  induction n as [|n IH]; intros attempt delay t Hn Ht;
    rewrite (withRetry_loop_eq (remote c answers));
    destruct (Z_lt_dec attempt retries) as [Hlt|Hge]; try lia;
    try (cbn; assumption).
  rewrite try_catch_remote.
  assert (Ht' : Forall (of_request c) (t ++ [rpc c])).
  { apply Forall_app. split; [assumption|]. repeat constructor. }
  destruct (answers (calls c t)) as [v|e]; [exact Ht'|].
  destruct (includes (message e) "429"); [|exact Ht'].
  rewrite !emit_then. apply IH; [lia|].
  repeat (apply Forall_app; split); try assumption; repeat constructor.
Qed.

(** A value [withRetry] returns is an answer of the node. *)
Lemma withRetry_loop_answered (n : nat) :
  forall (attempt delay : Z) (t : trace) (v : A),
    Z.to_nat (retries - attempt) = n ->
    fst (withRetry_loop (remote c answers) retries attempt delay t) = Fulfilled v ->
    exists i, answers i = Fulfilled v.
Proof.
  induction n as [|n IH]; intros attempt delay t v Hn;
    rewrite (withRetry_loop_eq (remote c answers));
    destruct (Z_lt_dec attempt retries) as [Hlt|Hge]; try lia;
    try (cbn; discriminate).
  rewrite try_catch_remote.
  destruct (answers (calls c t)) as [v'|e] eqn:Hans.
  - cbn. intros [= <-]. eauto.
  - destruct (includes (message e) "429"); [|cbn; discriminate].
    rewrite !emit_then. apply IH. lia.
Qed.

Lemma withRetry_of_request (delay : Z) :
  Forall (of_request c) (snd (withRetry (remote c answers) retries delay [])).
Proof. eapply withRetry_loop_of_request; [reflexivity|constructor]. Qed.
End WithRetryFrame.

(** ** checkWallet *)

Lemma calls_other_request (publicKey publicKey' : string) (limit : Z) (t : trace) :
  Forall (of_request (getBalance publicKey)) t ->
  calls (getSignaturesForAddress publicKey' limit) t = 0%nat.
Proof.
  induction 1 as [|e t He _ IH]; [reflexivity|].
  unfold calls in *. cbn.
  destruct e as [c'| | | | |]; cbn in *; try exact IH.
  subst c'. cbn. exact IH.
Qed.

Lemma out_of_range_false (n lo hi : Z) :
  (n <? lo) || (n >? hi) = false <-> lo <= n <= hi.
Proof. rewrite orb_false_iff, Z.ltb_ge, Z.gtb_ltb, Z.ltb_ge. tauto. Qed.

Lemma filter_of_request (f : event -> bool) (c : rpc_call) (t : trace) :
  (forall e, of_request c e -> f e = false) ->
  Forall (of_request c) t -> List.filter f t = [].
Proof.
  intros Hf. induction 1 as [|e t He _ IH]; [reflexivity|].
  cbn. now rewrite (Hf e He).
Qed.

Lemma quiet_info (c : rpc_call) (e : event) :
  of_request c e -> is_transactionLogger_info e = false.
Proof. destruct e; cbn; tauto. Qed.

Lemma quiet_getSignaturesForAddress (publicKey : string) (e : event) :
  of_request (getBalance publicKey) e -> is_getSignaturesForAddress e = false.
Proof. destruct e as [[]| | | | |]; cbn; try tauto. discriminate. Qed.

Section CheckWalletFacts.
Variable config : settings.
Variable PublicKey : string -> result string.
Variable connection : node.

(** One run of the [try] block, step by step. *)
Lemma checkWallet_try_run (address : string) :
  checkWallet_try config PublicKey connection address [] =
  match PublicKey address with
  | Rejected e => (Rejected e, [])
  | Fulfilled publicKey =>
      let t1 := snd (withRetry (connection_getBalance connection publicKey)
                               5 500 []) in
      match observed_balance connection publicKey with
      | Rejected e => (Rejected e, t1)
      | Fulfilled balanceLamports =>
          if (Number balanceLamports <? minBalanceLamports config)%number
          then (Fulfilled None, t1)
          else
            let t2 :=
              snd (withRetry
                     (connection_getSignaturesForAddress connection publicKey 1000)
                     5 500 []) in
            match observed_signatures connection publicKey with
            | Rejected e => (Rejected e, t1 ++ t2)
            | Fulfilled signatures =>
                let transactionCount := Z.of_nat (length signatures) in
                if (transactionCount <? txMin config)
                   || (transactionCount >? txMax config)
                then (Fulfilled None, t1 ++ t2)
                else
                  let w := WalletInfo address
                             (Number balanceLamports / Number 1000000000)%number
                             transactionCount in
                  (Fulfilled (Some w),
                   t1 ++ t2 ++ [transactionLogger_info w])
            end
      end
  end.
Proof.
  unfold checkWallet_try, observed_balance, observed_signatures.
  unfold Eff.bind at 1. unfold new_PublicKey at 1.
  destruct (PublicKey address) as [publicKey|e]; [|reflexivity].
  unfold Eff.bind at 1.
  pose proof (withRetry_of_request (getBalance publicKey)
                (answers_getBalance connection publicKey) 5 500) as Hquiet.
  fold (connection_getBalance connection publicKey) in Hquiet.
  destruct (withRetry (connection_getBalance connection publicKey) 5 500 [])
    as [[balanceLamports|e] t1]; [|reflexivity].
  cbn [fst snd] in *.
  destruct (_ <? _)%number; [reflexivity|].
  unfold Eff.bind at 1.
  unfold connection_getSignaturesForAddress at 1.
  rewrite withRetry_frame.
  rewrite (calls_other_request publicKey publicKey 1000 t1 Hquiet).
  change (remote ?c (later 0 ?a)) with (remote c a).
  fold (connection_getSignaturesForAddress connection publicKey 1000).
  destruct (withRetry (connection_getSignaturesForAddress connection publicKey 1000)
                      5 500 []) as [[signatures|e] t2]; [|reflexivity].
  cbn [fst snd].
  destruct (_ || _); [reflexivity|].
  rewrite emit_then. cbn. now rewrite app_assoc.
Qed.

(** [checkWallet] never rejects: a failure of the [try] block becomes
    [null]. *)
Lemma checkWallet_result (address : string) (t : trace) :
  fst (checkWallet config PublicKey connection address t) =
  match fst (checkWallet_try config PublicKey connection address t) with
  | Fulfilled w => Fulfilled w
  | Rejected _ => Fulfilled None
  end.
Proof.
  unfold checkWallet, Eff.try_catch.
  destruct (checkWallet_try config PublicKey connection address t)
    as [[w|e] t']; reflexivity.
Qed.

Lemma observed_signatures_capped (publicKey : string) (signatures : list string) :
  observed_signatures connection publicKey = Fulfilled signatures ->
  Z.of_nat (length signatures) <= 1000.
Proof.
  unfold observed_signatures, connection_getSignaturesForAddress, withRetry.
  intros Hobs.
  eapply withRetry_loop_answered in Hobs; [|reflexivity].
  destruct Hobs as [i Hi]. unfold at_most in Hi.
  destruct (answers_getSignaturesForAddress connection publicKey i)
    as [l|]; [|discriminate].
  injection Hi as <-. rewrite length_take. lia.
Qed.

Lemma checkWallet_slot (address : string) :
  fst (checkWallet config PublicKey connection address []) =
  Fulfilled (slot config PublicKey connection address).
Proof.
  rewrite checkWallet_result. unfold slot.
  destruct (fst _); reflexivity.
Qed.

Lemma slot_qualifies (address : string) (w : walletInfo) :
  slot config PublicKey connection address = Some w
  <-> qualifies config PublicKey connection address w.
Proof.
  unfold slot, qualifies. rewrite checkWallet_try_run.
  unfold minBalanceLamports, txMin, txMax.
  destruct (PublicKey address) as [publicKey|e] eqn:Hkey;
    [|cbn; split; [discriminate|];
      intros (pk & B & sigs & Hpk & _); discriminate Hpk].
  cbn zeta.
  destruct (observed_balance connection publicKey)
    as [balanceLamports|e] eqn:Hobs;
    [|cbn; split; [discriminate|];
      intros (pk & B & sigs & Hpk & HB & _);
      injection Hpk as <-; congruence].
  destruct (_ <? _)%number eqn:Hbal.
  { cbn. split; [discriminate|].
    intros (pk & B & sigs & Hpk & HB & Hmin & _).
    injection Hpk as <-. rewrite Hobs in HB. injection HB as <-.
    congruence. }
  destruct (observed_signatures connection publicKey)
    as [signatures|e] eqn:Hsigs;
    [|cbn; split; [discriminate|];
      intros (pk & B & sigs & Hpk & HB & _ & Hs & _);
      injection Hpk as <-; congruence].
  destruct (_ || _) eqn:Hrange.
  { cbn. split; [discriminate|].
    intros (pk & B & sigs & Hpk & HB & _ & Hs & Hin & _).
    injection Hpk as <-. rewrite Hsigs in Hs. injection Hs as <-.
    apply out_of_range_false in Hin. congruence. }
  apply out_of_range_false in Hrange. cbn. split.
  - intros [= <-]. exists publicKey, balanceLamports, signatures. auto 10.
  - intros (pk & B & sigs & Hpk & HB & _ & Hs & _ & ->).
    injection Hpk as <-. rewrite Hobs in HB. rewrite Hsigs in Hs.
    injection HB as <-. injection Hs as <-. reflexivity.
Qed.

(** The record of a passing wallet is logged once, and no record is
    logged for any other wallet. *)
Lemma checkWallet_logged (address : string) :
  List.filter is_transactionLogger_info
              (snd (checkWallet config PublicKey connection address [])) =
  match slot config PublicKey connection address with
  | Some w => [transactionLogger_info w]
  | None => []
  end.
Proof.
  unfold checkWallet, Eff.try_catch, slot. rewrite checkWallet_try_run.
  destruct (PublicKey address) as [publicKey|e]; [|reflexivity].
  cbn zeta.
  pose proof (filter_of_request is_transactionLogger_info _ _
                (quiet_info _)
                (withRetry_of_request (getBalance publicKey)
                   (answers_getBalance connection publicKey) 5 500)) as H1.
  pose proof (filter_of_request is_transactionLogger_info _ _
                (quiet_info _)
                (withRetry_of_request (getSignaturesForAddress publicKey 1000)
                   (fun n => at_most 1000
                      (answers_getSignaturesForAddress connection publicKey n))
                   5 500)) as H2.
  fold (connection_getBalance connection publicKey) in H1.
  fold (connection_getSignaturesForAddress connection publicKey 1000) in H2.
  destruct (observed_balance connection publicKey) as [balanceLamports|e].
  2:{ rewrite !emit_then. cbn. rewrite !List.filter_app, H1. reflexivity. }
  destruct (_ <? _)%number; [cbn; exact H1|].
  destruct (observed_signatures connection publicKey) as [signatures|e].
  2:{ rewrite !emit_then. cbn. rewrite !List.filter_app, H1, H2. reflexivity. }
  destruct (_ || _); cbn; rewrite !List.filter_app, H1, H2; reflexivity.
Qed.
End CheckWalletFacts.

(** C2.  An operation that answers with rate-limit errors ("429" in the
    message) [k] times in a row, called through [withRetry]:
    - if its next answer is a success and [k < maxRetries], the success is
      returned after [k] retries (k + 1 invocations) that waited
      [initialDelay], [2 * initialDelay], [4 * initialDelay], ...;
    - if [maxRetries <= k], the call fails with "Maximum retry attempts
      reached" after exactly [maxRetries] invocations;
    - if its next answer is a failure of another kind, that failure is
      thrown at once: no wait and no invocation follows it. *)
Theorem withRetry_backoff {A} (c : rpc_call) (answers : nat -> result A)
    (maxRetries initialDelay : Z) (k : nat)
    (Hlimited : forall i, (i < k)%nat -> rate_limited (answers i)) :
  let run := withRetry (remote c answers) maxRetries initialDelay [] in
  (forall v, answers k = Fulfilled v -> Z.of_nat k < maxRetries ->
     fst run = Fulfilled v /\
     snd run = retried c k initialDelay ++ [rpc c] /\
     waits (snd run) = map (fun i => initialDelay * 2 ^ Z.of_nat i) (seq 0 k) /\
     invocations (snd run) = S k) /\
  (0 <= maxRetries <= Z.of_nat k ->
     fst run = Rejected (new_Error "Maximum retry attempts reached") /\
     Z.of_nat (invocations (snd run)) = maxRetries) /\
  (forall e, answers k = Rejected e -> includes (message e) "429" = false ->
     Z.of_nat k < maxRetries ->
     fst run = Rejected e /\
     snd run = retried c k initialDelay ++ [rpc c] /\
     invocations (snd run) = S k).
Proof.
  intros run. subst run. unfold withRetry.
  assert (Hk : Z.of_nat k < maxRetries ->
               withRetry_loop (remote c answers) maxRetries 0 initialDelay [] =
               withRetry_loop (remote c answers) maxRetries (Z.of_nat k)
                 (initialDelay * 2 ^ Z.of_nat k) (retried c k initialDelay)).
  { intros Hlt.
    rewrite (withRetry_loop_retried c answers maxRetries k 0 initialDelay [])
      by (cbn; auto; lia).
    reflexivity. }
  split; [|split].
  - intros v Hv Hlt. rewrite (Hk Hlt).
    rewrite (withRetry_loop_answer c answers _ _ _ _ v)
      by (rewrite ?calls_retried; auto).
    cbn [fst snd]. rewrite waits_app, invocations_app, waits_retried,
      invocations_retried. cbn. rewrite app_nil_r.
    repeat split; lia.
  - intros [H0 Hle].
    rewrite (withRetry_loop_retried c answers maxRetries (Z.to_nat maxRetries)
               0 initialDelay []).
    + rewrite withRetry_loop_exhausted by lia.
      cbn [fst snd app]. rewrite invocations_retried. split; [reflexivity|lia].
    + intros i Hi. apply Hlimited. cbn. lia.
    + lia.
  - intros e He H429 Hlt. rewrite (Hk Hlt).
    rewrite (withRetry_loop_other c answers _ _ _ _ e)
      by (rewrite ?calls_retried; auto).
    cbn [fst snd]. rewrite invocations_app, invocations_retried. cbn.
    repeat split; lia.
Qed.

(** ** asyncPool *)

Section AsyncPoolFacts.
Context {T R : Type}.
Variable iteratorFn : nat -> T -> result R.
Variable sched : nat -> list nat.

Abbreviation pool := (@pool R).

Lemma ret_settle (j : nat) (st : pool) : ret (settle j st) = ret st.
Proof. unfold settle. destruct (ret st !! j) as [[]|]; reflexivity. Qed.

Lemma ret_settle_more (picks : list nat) :
  forall st : pool, ret (settle_more picks st) = ret st.
Proof.
  induction picks as [|n picks IH]; intros st; cbn; [reflexivity|].
  destruct (pick n (pending st)); [|reflexivity].
  rewrite IH. apply ret_settle.
Qed.

Lemma pick_nonempty (n : nat) (l : list nat) :
  l <> [] -> exists j, pick n l = Some j /\ j ∈ l.
Proof.
  intros Hne. unfold pick.
  destruct (lookup_lt_is_Some_2 l (n mod length l)%nat) as [j Hj].
  - apply Nat.mod_upper_bound. destruct l; [congruence|cbn; lia].
  - exists j. split; [exact Hj|]. eapply list_elem_of_lookup_2, Hj.
Qed.

(** A race over a non-empty array settles: either a fulfilled promise
    wins and [ret] is untouched, or a rejected promise of [ret] wins. *)
Lemma race_settles (picks : list nat) (st : pool) :
  executing st <> [] ->
  match race picks st with
  | race_fulfilled st' => ret st' = ret st
  | race_rejected e => Rejected e ∈ ret st
  | race_never => False
  end.
Proof.
  intros Hne. unfold race.
  destruct (List.find (is_settled st) (executing st)) as [j|].
  - destruct (ret st !! j) as [[v|e]|] eqn:Hj; try apply ret_settle_more.
    eapply list_elem_of_lookup_2, Hj.
  - destruct (pick_nonempty (hd 0%nat picks) _ Hne) as (j & -> & _).
    destruct (ret st !! j) as [[v|e]|] eqn:Hj;
      try (rewrite ret_settle_more, ret_settle; reflexivity).
    eapply list_elem_of_lookup_2, Hj.
Qed.

Lemma pushed_cons (st st' : pool) (item : T) (items : list T) :
  ret st' = ret st ++ [iteratorFn (length (ret st)) item] ->
  pushed iteratorFn st' items = pushed iteratorFn st (item :: items).
Proof.
  intros Hret. unfold pushed. rewrite Hret, length_app, <- app_assoc. cbn.
  rewrite Nat.add_0_r. do 2 f_equal. apply imap_ext. intros i x _. cbn.
  f_equal. lia.
Qed.

(** The loop never hangs.  It ends with one promise per element in
    [ret], in the order of the array, or it throws the rejection of one
    of the promises it pushed. *)
Lemma asyncPool_loop_settles (poolLimit : Z) (array_length : nat)
      (items : list T) :
  forall (k : nat) (st : pool),
    match asyncPool_loop iteratorFn sched poolLimit array_length items k st with
    | loop_done _ st' => ret st' = pushed iteratorFn st items
    | loop_throws e => Rejected e ∈ pushed iteratorFn st items
    | loop_never => False
    end.
Proof.
  induction items as [|item items IH]; intros k st.
  - cbn. unfold pushed. cbn. rewrite app_nil_r. reflexivity.
  - cbn [asyncPool_loop ret executing settled].
    set (p := iteratorFn (length (ret st)) item).
    destruct (poolLimit <=? Z.of_nat array_length).
    + destruct (Z.of_nat (length (executing st ++ [length (ret st)])) >=? poolLimit).
      * pose proof (race_settles (sched k)
                      (Pool (ret st ++ [p]) (executing st ++ [length (ret st)])
                            (settled st))) as Hrace.
        cbn [ret executing] in Hrace.
        destruct (race _ _) as [st'|e|].
        -- specialize (Hrace ltac:(destruct (executing st); discriminate)).
           specialize (IH (S k) st').
           rewrite (pushed_cons st st' item items Hrace) in IH. exact IH.
        -- specialize (Hrace ltac:(destruct (executing st); discriminate)).
           unfold pushed. cbn [imap]. rewrite Nat.add_0_r.
           change (?x :: ?l) with ([x] ++ l). rewrite app_assoc.
           apply elem_of_app. left. exact Hrace.
        -- apply Hrace. destruct (executing st); discriminate.
      * specialize (IH k (Pool (ret st ++ [p]) (executing st ++ [length (ret st)])
                               (settled st))).
        rewrite (pushed_cons st (Pool (ret st ++ [p]) _ _) item items eq_refl)
          in IH. exact IH.
    + specialize (IH k (Pool (ret st ++ [p]) (executing st) (settled st))).
      rewrite (pushed_cons st (Pool (ret st ++ [p]) _ _) item items eq_refl)
        in IH. exact IH.
Qed.

Lemma rejection_fulfilled (st : pool) (j : nat) :
  Forall fulfilled (ret st) -> rejection st j = None.
Proof.
  intros Hall. unfold rejection.
  destruct (ret st !! j) as [[v|e]|] eqn:Hj; try reflexivity.
  apply (Forall_lookup_1 _ _ _ _ Hall) in Hj. destruct Hj as [v Hv]. discriminate.
Qed.

Lemma omap_value_fulfilled (rs : list (result R)) :
  Forall fulfilled rs -> map Fulfilled (omap value rs) = rs.
Proof.
  induction 1 as [|r rs [v ->] _ IH]; cbn; [reflexivity|]. now rewrite IH.
Qed.

Lemma Promise_all_fulfilled (picks : list nat) (st : pool) :
  Forall fulfilled (ret st) ->
  Promise_all picks st = Fulfilled (omap value (ret st)).
Proof.
  intros Hall. unfold Promise_all.
  assert (Hnone : forall l, omap (rejection st) l = []).
  { induction l as [|j l IHl]; cbn; [reflexivity|].
    rewrite (rejection_fulfilled st j Hall). exact IHl. }
  rewrite Hnone. reflexivity.
Qed.

(** Every promise settles at some point of the order. *)
Lemma settle_order_complete (picks : list nat) :
  forall (js : list nat) (x : nat), x ∈ js -> x ∈ settle_order picks js.
Proof.
  induction picks as [|n picks IH]; intros js x Hx; cbn; [exact Hx|].
  destruct (pick_nonempty n js) as (j & -> & _).
  { intros ->. inversion Hx. }
  destruct (Nat.eqb x j) eqn:Hxj.
  - apply Nat.eqb_eq in Hxj. subst. left.
  - right. apply IH. apply list_elem_of_In, List.filter_In.
    split; [apply list_elem_of_In, Hx|]. now rewrite Hxj.
Qed.

Lemma Promise_all_rejected (picks : list nat) (st : pool) (j : nat) (e : error) :
  ret st !! j = Some (Rejected e) ->
  exists e', Promise_all picks st = Rejected e' /\ Rejected e' ∈ ret st.
Proof.
  intros Hj. unfold Promise_all.
  set (ids := seq 0 (length (ret st))).
  set (seen := List.filter (is_settled st) ids ++ _).
  assert (Hseen : j ∈ seen).
  { assert (Hid : j ∈ ids).
    { apply list_elem_of_In, in_seq. apply lookup_lt_Some in Hj. lia. }
    subst seen. apply elem_of_app.
    destruct (is_settled st j) eqn:Hs.
    - left. apply list_elem_of_In, List.filter_In.
      split; [apply list_elem_of_In, Hid|exact Hs].
    - right. apply settle_order_complete, list_elem_of_In, List.filter_In.
      split; [apply list_elem_of_In, Hid|]. now rewrite Hs. }
  destruct (omap (rejection st) seen) as [|e' l] eqn:Hom.
  - assert (He : e ∈ omap (rejection st) seen).
    { apply list_elem_of_omap. exists j. split; [exact Hseen|].
      unfold rejection. now rewrite Hj. }
    rewrite Hom in He. inversion He.
  - exists e'. split; [reflexivity|].
    assert (He : e' ∈ omap (rejection st) seen) by (rewrite Hom; left).
    apply list_elem_of_omap in He. destruct He as (i & _ & Hi).
    unfold rejection in Hi.
    destruct (ret st !! i) as [[v|e'']|] eqn:Hri; try discriminate.
    injection Hi as ->. eapply list_elem_of_lookup_2, Hri.
Qed.

Lemma pushed_all (array : list T) :
  pushed iteratorFn (Pool [] [] []) array = imap iteratorFn array.
Proof. reflexivity. Qed.

(** When every call of the task is fulfilled, [asyncPool] is fulfilled
    and the values come back in the order of the array, whatever the
    limit and the order in which the promises settle. *)
Lemma asyncPool_all_fulfilled (poolLimit : Z) (array : list T) :
  Forall fulfilled (imap iteratorFn array) ->
  asyncPool iteratorFn sched poolLimit array
  = Some (Fulfilled (omap value (imap iteratorFn array))).
Proof.
  intros Hall. unfold asyncPool.
  pose proof (asyncPool_loop_settles poolLimit (length array) array 0
                (Pool [] [] [])) as Hloop.
  rewrite pushed_all in Hloop.
  destruct (asyncPool_loop _ _ _ _ _ _ _) as [k st|e|]; [| |contradiction].
  - rewrite <- Hloop in *. f_equal. apply Promise_all_fulfilled, Hall.
  - apply (proj1 (Forall_forall _ _) Hall) in Hloop.
    destruct Hloop as [v Hv]. discriminate.
Qed.

(** When a call of the task is rejected, [asyncPool] is rejected, with
    the reason of one of the rejected calls. *)
Lemma asyncPool_some_rejected (poolLimit : Z) (array : list T)
      (i : nat) (e : error) :
  imap iteratorFn array !! i = Some (Rejected e) ->
  exists e', asyncPool iteratorFn sched poolLimit array = Some (Rejected e')
             /\ Rejected e' ∈ imap iteratorFn array.
Proof.
  intros Hi. unfold asyncPool.
  pose proof (asyncPool_loop_settles poolLimit (length array) array 0
                (Pool [] [] [])) as Hloop.
  rewrite pushed_all in Hloop.
  destruct (asyncPool_loop _ _ _ _ _ _ _) as [k st|e'|]; [| |contradiction].
  - rewrite <- Hloop in *.
    destruct (Promise_all_rejected (sched k) st i e Hi) as (e' & -> & He').
    exists e'. split; [reflexivity|exact He'].
  - exists e'. split; [reflexivity|exact Hloop].
Qed.
End AsyncPoolFacts.

Lemma omap_value_imap {T R} (f : nat -> T -> R) (l : list T) :
  omap value (imap (fun i x => Fulfilled (f i x)) l) = imap f l.
Proof.
  revert f. induction l as [|x l IH]; intros f; cbn; [reflexivity|].
  f_equal. apply IH.
Qed.

Lemma Forall_fulfilled_imap {T R} (f : nat -> T -> R) (l : list T) :
  Forall fulfilled (imap (fun i x => Fulfilled (f i x)) l).
Proof.
  revert f. induction l as [|x l IH]; intros f; cbn; constructor.
  - now eexists.
  - apply IH.
Qed.

(** ** The scan: asyncPool over checkWallet *)

Section ScanRun.
Variable config : settings.
Variable PublicKey : string -> result string.
Variable connection : nat -> node.
Variable sched : nat -> list nat.

Lemma scan_results (walletList : list string) :
  asyncPool (fun i address => fst (task config PublicKey connection i address))
            sched (max_concurrent_requests config) walletList
  = Some (Fulfilled
            (imap (fun i address => slot config PublicKey (connection i) address)
                  walletList)).
Proof.
  assert (Htasks :
    imap (fun i address => fst (task config PublicKey connection i address))
         walletList
    = imap (fun i address =>
              Fulfilled (slot config PublicKey (connection i) address))
           walletList).
  { apply imap_ext. intros i address _. apply checkWallet_slot. }
  rewrite asyncPool_all_fulfilled; rewrite Htasks.
  - now rewrite omap_value_imap.
  - apply Forall_fulfilled_imap.
Qed.
End ScanRun.

(** * The claims about BalanceTxFilter *)

(** C3.  Whatever the limit and the order in which the promises settle,
    [asyncPool] settles; it is fulfilled when every call of the task is;
    and the sequence it is fulfilled with has the length of the input
    array and holds at position [i] the value of the call made for the
    [i]-th element. *)
Theorem asyncPool_keeps_input_order {T R} (iteratorFn : nat -> T -> result R)
    (sched : nat -> list nat) (poolLimit : Z) (array : list T) :
  (exists r, asyncPool iteratorFn sched poolLimit array = Some r) /\
  ((forall i item, array !! i = Some item -> fulfilled (iteratorFn i item)) ->
   exists results,
     asyncPool iteratorFn sched poolLimit array = Some (Fulfilled results)) /\
  (forall results,
     asyncPool iteratorFn sched poolLimit array = Some (Fulfilled results) ->
     length results = length array /\
     forall i item, array !! i = Some item ->
       exists v, iteratorFn i item = Fulfilled v /\ results !! i = Some v).
Proof.
  assert (Hdec : Forall fulfilled (imap iteratorFn array) \/
                 exists i e, imap iteratorFn array !! i = Some (Rejected e)).
  { induction (imap iteratorFn array) as [|r l IH]; [left; constructor|].
    destruct r as [v|e].
    - destruct IH as [IH|(i & e & Hi)].
      + left. constructor; [now eexists|exact IH].
      + right. exists (S i), e. exact Hi.
    - right. exists 0%nat, e. reflexivity. }
  split; [|split].
  - destruct Hdec as [Hall|(i & e & Hi)].
    + eexists. apply asyncPool_all_fulfilled, Hall.
    + destruct (asyncPool_some_rejected iteratorFn sched poolLimit array i e Hi)
        as (e' & -> & _). eauto.
  - intros Hall. eexists. apply asyncPool_all_fulfilled.
    apply Forall_lookup_2. intros i r Hr.
    rewrite list_lookup_imap in Hr.
    destruct (array !! i) as [item|] eqn:Hi; [|discriminate].
    injection Hr as <-. eapply Hall, Hi.
  - intros results Hres.
    destruct Hdec as [Hall|(i & e & Hi)].
    2:{ destruct (asyncPool_some_rejected iteratorFn sched poolLimit array i e Hi)
          as (e' & He' & _). congruence. }
    rewrite (asyncPool_all_fulfilled _ _ _ _ Hall) in Hres.
    injection Hres as <-.
    pose proof (omap_value_fulfilled _ Hall) as Hmap.
    split.
    + rewrite <- (length_map Fulfilled), Hmap. apply length_imap.
    + intros i item Hi.
      assert (Hr : imap iteratorFn array !! i = Some (iteratorFn i item)).
      { rewrite list_lookup_imap, Hi. reflexivity. }
      rewrite <- Hmap, list_lookup_fmap in Hr.
      destruct (omap value (imap iteratorFn array) !! i) as [v|]; [|discriminate].
      exists v. injection Hr as <-. split; reflexivity.
Qed.

(** C4.  In the scan every task is a call of [checkWallet].  Whatever the
    wallet list, the node, the limit and the order of settlement, the run
    is not aborted: [asyncPool] is fulfilled with one slot per wallet;
    the slot of a task whose [try] block failed (bad address, a query
    that failed or ran out of retries) holds [null], with the failure
    logged; and the slot of every other task holds what that task
    returned. *)
Theorem scan_failure_does_not_abort (config : settings)
    (PublicKey : string -> result string) (connection : nat -> node)
    (sched : nat -> list nat) (walletList : list string) :
  exists results,
    asyncPool (fun i address => fst (task config PublicKey connection i address))
              sched (max_concurrent_requests config) walletList
    = Some (Fulfilled results) /\
    length results = length walletList /\
    forall i address, walletList !! i = Some address ->
      let attempt := checkWallet_try config PublicKey (connection i) address [] in
      (forall e, fst attempt = Rejected e ->
         results !! i = Some None /\
         snd (task config PublicKey connection i address) =
         snd attempt ++ [errorLogger_error address (message e);
                         console_error address (message e)]) /\
      (forall r, fst attempt = Fulfilled r ->
         results !! i = Some r /\
         snd (task config PublicKey connection i address) = snd attempt).
Proof.
  eexists. split; [apply scan_results|]. split; [apply length_imap|].
  intros i address Hi attempt. subst attempt.
  rewrite list_lookup_imap, Hi. cbn [fmap option_fmap option_map].
  unfold slot, task, checkWallet, Eff.try_catch.
  destruct (checkWallet_try config PublicKey (connection i) address [])
    as [[r|e] t]; cbn [fst snd]; split.
  - discriminate.
  - intros r' [= <-]. split; reflexivity.
  - intros e' [= <-]. rewrite !emit_then. cbn. rewrite <- app_assoc.
    split; reflexivity.
  - discriminate.
Qed.

(** X22.  A wallet whose address parses and whose balance query comes
    back with a number of lamports below [min_balance_sol * 1e9], product
    and comparison being those of doubles, is excluded right after that
    query: the task returns [null], its effects are those of the balance
    query alone, and no [getSignaturesForAddress] request is among
    them. *)
Theorem checkWallet_short_circuit (config : settings)
    (PublicKey : string -> result string) (connection : node)
    (address publicKey : string) (balanceLamports : Z) :
  PublicKey address = Fulfilled publicKey ->
  observed_balance connection publicKey = Fulfilled balanceLamports ->
  (Number balanceLamports <? min_balance_sol config * Number 1000000000)%number
  = true ->
  let run := checkWallet config PublicKey connection address [] in
  fst run = Fulfilled None /\
  snd run = snd (withRetry (connection_getBalance connection publicKey) 5 500 []) /\
  List.filter is_getSignaturesForAddress (snd run) = [].
Proof.
  intros Hkey Hobs Hlow run. subst run.
  unfold checkWallet, Eff.try_catch. rewrite checkWallet_try_run, Hkey.
  cbn zeta. rewrite Hobs. unfold minBalanceLamports. rewrite Hlow.
  split; [reflexivity|]. split; [reflexivity|]. cbn [snd].
  apply (filter_of_request _ (getBalance publicKey)).
  - apply quiet_getSignaturesForAddress.
  - apply withRetry_of_request.
Qed.

(** X23.  The scan saves the records of the slots that are not [null],
    and the slot of a wallet holds a record exactly when the wallet
    qualifies: its address parses, the number of lamports the node
    reported is not below [min_balance_sol * 1e9] (product and comparison
    of doubles), and the number of signatures the node returned (at most
    1000) lies in [transaction_count_range].  A qualifying wallet has that
    one record, logged once; any other wallet has [null] and no record is
    logged for it. *)
Theorem scan_emits_record_iff_qualifies (config : settings)
    (PublicKey : string -> result string) (connection : nat -> node)
    (sched : nat -> list nat) (walletList : list string) :
  exists results,
    main config PublicKey connection sched walletList = saved (omap id results) /\
    length results = length walletList /\
    forall i address, walletList !! i = Some address ->
      let logged := List.filter is_transactionLogger_info
                      (snd (task config PublicKey connection i address)) in
      (forall w, results !! i = Some (Some w) <->
                 qualifies config PublicKey (connection i) address w) /\
      (forall w, qualifies config PublicKey (connection i) address w ->
                 logged = [transactionLogger_info w] /\
                 transactionCount w <= 1000) /\
      ((forall w, ~ qualifies config PublicKey (connection i) address w) ->
       results !! i = Some None /\ logged = []).
Proof.
  exists (imap (fun i address => slot config PublicKey (connection i) address)
               walletList).
  split; [unfold main; now rewrite scan_results|].
  split; [apply length_imap|].
  intros i address Hi logged. subst logged.
  rewrite list_lookup_imap, Hi. cbn [fmap option_fmap option_map].
  unfold task. rewrite checkWallet_logged.
  split; [|split].
  - intros w. rewrite <- slot_qualifies. split; congruence.
  - intros w Hw. pose proof Hw as Hslot. apply slot_qualifies in Hslot.
    rewrite Hslot. split; [reflexivity|].
    destruct Hw as (pk & B & sigs & _ & _ & _ & Hs & _ & ->). cbn.
    eapply observed_signatures_capped, Hs.
  - intros Hnone.
    destruct (slot config PublicKey (connection i) address) as [w|] eqn:Hslot.
    + apply slot_qualifies in Hslot. destruct (Hnone w Hslot).
    + split; reflexivity.
Qed.

(** ** The claims on the example scan *)

Import Examples.

Lemma flaky_limited : forall i, (i < 2)%nat -> rate_limited (flaky i).
Proof.
  intros [|[|i]] Hi; [| |lia]; exists too_many_requests; split; reflexivity.
Defined.

Lemma flaky_then_down_limited :
  forall i, (i < 1)%nat -> rate_limited (flaky_then_down i).
Proof.
  intros [|i] Hi; [|lia]. exists too_many_requests. split; reflexivity.
Defined.

(** With five attempts the flaky query answers 7 after waits of 500 and
    1000 ms; with two attempts it is given up after two requests; and a
    connection reset after one rate-limit error is thrown at the second
    request. *)
Lemma withRetry_backoff_witness :
  (fst (withRetry (remote (getBalance "w") flaky) 5 500 []) = Fulfilled 7 /\
   waits (snd (withRetry (remote (getBalance "w") flaky) 5 500 [])) = [500; 1000] /\
   invocations (snd (withRetry (remote (getBalance "w") flaky) 5 500 [])) = 3%nat) /\
  (fst (withRetry (remote (getBalance "w") flaky) 2 500 [])
   = Rejected (new_Error "Maximum retry attempts reached") /\
   Z.of_nat (invocations
               (snd (withRetry (remote (getBalance "w") flaky) 2 500 []))) = 2) /\
  (fst (withRetry (remote (getBalance "w") flaky_then_down) 5 500 [])
   = Rejected connection_reset /\
   invocations (snd (withRetry (remote (getBalance "w") flaky_then_down) 5 500 []))
   = 2%nat).
Proof.
  split; [|split].
  - destruct (withRetry_backoff (getBalance "w") flaky 5 500 2 flaky_limited)
      as (Hok & _ & _).
    destruct (Hok 7 eq_refl ltac:(lia)) as (Hres & _ & Hwaits & Hcount).
    repeat split; assumption.
  - destruct (withRetry_backoff (getBalance "w") flaky 2 500 2 flaky_limited)
      as (_ & Hout & _).
    apply Hout. lia.
  - destruct (withRetry_backoff (getBalance "w") flaky_then_down 5 500 1
                                flaky_then_down_limited) as (_ & _ & Hother).
    destruct (Hother connection_reset eq_refl eq_refl ltac:(lia))
      as (Hres & _ & Hcount).
    split; assumption.
Defined.

(** Three doubling tasks under a limit of two, the second promise
    settling first: the values come back in the order of the inputs. *)
Lemma asyncPool_keeps_input_order_witness :
  exists results,
    asyncPool double_task late_first 2 [10; 20; 30] = Some (Fulfilled results) /\
    length results = 3%nat /\
    results !! 0%nat = Some 20 /\ results !! 1%nat = Some 41 /\
    results !! 2%nat = Some 62.
Proof.
  destruct (asyncPool_keeps_input_order double_task late_first 2 [10; 20; 30])
    as (_ & Hfulfilled & Horder).
  destruct Hfulfilled as [results Hresults].
  { intros i item _. eexists. reflexivity. }
  exists results. split; [exact Hresults|].
  destruct (Horder results Hresults) as [Hlen Hat].
  split; [exact Hlen|].
  destruct (Hat 0%nat 10 eq_refl) as (v0 & Hv0 & H0).
  destruct (Hat 1%nat 20 eq_refl) as (v1 & Hv1 & H1).
  destruct (Hat 2%nat 30 eq_refl) as (v2 & Hv2 & H2).
  injection Hv0 as <-. injection Hv1 as <-. injection Hv2 as <-.
  repeat split; assumption.
Defined.

(** The node is down for carol: her slot is [null], the failure is
    logged, and alice and bob still get their results. *)
Lemma scan_failure_does_not_abort_witness :
  exists results,
    asyncPool (fun i address => fst (task scan_settings PublicKey scan_node i address))
              late_first 2 scan_wallets = Some (Fulfilled results) /\
    results !! 2%nat = Some None /\
    snd (task scan_settings PublicKey scan_node 2 "carol") =
      [rpc (getBalance "carol");
       errorLogger_error "carol" "read ECONNRESET";
       console_error "carol" "read ECONNRESET"] /\
    results !! 0%nat = Some (Some alice_record) /\
    results !! 1%nat = Some None.
Proof.
  destruct (scan_failure_does_not_abort scan_settings PublicKey scan_node
              late_first scan_wallets) as (results & Hrun & _ & Hslots).
  exists results. split; [exact Hrun|].
  destruct (Hslots 2%nat "carol" eq_refl) as [Hfail _].
  destruct (Hfail connection_reset eq_refl) as [Hnull Hlog].
  destruct (Hslots 0%nat "alice" eq_refl) as [_ Halice].
  destruct (Halice (Some alice_record) eq_refl) as [Hrecord _].
  destruct (Hslots 1%nat "bob" eq_refl) as [_ Hbob].
  destruct (Hbob None eq_refl) as [Hpoor _].
  repeat split; assumption.
Defined.

(** Bob holds 5 lamports, the minimum is 0.01 SOL: one balance request
    and nothing else. *)
Lemma checkWallet_short_circuit_witness :
  fst (checkWallet scan_settings PublicKey (scan_node 1) "bob" []) = Fulfilled None /\
  snd (checkWallet scan_settings PublicKey (scan_node 1) "bob" [])
  = [rpc (getBalance "bob")] /\
  List.filter is_getSignaturesForAddress
              (snd (checkWallet scan_settings PublicKey (scan_node 1) "bob" [])) = [].
Proof.
  destruct (checkWallet_short_circuit scan_settings PublicKey (scan_node 1)
              "bob" "bob" 5 eq_refl eq_refl eq_refl) as (Hnull & Htrace & Hnone).
  repeat split; assumption.
Defined.

(** Of alice, bob and carol only alice qualifies: her record is the one
    that is saved. *)
Lemma scan_emits_record_iff_qualifies_witness :
  exists results,
    main scan_settings PublicKey scan_node late_first scan_wallets
    = saved (omap id results) /\
    results !! 0%nat = Some (Some alice_record) /\
    List.filter is_transactionLogger_info
                (snd (task scan_settings PublicKey scan_node 0 "alice"))
    = [transactionLogger_info alice_record].
Proof.
  destruct (scan_emits_record_iff_qualifies scan_settings PublicKey scan_node
              late_first scan_wallets) as (results & Hmain & _ & Hslots).
  exists results. split; [exact Hmain|].
  destruct (Hslots 0%nat "alice" eq_refl) as (Hiff & Hlogged & _).
  assert (Halice : qualifies scan_settings PublicKey (scan_node 0) "alice"
                             alice_record).
  { exists "alice", 50000000, ["s1"; "s2"; "s3"].
    repeat split; try reflexivity; try discriminate. }
  split; [apply Hiff, Halice|]. apply Hlogged, Halice.
Defined.

(** ** Two configured minima *)

(** C6, at a failing input.  With [min_balance_sol = 631.7939173780001]
    and a wallet that holds 631793917378 lamports, the balance in SOL is
    below the configured minimum; the product [min_balance_sol * 1e9] is
    the number 631793917378, so the balance is not below it: the
    signature query is sent, and the wallet is saved with its balance
    below the minimum. *)
Theorem checkWallet_queries_count_below_minimum :
  let config := settings_631 in
  let run := checkWallet config PublicKey (holding 631793917378) "alice" [] in
  (Number 631793917378 / Number 1000000000 <? min_balance_sol config)%number
  = true /\
  (min_balance_sol config * Number 1000000000)%number = Number 631793917378 /\
  List.filter is_getSignaturesForAddress (snd run)
  = [rpc (getSignaturesForAddress "alice" 1000)] /\
  fst run = Fulfilled
              (Some (WalletInfo "alice"
                       (Number 631793917378 / Number 1000000000)%number 3)).
Proof. vm_compute. repeat split. Qed.

(** C7, at a failing input.  With [min_balance_sol = 0.067] a wallet that
    holds 67000000 lamports holds exactly the minimum: its balance in SOL
    is the number 0.067.  The product [min_balance_sol * 1e9] is
    67000000.00000001, the balance is below it, and the wallet is
    excluded after the balance query, although its three signatures are
    within the range. *)
Theorem checkWallet_excludes_exact_minimum :
  let config := settings_0_067 in
  (Number 67000000 / Number 1000000000)%number = min_balance_sol config /\
  (min_balance_sol config * Number 1000000000)%number
  = S754_finite false 8992587776000001 (-27) /\
  (Number 67000000 <? min_balance_sol config * Number 1000000000)%number
  = true /\
  checkWallet config PublicKey (holding 67000000) "alice" []
  = (Fulfilled None, [rpc (getBalance "alice")]).
Proof. vm_compute. repeat split. Qed.

End ScanFacts.

(** * Properties of SolanaCollector *)

Module SweepFacts.
Import SolanaCollector.
Local Open Scope run_scope.

(** ** The deadline awaiter *)

Section AwaiterFacts.
Context {A : Type}.
Variable timeoutSeconds : Z.

(** Once the promise is settled and the timer is no longer armed,
    nothing that happens changes the awaiter. *)
Lemma react_settled (st : awaiter A) (h : happening A) :
  promise st <> None -> timeout st <> armed ->
  react timeoutSeconds st h = st.
Proof.
  destruct st as [[r|] [| |]]; cbn; try congruence; intros _ _;
    destruct h as [|[v|e]]; reflexivity.
Qed.

Lemma fold_react_settled (hs : list (happening A)) (st : awaiter A) :
  promise st <> None -> timeout st <> armed ->
  fold_left (react timeoutSeconds) hs st = st.
Proof.
  intros Hp Ht. induction hs as [|h hs IH]; cbn; [reflexivity|].
  rewrite react_settled by assumption. exact IH.
Qed.
End AwaiterFacts.

(** ** Running the sweep *)

Lemma calls_snoc (c : rpc_call) (l : list event) (e : event) (n : Z) :
  calls c (State (l ++ [e]) n) =
  (calls c (State l n) + if same_method c e then 1 else 0)%nat.
Proof.
  unfold calls. cbn [done]. rewrite List.filter_app, length_app. cbn.
  destruct (same_method c e); reflexivity.
Qed.

Lemma calls_done (c : rpc_call) (s : state) (n : Z) :
  calls c (State (done s) n) = calls c s.
Proof. reflexivity. Qed.

Lemma run_emit_then {A} (e : event) (m : Run A) (s : state) :
  (emit e ;; m) s = m (State (done s ++ [e]) (actionCount s)).
Proof. reflexivity. Qed.

Lemma remote_then {A B} (c : rpc_call) (answers : nat -> result A)
      (k : A -> Run B) (s : state) :
  (let* a := remote c answers in k a) s =
  match answers (calls c s) with
  | Fulfilled a => k a (State (done s ++ [rpc c]) (actionCount s))
  | Rejected e => (thrown e, State (done s ++ [rpc c]) (actionCount s))
  end.
Proof.
  unfold bind, remote, call. destruct (answers (calls c s)); reflexivity.
Qed.

Ltac run_simpl :=
  rewrite ?run_emit_then; unfold emit, ret, throw;
  cbn [done actionCount fst snd]; rewrite <- ?app_assoc; cbn [app].

Section SweepRun.
Variable config : settings.
Variable bs58_decode : string -> result (list Z).
Variable Keypair_fromSecretKey : list Z -> result Keypair.
Variable SystemProgram_transfer : TransferIntent -> result unit.
Variable connection : node.

(** A round whose key line parses goes on with the second [try]. *)
Lemma iteration_parsed (recipientKeypair senderKeypair : Keypair) (i : nat)
      (line : string) (secretKey : list Z) (s : state) :
  parsePrivateKey bs58_decode line = Fulfilled secretKey ->
  Keypair_fromSecretKey secretKey = Fulfilled senderKeypair ->
  iteration config bs58_decode Keypair_fromSecretKey SystemProgram_transfer connection
            recipientKeypair i line s =
  try_catch (transfer_try config SystemProgram_transfer connection i
                          senderKeypair recipientKeypair)
            (transfer_catch connection i)
            (State (done s ++ [console_log (Processing_Wallet i
                                  (maskAddress (publicKey senderKeypair)))])
                   (actionCount s)).
Proof.
  intros Hparse Hkey. unfold iteration, sender_of.
  unfold bind at 1, try_catch at 1, bind at 1, call at 1. rewrite Hparse.
  unfold bind at 1, call at 1. rewrite Hkey. reflexivity.
Qed.

(** The handler of the second [try] for an error that is not a
    [SendTransactionError] carrying a transaction. *)
Lemma transfer_catch_plain (i : nat) (err : error) (s : state) :
  is_SendTransactionError err = false \/ transaction err = None ->
  transfer_catch connection i err s =
  (normal tt,
   State (done s ++ [errorLogger_error (Transfer_error i (message err) []);
                     console_error (Transfer_error_check_log i)])
         (actionCount s)).
Proof.
  intros Hplain. unfold transfer_catch.
  assert (Hlogs : match is_SendTransactionError err, transaction err with
                  | true, Some tx =>
                      try_catch (remote (getTransaction tx)
                                        (answers_getTransaction connection))
                                (fun _ => ret [])
                  | _, _ => ret []
                  end = ret []).
  { destruct Hplain as [-> | ->]; [reflexivity|].
    destruct (is_SendTransactionError err); reflexivity. }
  rewrite Hlogs. cbn. run_simpl. reflexivity.
Qed.
End SweepRun.

(** ** The amount of every transfer *)

Lemma fee_in_force_eq (config : settings) :
  fee_in_force config = TRANSACTION_FEE_SOL config.
Proof.
  unfold fee_in_force, TRANSACTION_FEE_SOL.
  destruct (transaction_fee_sol config) as [[| | |]|]; reflexivity.
Qed.

Section Keeps.
Variable config : settings.

Lemma keeps_ret {A} (a : A) : keeps config (ret a).
Proof. intros s Hs. exact Hs. Qed.

Lemma keeps_call {A} (r : result A) : keeps config (call r).
Proof. intros s Hs. unfold call. destruct r; exact Hs. Qed.

Lemma keeps_await {A} (p : option (result A)) : keeps config (await p).
Proof. intros s Hs. unfold await. destruct p as [[]|]; exact Hs. Qed.

Lemma keeps_emit (e : event) : sound_event config e -> keeps config (emit e).
Proof.
  intros He s Hs. unfold sound, emit. cbn.
  apply Forall_app. split; [exact Hs|]. repeat constructor. exact He.
Qed.

Lemma keeps_exit {A} (code : Z) : keeps config (process_exit_ (A:=A) code).
Proof.
  intros s Hs. unfold sound, process_exit_. cbn.
  apply Forall_app. split; [exact Hs|]. repeat constructor.
Qed.

Lemma keeps_bind {A B} (m : Run A) (k : A -> Run B) :
  keeps config m -> (forall a, keeps config (k a)) -> keeps config (bind m k).
Proof.
  intros Hm Hk s Hs. unfold bind. specialize (Hm s Hs).
  destruct (m s) as [[a|e|code|] s']; cbn in *; try exact Hm.
  apply Hk, Hm.
Qed.

Lemma keeps_try_catch {A} (m : Run A) (h : error -> Run A) :
  keeps config m -> (forall e, keeps config (h e)) ->
  keeps config (try_catch m h).
Proof.
  intros Hm Hh s Hs. unfold try_catch. specialize (Hm s Hs).
  destruct (m s) as [[a|e|code|] s']; cbn in *; try exact Hm.
  apply Hh, Hm.
Qed.

Lemma keeps_remote {A} (c : rpc_call) (answers : nat -> result A) :
  sound_event config (rpc c) -> keeps config (remote c answers).
Proof.
  intros Hc s Hs. unfold remote, call.
  assert (Hs' : sound config (State (done s ++ [rpc c]) (actionCount s))).
  { unfold sound. cbn. apply Forall_app. split; [exact Hs|].
    repeat constructor. exact Hc. }
  destruct (answers (calls c s)); exact Hs'.
Qed.

Lemma keeps_with_state {A} (f : state -> Run A) :
  (forall s0, keeps config (f s0)) -> keeps config (fun s => f s s).
Proof. intros Hf s Hs. apply Hf, Hs. Qed.

Variable bs58_decode : string -> result (list Z).
Variable Keypair_fromSecretKey : list Z -> result Keypair.
Variable SystemProgram_transfer : TransferIntent -> result unit.
Variable connection : node.

Lemma keeps_confirm (signature : string) (timeoutSeconds : Z) :
  keeps config (confirmTransactionWithTimeout connection signature timeoutSeconds).
Proof.
  unfold confirmTransactionWithTimeout.
  apply (keeps_with_state (fun s0 => _)). intros s0.
  repeat (apply keeps_bind; [|intros ?]);
    try apply keeps_emit; try apply keeps_await; exact I.
Qed.

Lemma keeps_transfer_try (i : nat) (senderKeypair recipientKeypair : Keypair) :
  keeps config (transfer_try config SystemProgram_transfer connection i
                             senderKeypair recipientKeypair).
Proof.
  unfold transfer_try.
  apply keeps_bind; [apply keeps_remote; exact I|intros B].
  apply keeps_bind; [apply keeps_remote; exact I|intros R].
  apply keeps_bind; [apply keeps_emit; exists B; reflexivity|intros _].
  destruct (_ <=? _)%number eqn:Hle; [apply keeps_emit; exact I|].
  assert (Hsound : sound_amount config
            (Number B - Number R
             - TRANSACTION_FEE_SOL config * LAMPORTS_PER_SOL)%number).
  { split; [exact Hle|]. exists B, R. now rewrite fee_in_force_eq. }
  apply keeps_bind; [apply keeps_emit; exact Hsound|intros _].
  apply keeps_bind; [apply keeps_call|intros _].
  apply keeps_bind; [apply keeps_remote; exact Hsound|intros signature].
  apply keeps_bind; [apply keeps_confirm|intros _].
  apply keeps_bind;
    [apply keeps_emit; eexists; split; [exact Hsound|reflexivity]|intros _].
  apply keeps_bind; [intros s Hs; exact Hs|intros _].
  apply (keeps_with_state (fun s0 => _)). intros s0.
  apply keeps_emit. exact I.
Qed.

Lemma keeps_transfer_catch (i : nat) (err : error) :
  keeps config (transfer_catch connection i err).
Proof.
  unfold transfer_catch. apply keeps_bind.
  - destruct (is_SendTransactionError err), (transaction err);
      try apply keeps_ret.
    apply keeps_try_catch; [apply keeps_remote; exact I|].
    intros _. apply keeps_ret.
  - intros logs. apply keeps_bind; [|intros _]; apply keeps_emit; exact I.
Qed.

Lemma keeps_iteration (recipientKeypair : Keypair) (i : nat) (line : string) :
  keeps config (iteration config bs58_decode Keypair_fromSecretKey
                          SystemProgram_transfer connection
                          recipientKeypair i line).
Proof.
  unfold iteration, sender_of. apply keeps_bind.
  - apply keeps_try_catch.
    + apply keeps_bind; [apply keeps_call|intros secretKey].
      apply keeps_bind; [apply keeps_call|intros senderKeypair].
      apply keeps_bind; [apply keeps_emit; exact I|intros _].
      apply keeps_ret.
    + intros err.
      repeat (apply keeps_bind; [apply keeps_emit; exact I|intros _]).
      apply keeps_ret.
  - intros [senderKeypair|]; [|apply keeps_ret].
    apply keeps_try_catch; [apply keeps_transfer_try|].
    intros err. apply keeps_transfer_catch.
Qed.

Lemma keeps_sweep (recipientKeypair : Keypair) (lines : list string) :
  forall i, keeps config (sweep config bs58_decode Keypair_fromSecretKey
                                SystemProgram_transfer connection recipientKeypair i lines).
Proof.
  induction lines as [|line lines IH]; intros i; cbn [sweep].
  - apply keeps_ret.
  - apply keeps_bind; [apply keeps_iteration|intros _; apply IH].
Qed.

Lemma keeps_main (new_Connection : result unit)
      (fs_readFileSync : result string) :
  keeps config (main config bs58_decode Keypair_fromSecretKey
                     SystemProgram_transfer connection
                     new_Connection fs_readFileSync).
Proof.
  unfold main. apply keeps_try_catch.
  - apply keeps_bind; [apply keeps_call|intros _].
    apply keeps_bind; [apply keeps_call|intros data].
    cbv zeta. destruct (_ <? _).
    + apply keeps_bind; [apply keeps_emit; exact I|intros _; apply keeps_exit].
    + apply keeps_bind.
      * apply keeps_try_catch.
        -- apply keeps_bind; [apply keeps_call|intros secretKey].
           apply keeps_bind; [apply keeps_call|intros recipientKeypair].
           apply keeps_bind; [apply keeps_emit; exact I|intros _].
           apply keeps_ret.
        -- intros err.
           repeat (apply keeps_bind; [apply keeps_emit; exact I|intros _]).
           apply keeps_exit.
      * intros recipientKeypair.
        apply keeps_bind; [apply keeps_sweep|intros _].
        apply (keeps_with_state (fun s0 => _)). intros s0.
        apply keeps_emit. exact I.
  - intros err. apply keeps_bind; [|intros _]; apply keeps_emit; exact I.
Qed.
End Keeps.

(** ** Key lines *)

Lemma length_split (s : string) (sep : ascii) : (0 < length (split s sep))%nat.
Proof.
  induction s as [|c s IH]; cbn; [lia|].
  destruct (Ascii.eqb c sep); cbn; [lia|].
  destruct (split s sep); cbn; lia.
Qed.

Lemma ToUint8_range (n : number) : 0 <= ToUint8 n < 256.
Proof. unfold ToUint8. apply Z.mod_pos_bound. lia. Qed.

(** * The claims about SolanaCollector *)

(** C8.  Whatever happens later, the first thing to happen decides: if the
    confirmation settles first, the awaiter settles the same way (its
    value, or its failure) and the timer is cleared, so it never fires; if
    the timer fires first, or nothing else ever happens, the awaiter is
    rejected with the error whose message carries [timeoutSeconds].  The
    sweep resumes accordingly after having set the timer and asked for the
    confirmation. *)
Theorem confirmTransactionWithTimeout_first_wins (timeoutSeconds : Z) :
  (forall (A : Type) (r : result A) (later : list (happening A)),
     let st := confirmTransactionWithTimeout_state timeoutSeconds
                 (operation_settles r :: later) in
     promise st = Some r /\ timeout st = cleared) /\
  (forall (A : Type) (later : list (happening A)),
     let st := confirmTransactionWithTimeout_state timeoutSeconds
                 (timer_fires :: later) in
     promise st = Some (Rejected (not_confirmed timeoutSeconds)) /\
     timeout st = fired) /\
  (forall A : Type,
     let st := confirmTransactionWithTimeout_state (A:=A) timeoutSeconds [] in
     promise st = Some (Rejected (not_confirmed timeoutSeconds)) /\
     timeout st = fired) /\
  message (not_confirmed timeoutSeconds) =
    ("Transaction was not confirmed in "
       ++ string_of_Z timeoutSeconds ++ " seconds.")%string /\
  (forall (connection : node) (signature : string) (s : state),
     confirmTransactionWithTimeout connection signature timeoutSeconds s =
     (match answers_confirmTransaction connection
              (calls (confirmTransaction signature) s) with
      | operation_settles (Fulfilled _) :: _ => normal tt
      | operation_settles (Rejected err) :: _ => thrown err
      | _ => thrown (not_confirmed timeoutSeconds)
      end,
      State (done s ++ [setTimeout (timeoutSeconds * 1000);
                        rpc (confirmTransaction signature)])
            (actionCount s))).
Proof.
  assert (Hop : forall (A : Type) (r : result A) (later : list (happening A)),
             confirmTransactionWithTimeout_state timeoutSeconds
               (operation_settles r :: later) = Awaiter (Some r) cleared).
  { intros A r later. unfold confirmTransactionWithTimeout_state.
    cbn [app fold_left].
    rewrite fold_react_settled; destruct r; cbn; congruence. }
  assert (Htimer : forall (A : Type) (later : list (happening A)),
             confirmTransactionWithTimeout_state timeoutSeconds
               (timer_fires :: later)
             = Awaiter (Some (Rejected (not_confirmed timeoutSeconds))) fired).
  { intros A later. unfold confirmTransactionWithTimeout_state.
    cbn [app fold_left].
    rewrite fold_react_settled; cbn; congruence. }
  repeat split.
  - now rewrite Hop.
  - now rewrite Hop.
  - now rewrite Htimer.
  - now rewrite Htimer.
  - intros connection signature s.
    unfold confirmTransactionWithTimeout. rewrite !run_emit_then.
    cbn [actionCount done]. rewrite <- app_assoc. cbn [app].
    destruct (answers_confirmTransaction connection _) as [|[|[v|e]] later].
    + reflexivity.
    + rewrite Htimer. reflexivity.
    + rewrite Hop. destruct v. reflexivity.
    + rewrite Hop. reflexivity.
Qed.

(** X24.  A sender whose key parses, whose balance the node reports as
    [B] and for whom it reports the reserve [R], the amount
    [B - R - fee * LAMPORTS_PER_SOL] computed in doubles being [<= 0] for
    the fee in force: the round asks for the balance and the reserve,
    writes the insufficient-balance line to the transaction log and ends
    normally.  No transfer is built, nothing is submitted, nothing goes to
    the error log, [actionCount] is unchanged, and the loop goes on with
    the next line. *)
Theorem sweep_skips_insufficient_balance (config : settings)
    (bs58_decode : string -> result (list Z))
    (Keypair_fromSecretKey : list Z -> result Keypair)
    (SystemProgram_transfer : TransferIntent -> result unit) (connection : node)
    (recipientKeypair senderKeypair : Keypair) (i : nat)
    (line : string) (lines : list string) (secretKey : list Z) (s : state)
    (B R : Z) :
  parsePrivateKey bs58_decode line = Fulfilled secretKey ->
  Keypair_fromSecretKey secretKey = Fulfilled senderKeypair ->
  answers_getBalance connection
    (calls (getBalance (publicKey senderKeypair)) s) = Fulfilled B ->
  answers_getMinimumBalanceForRentExemption connection
    (calls (getMinimumBalanceForRentExemption 0) s) = Fulfilled R ->
  (Number B - Number R - fee_in_force config * LAMPORTS_PER_SOL
   <=? Number 0)%number = true ->
  let masked := maskAddress (publicKey senderKeypair) in
  let s' :=
    State (done s ++
           [console_log (Processing_Wallet i masked);
            rpc (getBalance (publicKey senderKeypair));
            rpc (getMinimumBalanceForRentExemption 0);
            console_log (Wallet_Balance i (Number B / LAMPORTS_PER_SOL)%number);
            transactionLogger_info (Insufficient_balance_for_wallet i masked)])
          (actionCount s) in
  iteration config bs58_decode Keypair_fromSecretKey SystemProgram_transfer connection
            recipientKeypair i line s = (normal tt, s') /\
  sweep config bs58_decode Keypair_fromSecretKey SystemProgram_transfer connection
        recipientKeypair i (line :: lines) s =
  sweep config bs58_decode Keypair_fromSecretKey SystemProgram_transfer connection
        recipientKeypair (S i) lines s'.
Proof.
  intros Hparse Hkey HB HR Hle masked s'.
  assert (Hround : iteration config bs58_decode Keypair_fromSecretKey
                     SystemProgram_transfer connection
                     recipientKeypair i line s = (normal tt, s')).
  { rewrite (iteration_parsed _ _ _ _ _ _ senderKeypair _ _ secretKey)
      by assumption.
    unfold try_catch, transfer_try. rewrite remote_then.
    rewrite calls_snoc, calls_done. cbn [same_method]. rewrite Nat.add_0_r, HB.
    rewrite remote_then. cbn [done actionCount].
    rewrite !calls_snoc, calls_done. cbn [same_method].
    rewrite !Nat.add_0_r, HR. rewrite run_emit_then.
    rewrite fee_in_force_eq in Hle. rewrite Hle.
    run_simpl. reflexivity. }
  split; [exact Hround|].
  cbn [sweep]. unfold bind at 1. rewrite Hround. reflexivity.
Qed.

Lemma bind_run {A B} (m : Run A) (k : A -> Run B) (s : state) :
  bind m k s = match m s with
               | (normal a, s') => k a s'
               | (thrown e, s') => (thrown e, s')
               | (exited code, s') => (exited code, s')
               | (suspended, s') => (suspended, s')
               end.
Proof. reflexivity. Qed.

(** The [catch] of a round always ends normally: it asks for the logs of
    the transaction at most once and writes its two lines. *)
Lemma transfer_catch_run (connection : node) (i : nat) (err : error)
      (s : state) :
  exists requests logs,
    transfer_catch connection i err s =
    (normal tt,
     State (done s ++ requests ++
            [errorLogger_error (Transfer_error i (message err) logs);
             console_error (Transfer_error_check_log i)])
           (actionCount s)) /\
    (requests = [] /\ logs = [] \/
     exists tx, requests = [rpc (getTransaction tx)] /\
                is_SendTransactionError err = true /\
                transaction err = Some tx /\
                logs = match answers_getTransaction connection
                               (calls (getTransaction tx) s) with
                       | Fulfilled l => l
                       | Rejected _ => []
                       end).
Proof.
  destruct (is_SendTransactionError err) eqn:Hkind;
    [destruct (transaction err) as [tx|] eqn:Htx|].
  - exists [rpc (getTransaction tx)].
    exists (match answers_getTransaction connection (calls (getTransaction tx) s) with
            | Fulfilled l => l
            | Rejected _ => []
            end).
    split; [|right; exists tx; repeat split; assumption].
    unfold transfer_catch. rewrite Hkind, Htx.
    rewrite bind_run. unfold try_catch, remote, call.
    destruct (answers_getTransaction connection _) as [l|e];
      cbn; unfold emit; cbn; rewrite <- ?app_assoc; reflexivity.
  - exists [], []. split; [|left; split; reflexivity].
    apply transfer_catch_plain. right. exact Htx.
  - exists [], []. split; [|left; split; reflexivity].
    apply transfer_catch_plain. left. exact Hkind.
Qed.

(** C1, as the code has it.  The sweep calls [connection.getBalance],
    [connection.getMinimumBalanceForRentExemption] and
    [connection.sendTransaction] (on a transaction the library built)
    directly, not through [withRetry]: when such a call fails, whatever
    the error (a rate-limit error included), the round has made that one
    call and goes on with its error handler, which writes the error to
    the error log; the sweeper neither waits nor calls the method
    again. *)
Theorem sweep_failure_surfaces_at_once (config : settings)
    (bs58_decode : string -> result (list Z))
    (Keypair_fromSecretKey : list Z -> result Keypair)
    (SystemProgram_transfer : TransferIntent -> result unit) (connection : node)
    (recipientKeypair senderKeypair : Keypair) (i : nat)
    (line : string) (secretKey : list Z) (s : state) :
  parsePrivateKey bs58_decode line = Fulfilled secretKey ->
  Keypair_fromSecretKey secretKey = Fulfilled senderKeypair ->
  let round := iteration config bs58_decode Keypair_fromSecretKey
                         SystemProgram_transfer connection
                         recipientKeypair i line s in
  let sender := publicKey senderKeypair in
  let processing := console_log (Processing_Wallet i (maskAddress sender)) in
  let handled err (events : list event) :=
    transfer_catch connection i err
      (State (done s ++ processing :: events) (actionCount s)) in
  (forall err,
     answers_getBalance connection (calls (getBalance sender) s) = Rejected err ->
     round = handled err [rpc (getBalance sender)]) /\
  (forall B err,
     answers_getBalance connection (calls (getBalance sender) s) = Fulfilled B ->
     answers_getMinimumBalanceForRentExemption connection
       (calls (getMinimumBalanceForRentExemption 0) s) = Rejected err ->
     round = handled err [rpc (getBalance sender);
                          rpc (getMinimumBalanceForRentExemption 0)]) /\
  (forall B R err,
     answers_getBalance connection (calls (getBalance sender) s) = Fulfilled B ->
     answers_getMinimumBalanceForRentExemption connection
       (calls (getMinimumBalanceForRentExemption 0) s) = Fulfilled R ->
     let amountToSend :=
       (Number B - Number R - fee_in_force config * LAMPORTS_PER_SOL)%number in
     let transaction := Transfer sender (publicKey recipientKeypair) amountToSend in
     (amountToSend <=? Number 0)%number = false ->
     SystemProgram_transfer transaction = Fulfilled tt ->
     answers_sendTransaction connection
       (calls (sendTransaction transaction sender) s) = Rejected err ->
     round = handled err [rpc (getBalance sender);
                          rpc (getMinimumBalanceForRentExemption 0);
                          console_log (Wallet_Balance i
                                         (Number B / LAMPORTS_PER_SOL)%number);
                          new_Transaction transaction;
                          rpc (sendTransaction transaction sender)]) /\
  (forall err s0,
     exists fetched logs,
       transfer_catch connection i err s0 =
       (normal tt,
        State (done s0 ++ fetched ++
               [errorLogger_error (Transfer_error i (message err) logs);
                console_error (Transfer_error_check_log i)])
              (actionCount s0)) /\
       (fetched = [] \/ exists tx, fetched = [rpc (getTransaction tx)])).
Proof.
  intros Hparse Hkey round sender processing handled. subst round handled.
  rewrite (iteration_parsed _ _ _ _ _ _ senderKeypair _ _ secretKey)
      by assumption.
  fold sender processing.
  split; [|split; [|split]].
  4:{ intros err s0.
      destruct (transfer_catch_run connection i err s0)
        as (fetched & logs & Hrun & Hfetched).
      exists fetched, logs. split; [exact Hrun|].
      destruct Hfetched as [[-> _]|(tx & -> & _)]; [now left|right; now exists tx]. }
  - intros err HB.
    unfold try_catch, transfer_try. rewrite remote_then.
    rewrite calls_snoc, calls_done. cbn [same_method]. fold sender.
    rewrite Nat.add_0_r, HB.
    cbn [done actionCount]. rewrite <- app_assoc. reflexivity.
  - intros B err HB HR.
    unfold try_catch, transfer_try. rewrite remote_then.
    rewrite calls_snoc, calls_done. cbn [same_method]. fold sender.
    rewrite Nat.add_0_r, HB.
    rewrite remote_then. cbn [done actionCount].
    rewrite !calls_snoc, calls_done. cbn [same_method].
    rewrite !Nat.add_0_r, HR.
    cbn [done actionCount]. rewrite <- !app_assoc. reflexivity.
  - intros B R err HB HR amountToSend transaction Hpos Hbuilt Hsend.
    subst transaction amountToSend. rewrite fee_in_force_eq in *.
    unfold try_catch, transfer_try. rewrite remote_then.
    rewrite calls_snoc, calls_done. cbn [same_method]. fold sender.
    rewrite Nat.add_0_r, HB.
    rewrite remote_then. cbn [done actionCount].
    rewrite !calls_snoc, calls_done. cbn [same_method].
    rewrite !Nat.add_0_r, HR. rewrite run_emit_then.
    rewrite Hpos. rewrite run_emit_then.
    unfold bind at 1, call at 1. rewrite Hbuilt. rewrite remote_then.
    cbn [done actionCount]. rewrite !calls_snoc, calls_done. cbn [same_method].
    rewrite !Nat.add_0_r, Hsend.
    cbn [done actionCount]. rewrite <- !app_assoc. reflexivity.
Qed.

(** X25.  In every run of the sweep, the amount of each transfer that is
    built, and of each transfer that is submitted, is the double
    [B - R - fee * LAMPORTS_PER_SOL] for an integer balance [B], an
    integer reserve [R] and the fee in force, and was not found to be
    [<= 0].  The amounts divided by [LAMPORTS_PER_SOL] are those shown in
    the balance line and in the line of a completed transfer. *)
Theorem transfer_amount_positive (config : settings)
    (bs58_decode : string -> result (list Z))
    (Keypair_fromSecretKey : list Z -> result Keypair)
    (SystemProgram_transfer : TransferIntent -> result unit) (connection : node)
    (new_Connection : result unit) (fs_readFileSync : result string) :
  let final := snd (main config bs58_decode Keypair_fromSecretKey
                         SystemProgram_transfer connection
                         new_Connection fs_readFileSync start) in
  let fee := (fee_in_force config * LAMPORTS_PER_SOL)%number in
  (forall transfer,
     In (new_Transaction transfer) (done final) \/
     (exists signer, In (rpc (sendTransaction transfer signer)) (done final)) ->
     (lamports transfer <=? Number 0)%number = false /\
     exists B R : Z, lamports transfer = (Number B - Number R - fee)%number) /\
  (forall i sol,
     In (console_log (Wallet_Balance i sol)) (done final) ->
     exists B : Z, sol = (Number B / LAMPORTS_PER_SOL)%number) /\
  (forall sol masked_from masked_to signature,
     In (transactionLogger_info (Sent sol masked_from masked_to signature))
        (done final) ->
     exists amount, (amount <=? Number 0)%number = false /\
                    sol = (amount / LAMPORTS_PER_SOL)%number).
Proof.
  intros final fee.
  assert (Hsound : forall e, In e (done final) -> sound_event config e).
  { intros e He. apply list_elem_of_In in He. revert e He.
    apply Forall_forall. apply keeps_main. constructor. }
  split; [|split].
  - intros transfer Hin.
    assert (Hamount : sound_amount config (lamports transfer)).
    { destruct Hin as [Hin|[signer Hin]]; apply Hsound in Hin; exact Hin. }
    exact Hamount.
  - intros i sol Hin. apply Hsound in Hin. exact Hin.
  - intros sol masked_from masked_to signature Hin. apply Hsound in Hin.
    destruct Hin as (amount & [Hpos _] & Hsol). exists amount. split; assumption.
Qed.

(** C9, as the code has it.  For a line that is not a bracketed literal,
    [parsePrivateKey] returns what [bs58.decode] returns for the trimmed
    line, and fails with "Invalid Base58 format" when [bs58.decode]
    rejects it, as it does when a character is outside its alphabet; it
    fails in no other case and with no other error.  A bracketed literal
    never fails: it yields one byte per comma-separated entry, whatever
    their number, an entry that is not a number counting as 0.  In the
    loop a line whose bytes [Keypair.fromSecretKey] rejects is logged as
    an invalid private key and skipped, like a line [parsePrivateKey]
    rejects. *)
Theorem parsePrivateKey_rejects_base58_only
    (bs58_decode : string -> result (list Z)) (in_alphabet : ascii -> bool)
    (Hdecode : forall s c, In c (list_ascii_of_string s) ->
                 in_alphabet c = false ->
                 exists e, bs58_decode s = Rejected e) :
  (forall line c,
     startsWith (trim line) "[" && endsWith (trim line) "]" = false ->
     In c (list_ascii_of_string (trim line)) -> in_alphabet c = false ->
     parsePrivateKey bs58_decode line
     = Rejected (new_Error "Invalid Base58 format")) /\
  (forall line bytes,
     startsWith (trim line) "[" && endsWith (trim line) "]" = false ->
     bs58_decode (trim line) = Fulfilled bytes ->
     parsePrivateKey bs58_decode line = Fulfilled bytes) /\
  (forall line err,
     parsePrivateKey bs58_decode line = Rejected err ->
     err = new_Error "Invalid Base58 format" /\
     startsWith (trim line) "[" && endsWith (trim line) "]" = false /\
     exists e, bs58_decode (trim line) = Rejected e) /\
  (forall line,
     startsWith (trim line) "[" && endsWith (trim line) "]" = true ->
     exists bytes,
       parsePrivateKey bs58_decode line = Fulfilled bytes /\
       length bytes = length (split (slice (trim line) 1 (-1)) ",") /\
       (0 < length bytes)%nat /\
       Forall (fun b => 0 <= b < 256) bytes /\
       forall k entry, split (slice (trim line) 1 (-1)) "," !! k = Some entry ->
         bytes !! k = Some (ToUint8 (parseInt (trim entry))) /\
         (parseInt (trim entry) = NaN -> bytes !! k = Some 0)) /\
  (forall (Keypair_fromSecretKey : list Z -> result Keypair)
          (i : nat) (line : string) (s : state),
     (exists e, parsePrivateKey bs58_decode line = Rejected e) \/
     (exists bytes e, parsePrivateKey bs58_decode line = Fulfilled bytes /\
                      Keypair_fromSecretKey bytes = Rejected e) ->
     sender_of bs58_decode Keypair_fromSecretKey i line s =
     (normal None,
      State (done s ++ [errorLogger_error (Invalid_private_key_format i);
                        console_error (Invalid_private_key_format_check_log i)])
            (actionCount s))).
Proof.
  split; [|split; [|split; [|split]]].
  - intros line c Hnot Hc Hout. unfold parsePrivateKey. rewrite Hnot.
    destruct (Hdecode _ _ Hc Hout) as [e ->]. reflexivity.
  - intros line bytes Hnot Hok. unfold parsePrivateKey.
    rewrite Hnot, Hok. reflexivity.
  - intros line err. unfold parsePrivateKey.
    destruct (startsWith (trim line) "[" && endsWith (trim line) "]");
      [discriminate|].
    destruct (bs58_decode (trim line)) as [bytes|e]; [discriminate|].
    intros [= <-]. split; [reflexivity|]. split; [reflexivity|]. now exists e.
  - intros line Hlit. unfold parsePrivateKey. rewrite Hlit.
    eexists. split; [reflexivity|]. rewrite !length_map.
    split; [reflexivity|]. split; [apply length_split|]. split.
    + apply Forall_forall. intros b Hb.
      apply list_elem_of_fmap in Hb. destruct Hb as (n & -> & _).
      apply ToUint8_range.
    + intros k entry Hk.
      rewrite !list_lookup_fmap, Hk. cbn [fmap option_fmap option_map].
      split; [reflexivity|]. intros ->. reflexivity.
  - intros KP i line s Hbad. unfold sender_of, try_catch, bind, call.
    destruct Hbad as [[e ->]|(bytes & e & -> & ->)];
      cbn; rewrite <- app_assoc; reflexivity.
Qed.

(** ** The claims on the example sweeps *)

Import Examples.

Lemma base58_value_outside (s : string) (c : ascii) :
  In c (list_ascii_of_string s) -> base58_digit c = None ->
  forall acc, base58_value s acc = None.
Proof.
  induction s as [|c' s IH]; cbn [list_ascii_of_string In base58_value];
    [tauto|].
  intros [->|Hin] Hout acc.
  - now rewrite Hout.
  - destruct (base58_digit c'); [apply IH; assumption|reflexivity].
Qed.

Lemma bs58_decode_outside (s : string) (c : ascii) :
  In c (list_ascii_of_string s) -> in_base58_alphabet c = false ->
  exists e, bs58_decode s = Rejected e.
Proof.
  intros Hin Hout. unfold bs58_decode, in_base58_alphabet in *.
  rewrite (base58_value_outside s c Hin); [eauto|].
  destruct (base58_digit c); [discriminate|reflexivity].
Qed.

(** C1, refuted as stated.  The first call of [getBalance] fails with a
    rate-limit error and a second call would succeed.  The sweep calls
    it once, does not wait, writes the rate-limit error to the error log
    and ends without having moved anything. *)
Lemma sweep_rate_limit_not_retried :
  answers_getBalance rate_limiting_node 0 = Rejected too_many_requests /\
  includes (message too_many_requests) "429" = true /\
  answers_getBalance rate_limiting_node 1 = Fulfilled 5000000 /\
  main default_settings bs58_decode Keypair_fromSecretKey accept_transfer
       rate_limiting_node (Fulfilled tt) (Fulfilled (key_file [1; 2])) start =
  (normal tt,
   State [console_log (Recipient_Wallet "Key1P...cKey1");
          console_log (Processing_Wallet 1 "Key2P...cKey2");
          rpc (getBalance "Key2PublicKey2");
          errorLogger_error (Transfer_error 1 "429 Too Many Requests" []);
          console_error (Transfer_error_check_log 1);
          console_log (Finished 0)]
         0).
Proof. repeat split; vm_compute; reflexivity. Qed.

(** The same round through the theorem: the failed call of [getBalance]
    is followed by the handler. *)
Lemma sweep_failure_surfaces_at_once_witness :
  iteration default_settings bs58_decode Keypair_fromSecretKey
            accept_transfer rate_limiting_node
            (MkKeypair "Key1PublicKey1" (1 :: repeat 0 63)) 1 (key_line 2) start =
  (normal tt,
   State [console_log (Processing_Wallet 1 "Key2P...cKey2");
          rpc (getBalance "Key2PublicKey2");
          errorLogger_error (Transfer_error 1 "429 Too Many Requests" []);
          console_error (Transfer_error_check_log 1)]
         0).
Proof.
  destruct (sweep_failure_surfaces_at_once default_settings bs58_decode
              Keypair_fromSecretKey accept_transfer rate_limiting_node
              (MkKeypair "Key1PublicKey1" (1 :: repeat 0 63))
              (MkKeypair "Key2PublicKey2" (2 :: repeat 0 63))
              1 (key_line 2) (2 :: repeat 0 63) start eq_refl eq_refl)
    as (Hbalance & _ & _ & _).
  rewrite (Hbalance too_many_requests eq_refl).
  reflexivity.
Defined.

(** A sender with 1000 lamports: skipped with the informational line,
    and the loop goes on. *)
Lemma sweep_skips_insufficient_balance_witness :
  iteration default_settings bs58_decode Keypair_fromSecretKey
            accept_transfer poor_node
            (MkKeypair "Key1PublicKey1" (1 :: repeat 0 63)) 1 (key_line 2) start =
  (normal tt,
   State [console_log (Processing_Wallet 1 "Key2P...cKey2");
          rpc (getBalance "Key2PublicKey2");
          rpc (getMinimumBalanceForRentExemption 0);
          console_log (Wallet_Balance 1 (Number 1000 / LAMPORTS_PER_SOL)%number);
          transactionLogger_info
            (Insufficient_balance_for_wallet 1 "Key2P...cKey2")]
         0).
Proof.
  refine (proj1 (sweep_skips_insufficient_balance default_settings bs58_decode
                   Keypair_fromSecretKey accept_transfer poor_node
                   (MkKeypair "Key1PublicKey1" (1 :: repeat 0 63))
                   (MkKeypair "Key2PublicKey2" (2 :: repeat 0 63))
                   1 (key_line 2) [] (2 :: repeat 0 63) start 1000 890880
                   eq_refl eq_refl eq_refl eq_refl _)).
  vm_compute. reflexivity.
Defined.

(** C5, at a failing input.  [transaction_fee_sol = 0.00013], a balance
    of 1020880 lamports and a reserve of 890880: the balance less the
    reserve less the fee is 0.  The fee in lamports comes out as
    129999.99999999999, one step below 130000, and the amount as
    1.4551915228366852e-11, which is not [<= 0]: the sender is not
    skipped, [SystemProgram.transfer] is called with that amount, and
    the transaction is submitted when the library takes the amount; when
    it throws, the round ends in the error log. *)
Theorem sweep_transfers_rounding_residue :
  let config := settings_0_00013 in
  let amount :=
    (Number 1020880 - Number 890880
     - decimal 13 100000 * Number 1000000000)%number in
  let transfer := Transfer "Key2PublicKey2" "Key1PublicKey1" amount in
  let program SystemProgram_transfer :=
    main config bs58_decode Keypair_fromSecretKey SystemProgram_transfer
         (sender_holding 1020880) (Fulfilled tt) (Fulfilled (key_file [1; 2]))
         start in
  transaction_fee_sol config = Some (decimal 13 100000) /\
  (decimal 13 100000 * Number 1000000000)%number
  = S754_finite false 8933531975679999 (-36) /\
  Number 130000 = S754_finite false 8933531975680000 (-36) /\
  amount = S754_finite false 4503599627370496 (-88) /\
  (amount <=? Number 0)%number = false /\
  program accept_transfer =
  (normal tt,
   State [console_log (Recipient_Wallet "Key1P...cKey1");
          console_log (Processing_Wallet 1 "Key2P...cKey2");
          rpc (getBalance "Key2PublicKey2");
          rpc (getMinimumBalanceForRentExemption 0);
          console_log (Wallet_Balance 1 (Number 1020880 / LAMPORTS_PER_SOL)%number);
          new_Transaction transfer;
          rpc (sendTransaction transfer "Key2PublicKey2");
          setTimeout 60000;
          rpc (confirmTransaction "signature1");
          transactionLogger_info
            (Sent (amount / LAMPORTS_PER_SOL)%number
                  "Key2P...cKey2" "Key1P...cKey1" "signature1");
          console_log (Actions_completed 1);
          console_log (Finished 1)]
         1) /\
  program integer_transfer =
  (normal tt,
   State [console_log (Recipient_Wallet "Key1P...cKey1");
          console_log (Processing_Wallet 1 "Key2P...cKey2");
          rpc (getBalance "Key2PublicKey2");
          rpc (getMinimumBalanceForRentExemption 0);
          console_log (Wallet_Balance 1 (Number 1020880 / LAMPORTS_PER_SOL)%number);
          new_Transaction transfer;
          errorLogger_error
            (Transfer_error 1 "The number cannot be converted to a BigInt" []);
          console_error (Transfer_error_check_log 1);
          console_log (Finished 0)]
         0).
Proof. vm_compute. repeat split. Qed.

(** C9, refuted as stated.  A bracketed literal of three bytes, and one
    with an entry that is not a number, are returned as byte arrays. *)
Lemma parsePrivateKey_accepts_malformed_array :
  parsePrivateKey bs58_decode "[1,2,3]" = Fulfilled [1; 2; 3] /\
  parsePrivateKey bs58_decode "[1,x,3]" = Fulfilled [1; 0; 3].
Proof. split; vm_compute; reflexivity. Qed.

(** A line with a "0", which is not a base-58 digit, is rejected; a line
    of base-58 digits is decoded; three entries give three bytes, also
    after a byte-order mark; and a three-byte key is skipped in the loop
    because [Keypair.fromSecretKey] rejects it. *)
Lemma parsePrivateKey_rejects_base58_only_witness :
  parsePrivateKey bs58_decode "3yZe7d0" = Rejected (new_Error "Invalid Base58 format") /\
  parsePrivateKey bs58_decode "3yZe7d" = bs58_decode "3yZe7d" /\
  (exists bytes, parsePrivateKey bs58_decode "[1,x,3]" = Fulfilled bytes /\
                 length bytes = 3%nat /\ bytes !! 1%nat = Some 0) /\
  (exists bytes,
     parsePrivateKey bs58_decode (byte_order_mark ++ "[1,2,3]")%string = Fulfilled bytes /\
     length bytes = 3%nat) /\
  sender_of bs58_decode Keypair_fromSecretKey 4 "[1,2,3]" start =
  (normal None,
   State [errorLogger_error (Invalid_private_key_format 4);
          console_error (Invalid_private_key_format_check_log 4)] 0).
Proof.
  destruct (parsePrivateKey_rejects_base58_only bs58_decode in_base58_alphabet
              bs58_decode_outside) as (Hbase58 & Hdecoded & _ & Harray & Hloop).
  split; [|split; [|split; [|split]]].
  - apply (Hbase58 "3yZe7d0" "0"%char); [reflexivity| |reflexivity].
    cbn. do 6 right. left. reflexivity.
  - apply (Hdecoded "3yZe7d"); reflexivity.
  - destruct (Harray "[1,x,3]" eq_refl) as (bytes & Hbytes & Hlen & _ & _ & Hnan).
    exists bytes. split; [exact Hbytes|]. split; [exact Hlen|].
    apply (Hnan 1%nat "x"); reflexivity.
  - destruct (Harray (byte_order_mark ++ "[1,2,3]")%string eq_refl)
      as (bytes & Hbytes & Hlen & _).
    exists bytes. split; [exact Hbytes|exact Hlen].
  - apply Hloop. right. exists [1; 2; 3], (new_Error "bad secret key size").
    split; reflexivity.
Defined.

(** C10, at a failing input.  [transaction_fee_sol = 0.0041], a balance
    of 6000000 lamports and a reserve of 890880.  The fee in lamports
    comes out as 4100000.0000000005, not 4100000, and the amount as
    1009119.9999999995, not 1009120: [SystemProgram.transfer] is called
    with an amount that is not a whole number of lamports.  When the
    library takes the amount the transaction is submitted with it; when
    it throws, nothing is sent and the round ends in the error log. *)
Theorem transfer_amount_not_whole :
  let config := settings_0_0041 in
  let amount :=
    (Number 6000000 - Number 890880
     - decimal 41 10000 * Number 1000000000)%number in
  let transfer := Transfer "Key2PublicKey2" "Key1PublicKey1" amount in
  let program SystemProgram_transfer :=
    main config bs58_decode Keypair_fromSecretKey SystemProgram_transfer
         (sender_holding 6000000) (Fulfilled tt) (Fulfilled (key_file [1; 2]))
         start in
  transaction_fee_sol config = Some (decimal 41 10000) /\
  (decimal 41 10000 * Number 1000000000)%number
  = S754_finite false 8804682956800001 (-31) /\
  Number 4100000 = S754_finite false 8804682956800000 (-31) /\
  is_integer (decimal 41 10000 * Number 1000000000)%number = false /\
  amount = S754_finite false 8668274795479036 (-33) /\
  Number 1009120 = S754_finite false 8668274795479040 (-33) /\
  is_integer amount = false /\
  program accept_transfer =
  (normal tt,
   State [console_log (Recipient_Wallet "Key1P...cKey1");
          console_log (Processing_Wallet 1 "Key2P...cKey2");
          rpc (getBalance "Key2PublicKey2");
          rpc (getMinimumBalanceForRentExemption 0);
          console_log (Wallet_Balance 1 (Number 6000000 / LAMPORTS_PER_SOL)%number);
          new_Transaction transfer;
          rpc (sendTransaction transfer "Key2PublicKey2");
          setTimeout 60000;
          rpc (confirmTransaction "signature1");
          transactionLogger_info
            (Sent (amount / LAMPORTS_PER_SOL)%number
                  "Key2P...cKey2" "Key1P...cKey1" "signature1");
          console_log (Actions_completed 1);
          console_log (Finished 1)]
         1) /\
  program integer_transfer =
  (normal tt,
   State [console_log (Recipient_Wallet "Key1P...cKey1");
          console_log (Processing_Wallet 1 "Key2P...cKey2");
          rpc (getBalance "Key2PublicKey2");
          rpc (getMinimumBalanceForRentExemption 0);
          console_log (Wallet_Balance 1 (Number 6000000 / LAMPORTS_PER_SOL)%number);
          new_Transaction transfer;
          errorLogger_error
            (Transfer_error 1 "The number cannot be converted to a BigInt" []);
          console_error (Transfer_error_check_log 1);
          console_log (Finished 0)]
         0).
Proof. vm_compute. repeat split. Qed.

(** In the healthy sweep the one transfer is of 3109120 lamports. *)
Lemma transfer_amount_positive_witness :
  exists transfer,
    In (new_Transaction transfer)
       (done (snd (main default_settings bs58_decode Keypair_fromSecretKey
                        accept_transfer healthy_node
                        (Fulfilled tt) (Fulfilled (key_file [1; 2; 3]))
                        start))) /\
    lamports transfer = Number 3109120 /\
    (lamports transfer <=? Number 0)%number = false.
Proof.
  exists (Transfer "Key2PublicKey2" "Key1PublicKey1" (Number 3109120)).
  split; [vm_compute; do 5 right; left; reflexivity|].
  split; [reflexivity|].
  destruct (transfer_amount_positive default_settings bs58_decode
              Keypair_fromSecretKey accept_transfer healthy_node
              (Fulfilled tt) (Fulfilled (key_file [1; 2; 3])))
    as (Hamount & _ & _).
  apply (Hamount (Transfer "Key2PublicKey2" "Key1PublicKey1" (Number 3109120))).
  left. vm_compute. do 5 right. left. reflexivity.
Defined.

End SweepFacts.

(** * More about BalanceTxFilter *)

Module ScanMore.
Import BalanceTxFilter Vocabulary ScanFacts Examples.
Local Open Scope eff_scope.

(** ** withRetry on any node *)

Lemma rate_limited_dec {A} (r : result A) :
  rate_limited r \/ ~ rate_limited r.
Proof.
  destruct r as [v|e].
  - right. intros (e & He & _). discriminate.
  - destruct (includes (message e) "429") eqn:H429.
    + left. exists e. split; [reflexivity|exact H429].
    + right. intros (e' & [= <-] & He'). congruence.
Qed.

(** What [withRetry] does on a request, whatever the node answers: it
    goes through [m] rate-limited answers and then either has no attempt
    left, or gets an answer that is not a rate-limit error and ends with
    it. *)
Lemma withRetry_loop_closed {A} (c : rpc_call) (answers : nat -> result A)
      (retries : Z) (n : nat) :
  forall (attempt delay : Z) (t : trace),
    Z.to_nat (retries - attempt) = n ->
    exists m,
      (m <= n)%nat /\
      (forall i, (i < m)%nat -> rate_limited (answers (calls c t + i)%nat)) /\
      ((m = n /\
        withRetry_loop (remote c answers) retries attempt delay t =
        (Rejected (new_Error "Maximum retry attempts reached"),
         t ++ retried c m delay)) \/
       ((m < n)%nat /\
        ~ rate_limited (answers (calls c t + m)%nat) /\
        withRetry_loop (remote c answers) retries attempt delay t =
        (answers (calls c t + m)%nat, t ++ retried c m delay ++ [rpc c]))).
Proof.
  induction n as [|n IH]; intros attempt delay t Hn.
  - exists 0%nat. split; [lia|]. split; [intros i Hi; lia|]. left.
    split; [reflexivity|]. cbn [retried]. rewrite app_nil_r.
    apply withRetry_loop_exhausted. lia.
  - destruct (rate_limited_dec (answers (calls c t))) as [Hlim|Hnot].
    + destruct (IH (attempt + 1) (delay * 2)
                   (t ++ retried c 1 delay) ltac:(lia))
        as (m & Hle & Hall & Hend).
      assert (Hcalls : calls c (t ++ retried c 1 delay) = S (calls c t)).
      { rewrite calls_app, calls_retried. lia. }
      assert (Hstep :
        withRetry_loop (remote c answers) retries attempt delay t =
        withRetry_loop (remote c answers) retries (attempt + 1) (delay * 2)
                       (t ++ retried c 1 delay)).
      { rewrite (withRetry_loop_retried c answers retries 1 attempt delay t).
        - change (Z.of_nat 1) with 1.
          replace (delay * 2 ^ 1) with (delay * 2) by lia. reflexivity.
        - intros i Hi. replace i with 0%nat by lia.
          rewrite Nat.add_0_r. exact Hlim.
        - lia. }
      exists (S m). split; [lia|]. split.
      { intros [|i] Hi; [rewrite Nat.add_0_r; exact Hlim|].
        specialize (Hall i ltac:(lia)). rewrite Hcalls in Hall.
        replace (calls c t + S i)%nat with (S (calls c t) + i)%nat by lia.
        exact Hall. }
      rewrite Hstep, Hcalls in *.
      replace (calls c t + S m)%nat with (S (calls c t) + m)%nat by lia.
      cbn [retried]. rewrite <- !app_assoc in *. cbn [app] in *.
      destruct Hend as [[-> Hend]|(Hlt & Hnot & Hend)].
      * left. split; [reflexivity|exact Hend].
      * right. split; [lia|]. split; [exact Hnot|exact Hend].
    + exists 0%nat. split; [lia|]. split; [intros i Hi; lia|]. right.
      split; [lia|]. rewrite Nat.add_0_r. split; [exact Hnot|].
      cbn [retried app].
      destruct (answers (calls c t)) as [v|e] eqn:Hans.
      * apply withRetry_loop_answer; [lia|exact Hans].
      * apply withRetry_loop_other; [lia|exact Hans|].
        destruct (includes (message e) "429") eqn:H429; [|reflexivity].
        exfalso. apply Hnot. exists e. split; [reflexivity|exact H429].
Qed.

Lemma withRetry_closed {A} (c : rpc_call) (answers : nat -> result A)
      (retries delay : Z) :
  exists m,
    (m <= Z.to_nat retries)%nat /\
    (forall i, (i < m)%nat -> rate_limited (answers i)) /\
    ((m = Z.to_nat retries /\
      withRetry (remote c answers) retries delay [] =
      (Rejected (new_Error "Maximum retry attempts reached"),
       retried c m delay)) \/
     ((m < Z.to_nat retries)%nat /\
      ~ rate_limited (answers m) /\
      withRetry (remote c answers) retries delay [] =
      (answers m, retried c m delay ++ [rpc c]))).
Proof.
  destruct (withRetry_loop_closed c answers retries (Z.to_nat retries)
              0 delay [] ltac:(f_equal; lia)) as (m & Hle & Hall & Hend).
  exists m. split; [exact Hle|]. split; [exact Hall|]. exact Hend.
Qed.

Lemma total_app (l1 l2 : list Z) : total (l1 ++ l2) = total l1 + total l2.
Proof. unfold total. induction l1 as [|x l1 IH]; cbn; [reflexivity|lia]. Qed.

Lemma total_doubling (delay : Z) (m : nat) :
  total (doubling delay m) = delay * (2 ^ Z.of_nat m - 1).
Proof.
  unfold doubling. induction m as [|m IH]; [cbn; lia|].
  rewrite seq_S, map_app, total_app, IH. cbn [map total fold_right Nat.add].
  rewrite Nat2Z.inj_succ, Z.pow_succ_r by lia. lia.
Qed.

Lemma prefix_append (needle hay : string) :
  String.prefix needle hay = true <-> exists post, hay = (needle ++ post)%string.
Proof.
  revert hay. induction needle as [|a needle IH]; intros hay.
  - split; [intros _; exists hay; reflexivity|].
    intros _. destruct hay; reflexivity.
  - destruct hay as [|b hay]; cbn.
    + split; [discriminate|]. intros [post Hpost]. discriminate.
    + destruct (ascii_dec a b) as [->|Hab].
      * rewrite IH. split; intros [post Hpost]; exists post; congruence.
      * split; [discriminate|]. intros [post Hpost]. congruence.
Qed.

(** [includes] is the substring test. *)
Lemma includes_substring (hay needle : string) :
  includes hay needle = true <->
  exists pre post, hay = (pre ++ needle ++ post)%string.
Proof.
  split.
  - induction hay as [|c hay IH]; cbn [includes]; intros H;
      apply orb_true_iff in H; destruct H as [H|H].
    + apply prefix_append in H. destruct H as [post ->].
      exists ""%string, post. reflexivity.
    + discriminate.
    + apply prefix_append in H. destruct H as [post ->].
      exists ""%string, post. reflexivity.
    + destruct (IH H) as (pre & post & ->).
      exists (String c pre), post. reflexivity.
  - intros (pre & post & ->).
    induction pre as [|c pre IH]; cbn [String.append].
    + assert (Hp : String.prefix needle (needle ++ post)%string = true)
        by (apply prefix_append; eauto).
      destruct (needle ++ post)%string; cbn [includes]; rewrite Hp; reflexivity.
    + cbn [includes]. rewrite IH. apply orb_true_r.
Qed.

Lemma waits_snoc_request (c : rpc_call) (t : trace) :
  waits (t ++ [rpc c]) = waits t.
Proof. rewrite waits_app. cbn. apply app_nil_r. Qed.

(** X1.  Whatever the node answers, [withRetry] sends the request at most
    [retries] times (never, when [retries] is not positive); the delays it
    waits are [initialDelay], [2 * initialDelay], ... for at most
    [retries] of them, and for a delay that is not negative they add up
    to at most [initialDelay * (2 ^ retries - 1)]. *)
Theorem withRetry_bounded {A} (c : rpc_call) (answers : nat -> result A)
    (retries initialDelay : Z) :
  let run := withRetry (remote c answers) retries initialDelay [] in
  (invocations (snd run) <= Z.to_nat retries)%nat /\
  (exists m, (m <= Z.to_nat retries)%nat /\
             waits (snd run) = doubling initialDelay m) /\
  (0 <= initialDelay ->
   total (waits (snd run))
   <= initialDelay * (2 ^ Z.of_nat (Z.to_nat retries) - 1)).
Proof.
  intros run. subst run.
  destruct (withRetry_closed c answers retries initialDelay)
    as (m & Hle & _ & Hend).
  assert (Hwaits : waits (snd (withRetry (remote c answers) retries
                                         initialDelay [])) =
                   doubling initialDelay m).
  { destruct Hend as [[_ ->]|(_ & _ & ->)]; cbn [snd];
      rewrite ?waits_snoc_request; apply waits_retried. }
  split; [|split].
  - destruct Hend as [[_ ->]|(Hlt & _ & ->)]; cbn [snd];
      rewrite ?invocations_app, invocations_retried; cbn; lia.
  - exists m. split; [exact Hle|exact Hwaits].
  - intros Hdelay. rewrite Hwaits, total_doubling.
    apply Z.mul_le_mono_nonneg_l; [exact Hdelay|].
    apply Z.sub_le_mono_r. apply Z.pow_le_mono_r; lia.
Qed.

(** With the defaults of the scanner, on the flaky node: at most five
    requests, and at most 15.5 seconds of waiting. *)
Lemma withRetry_bounded_witness :
  (invocations (snd (withRetry (remote (getBalance "w") flaky) 5 500 []))
   <= 5)%nat /\
  total (waits (snd (withRetry (remote (getBalance "w") flaky) 5 500 [])))
  <= 15500.
Proof.
  destruct (withRetry_bounded (getBalance "w") flaky 5 500)
    as (Hcount & _ & Htotal).
  split; [exact Hcount|]. apply Htotal. lia.
Defined.

(** X2.  What [withRetry] returns.  A value is an answer of the node that
    came after rate-limit errors only, within the first [retries]
    answers.  An error is never a rate-limit error: it is either the
    error "Maximum retry attempts reached", when the first [retries]
    answers were all rate-limit errors, or the first answer of the node
    that was an error of another kind. *)
Theorem withRetry_outcome {A} (c : rpc_call) (answers : nat -> result A)
    (retries initialDelay : Z) :
  let run := withRetry (remote c answers) retries initialDelay [] in
  (forall v, fst run = Fulfilled v ->
     exists i, Z.of_nat i < retries /\ answers i = Fulfilled v /\
               forall j, (j < i)%nat -> rate_limited (answers j)) /\
  (forall e, fst run = Rejected e ->
     includes (message e) "429" = false /\
     ((e = new_Error "Maximum retry attempts reached" /\
       forall j, Z.of_nat j < retries -> rate_limited (answers j)) \/
      (exists i, Z.of_nat i < retries /\ answers i = Rejected e /\
                 forall j, (j < i)%nat -> rate_limited (answers j)))).
Proof.
  intros run. subst run.
  destruct (withRetry_closed c answers retries initialDelay)
    as (m & Hle & Hall & [[Hm ->]|(Hlt & Hnot & ->)]); cbn [fst].
  - split; [discriminate|]. intros e [= <-]. split; [reflexivity|].
    left. split; [reflexivity|]. intros j Hj. apply Hall. lia.
  - split.
    + intros v Hv. exists m. split; [lia|]. split; [exact Hv|exact Hall].
    + intros e He. split.
      * destruct (includes (message e) "429") eqn:H429; [|reflexivity].
        exfalso. apply Hnot. exists e. split; assumption.
      * right. exists m. split; [lia|]. split; [exact He|exact Hall].
Qed.

(** On the flaky node the value 7 is the third answer. *)
Lemma withRetry_outcome_witness :
  exists i, Z.of_nat i < 5 /\ flaky i = Fulfilled 7 /\
            forall j, (j < i)%nat -> rate_limited (flaky j).
Proof.
  destruct (withRetry_outcome (getBalance "w") flaky 5 500) as [Hvalue _].
  exact (Hvalue 7 eq_refl).
Defined.

(** X3.  An error is taken for a rate-limit error exactly when "429"
    occurs somewhere in its message: when the first answer is an error
    and there is at least one attempt, a wait follows if and only if the
    message is of the form [pre ++ "429" ++ post]. *)
Theorem withRetry_retries_iff_429_in_message {A} (c : rpc_call)
    (answers : nat -> result A) (retries initialDelay : Z) (e : error) :
  answers 0%nat = Rejected e -> 1 <= retries ->
  (waits (snd (withRetry (remote c answers) retries initialDelay [])) <> []
   <-> exists pre post, message e = (pre ++ "429" ++ post)%string).
Proof.
  intros He Hretries. rewrite <- includes_substring.
  destruct (withRetry_closed c answers retries initialDelay)
    as (m & Hle & Hall & Hend).
  assert (Hwaits : waits (snd (withRetry (remote c answers) retries
                                         initialDelay [])) =
                   doubling initialDelay m).
  { destruct Hend as [[_ ->]|(_ & _ & ->)]; cbn [snd];
      rewrite ?waits_snoc_request; apply waits_retried. }
  rewrite Hwaits. split.
  - intros Hne. destruct m as [|m]; [now destruct Hne|].
    destruct (Hall 0%nat ltac:(lia)) as (e' & He' & H429). congruence.
  - intros H429. destruct m as [|m]; [|discriminate].
    exfalso. destruct Hend as [[Hm _]|(_ & Hnot & _)]; [lia|].
    apply Hnot. exists e. split; assumption.
Qed.

(** An error whose message merely contains the digits 429 is retried. *)
Lemma withRetry_retries_iff_429_in_message_witness :
  waits (snd (withRetry
                (remote (getBalance "w")
                        (fun _ => Rejected (new_Error "block 14290 not available")
                                  : result Z))
                2 500 [])) <> [].
Proof.
  apply (withRetry_retries_iff_429_in_message (getBalance "w") _ 2 500
           (new_Error "block 14290 not available") eq_refl ltac:(lia)).
  exists "block 1"%string, "0 not available"%string. reflexivity.
Defined.

(** ** The arrays of asyncPool *)

Lemma indexOf_split (l : list nat) (j : nat) :
  In j l ->
  exists l1 l2, l = l1 ++ j :: l2 /\ ~ In j l1 /\
                indexOf l j = Z.of_nat (length l1).
Proof.
  induction l as [|y l IH]; [intros []|]. intros Hin. cbn [indexOf].
  destruct (Nat.eqb y j) eqn:Hy.
  - apply Nat.eqb_eq in Hy. subst y. exists [], l. cbn. tauto.
  - apply Nat.eqb_neq in Hy. destruct Hin as [Hin|Hin]; [congruence|].
    destruct (IH Hin) as (l1 & l2 & Hl & Hnot & Hidx).
    exists (y :: l1), l2. split; [now rewrite Hl|]. split.
    + intros [H|H]; [congruence|tauto].
    + cbv zeta. rewrite Hidx.
      destruct (Z.ltb_spec (Z.of_nat (length l1)) 0); [lia|].
      cbn [length]. lia.
Qed.

Lemma splice1_at (l1 l2 : list nat) (j : nat) :
  splice1 (l1 ++ j :: l2) (Z.of_nat (length l1)) = l1 ++ l2.
Proof.
  unfold splice1. rewrite length_app. cbn [length].
  destruct (Z.ltb_spec (Z.of_nat (length l1)) 0); [lia|].
  rewrite Z.min_l by lia. rewrite Nat2Z.id.
  rewrite take_app_length. f_equal.
  rewrite <- drop_drop, drop_app_length. reflexivity.
Qed.

Lemma is_settled_In {R} (st : @pool R) (j : nat) :
  is_settled st j = true <-> In j (settled st).
Proof.
  unfold is_settled. rewrite existsb_exists. split.
  - intros (x & Hx & Heq). apply Nat.eqb_eq in Heq. now subst.
  - intros Hin. exists j. split; [exact Hin|apply Nat.eqb_refl].
Qed.

Lemma is_settled_not_In {R} (st : @pool R) (j : nat) :
  is_settled st j = false <-> ~ In j (settled st).
Proof.
  rewrite <- is_settled_In. destruct (is_settled st j); split; congruence.
Qed.

Section PoolArrays.
Context {R : Type}.

(** Settling a pending promise of [executing] keeps the arrays
    consistent; [executing] does not grow, and it shrinks by one when the
    promise is fulfilled. *)
Lemma settle_tracked (st : @pool R) (j : nat) :
  tracked st -> In j (executing st) -> ~ In j (settled st) ->
  tracked (settle j st) /\
  ret (settle j st) = ret st /\
  (length (executing (settle j st)) <= length (executing st))%nat /\
  (forall v, ret st !! j = Some (Fulfilled v) ->
     S (length (executing (settle j st))) = length (executing st)).
Proof.
  intros (Hnodup & Hexec & Hsettled & Hrej & Hpend) Hin Hnot.
  unfold settle.
  destruct (ret st !! j) as [[v|e]|] eqn:Hj.
  - destruct (indexOf_split _ _ Hin) as (l1 & l2 & Hsplit & Hl1 & ->).
    rewrite Hsplit, splice1_at. rewrite Hsplit in Hnodup.
    apply List.NoDup_remove in Hnodup. destruct Hnodup as [Hnodup Hj12].
    assert (Hsub : forall x, In x (l1 ++ l2) -> In x (executing st) /\ x <> j).
    { intros x Hx. split.
      - rewrite Hsplit. apply List.in_app_iff in Hx.
        apply List.in_app_iff. cbn. tauto.
      - intros ->. contradiction. }
    split; [|split; [reflexivity|split]].
    + unfold tracked. cbn [executing settled ret].
      split; [exact Hnodup|]. split; [intros x Hx; apply Hexec, Hsub, Hx|].
      split.
      { intros x Hx. apply List.in_app_iff in Hx. destruct Hx as [Hx|[<-|[]]].
        - apply Hsettled, Hx.
        - apply Hexec, Hin. }
      split.
      { intros x Hx Hs. destruct (Hsub x Hx) as [Hx' Hne].
        apply List.in_app_iff in Hs. destruct Hs as [Hs|[Hs|[]]]; [|congruence].
        apply Hrej; assumption. }
      intros x Hx Hs.
      assert (Hxj : x <> j).
      { intros ->. apply Hs, List.in_app_iff. cbn. tauto. }
      assert (Hx' : In x (executing st)).
      { apply Hpend; [exact Hx|]. intros H. apply Hs, List.in_app_iff. tauto. }
      rewrite Hsplit in Hx'. apply List.in_app_iff in Hx'.
      apply List.in_app_iff. destruct Hx' as [Hx'|[Hx'|Hx']]; [tauto|congruence|tauto].
    + cbn [executing]. rewrite !length_app. cbn [length]. lia.
    + intros _ _. cbn [executing]. rewrite !length_app. cbn [length]. lia.
  - split; [|split; [reflexivity|split; [reflexivity|discriminate]]].
    unfold tracked. cbn [executing settled ret].
    split; [exact Hnodup|]. split; [exact Hexec|]. split.
    { intros x Hx. apply List.in_app_iff in Hx. destruct Hx as [Hx|[<-|[]]].
      - apply Hsettled, Hx.
      - apply Hexec, Hin. }
    split.
    { intros x Hx Hs. apply List.in_app_iff in Hs.
      destruct Hs as [Hs|[<-|[]]]; [apply Hrej; assumption|eauto]. }
    intros x Hx Hs. apply Hpend; [exact Hx|].
    intros H. apply Hs, List.in_app_iff. tauto.
  - apply Hexec in Hin. apply lookup_ge_None in Hj. lia.
Qed.

Lemma pick_In (n : nat) (l : list nat) (j : nat) :
  pick n l = Some j -> In j l.
Proof.
  unfold pick. intros H. apply list_elem_of_In. eapply list_elem_of_lookup_2, H.
Qed.

Lemma pending_In (st : @pool R) (j : nat) :
  In j (pending st) <-> In j (executing st) /\ ~ In j (settled st).
Proof.
  unfold pending. rewrite List.filter_In, negb_true_iff, is_settled_not_In.
  reflexivity.
Qed.

Lemma settle_more_tracked (picks : list nat) :
  forall st : @pool R,
    tracked st ->
    tracked (settle_more picks st) /\
    ret (settle_more picks st) = ret st /\
    (length (executing (settle_more picks st)) <= length (executing st))%nat.
Proof.
  induction picks as [|n picks IH]; intros st Hst; cbn [settle_more].
  - split; [exact Hst|]. split; [reflexivity|lia].
  - destruct (pick n (pending st)) as [j|] eqn:Hpick.
    + apply pick_In, pending_In in Hpick. destruct Hpick as [Hin Hnot].
      destruct (settle_tracked st j Hst Hin Hnot) as (Hst' & Hret & Hle & _).
      destruct (IH _ Hst') as (Hst'' & Hret'' & Hle'').
      split; [exact Hst''|]. split; [congruence|lia].
    + split; [exact Hst|]. split; [reflexivity|lia].
Qed.

(** A race that is won by a fulfilled promise takes it out of
    [executing]. *)
Lemma race_tracked (picks : list nat) (st : @pool R) :
  tracked st ->
  match race picks st with
  | race_fulfilled st' =>
      tracked st' /\ ret st' = ret st /\
      (S (length (executing st')) <= length (executing st))%nat
  | _ => True
  end.
Proof.
  intros Hst. unfold race.
  destruct (List.find (is_settled st) (executing st)) as [j|] eqn:Hfind.
  - apply List.find_some in Hfind. destruct Hfind as [Hin Hs].
    apply is_settled_In in Hs.
    destruct Hst as (_ & _ & _ & Hrej & _).
    destruct (Hrej j Hin Hs) as [e ->]. exact I.
  - destruct (pick (hd 0%nat picks) (executing st)) as [j|] eqn:Hpick;
      [|exact I].
    apply pick_In in Hpick.
    assert (Hnot : ~ In j (settled st)).
    { apply is_settled_not_In. eapply List.find_none; eassumption. }
    destruct (settle_tracked st j Hst Hpick Hnot) as (Hst' & Hret & Hle & Hone).
    destruct (settle_more_tracked (tl picks) _ Hst') as (Hst'' & Hret'' & Hle'').
    destruct (ret st !! j) as [[v|e]|] eqn:Hj; [|exact I|].
    + specialize (Hone v eq_refl).
      split; [exact Hst''|]. split; [congruence|lia].
    + destruct Hst as (_ & Hexec & _). apply Hexec in Hpick.
      apply lookup_ge_None in Hj. lia.
Qed.

(** Pushing the next promise to both arrays keeps them consistent. *)
Lemma push_tracked (st : @pool R) (p : result R) :
  tracked st ->
  tracked (Pool (ret st ++ [p]) (executing st ++ [length (ret st)]) (settled st)).
Proof.
  intros (Hnodup & Hexec & Hsettled & Hrej & Hpend).
  unfold tracked. cbn [executing settled ret]. rewrite length_app. cbn [length].
  split; [|split; [|split; [|split]]].
  - apply List.NoDup_app; [exact Hnodup|repeat constructor; intros []|].
    intros x Hx [<-|[]]. apply Hexec in Hx. lia.
  - intros x Hx. apply List.in_app_iff in Hx. destruct Hx as [Hx|[<-|[]]];
      [apply Hexec in Hx|]; lia.
  - intros x Hx. apply Hsettled in Hx. lia.
  - intros x Hx Hs. apply List.in_app_iff in Hx. destruct Hx as [Hx|[<-|[]]].
    + destruct (Hrej x Hx Hs) as [e He]. exists e.
      rewrite lookup_app_l by (apply Hexec, Hx). exact He.
    + apply Hsettled in Hs. lia.
  - intros x Hx Hs. apply List.in_app_iff.
    destruct (Nat.eq_dec x (length (ret st))) as [->|Hne]; [cbn; tauto|].
    left. apply Hpend; [lia|exact Hs].
Qed.

Lemma unresolved_le_executing (st : @pool R) :
  tracked st -> (length (unresolved st) <= length (executing st))%nat.
Proof.
  intros (_ & _ & _ & _ & Hpend). apply List.NoDup_incl_length.
  - apply List.NoDup_filter, List.seq_NoDup.
  - intros x Hx. unfold unresolved in Hx. apply List.filter_In in Hx.
    destruct Hx as [Hx Hs]. apply List.in_seq in Hx.
    apply negb_true_iff, is_settled_not_In in Hs.
    apply Hpend; [lia|exact Hs].
Qed.

Lemma tracked_empty : tracked (Pool (R:=R) [] [] []).
Proof.
  unfold tracked. cbn.
  split; [constructor|]. split; [tauto|]. split; [tauto|]. split; [tauto|].
  intros j Hj. lia.
Qed.
End PoolArrays.

Section PoolBound.
Context {T R : Type}.
Variable iteratorFn : nat -> T -> result R.
Variable sched : nat -> list nat.

(** The loop keeps fewer than [max poolLimit 1] promises in [executing]
    between two rounds. *)
Lemma asyncPool_loop_tracked (poolLimit : Z) (array_length : nat)
      (items : list T) :
  poolLimit <= Z.of_nat array_length ->
  forall (k : nat) (st : @pool R),
    tracked st ->
    Z.of_nat (length (executing st)) <= Z.max (poolLimit - 1) 0 ->
    match asyncPool_loop iteratorFn sched poolLimit array_length items k st with
    | loop_done _ st' =>
        tracked st' /\
        Z.of_nat (length (executing st')) <= Z.max (poolLimit - 1) 0
    | _ => True
    end.
Proof.
  intros Hlimit. induction items as [|item items IH]; intros k st Hst Hlen.
  - cbn. split; assumption.
  - cbn [asyncPool_loop ret executing settled].
    set (p := iteratorFn (length (ret st)) item).
    destruct (poolLimit <=? Z.of_nat array_length) eqn:Hle; [|lia].
    pose proof (push_tracked st p Hst) as Hpush.
    destruct (Z.of_nat (length (executing st ++ [length (ret st)])) >=? poolLimit)
      eqn:Hfull.
    + pose proof (race_tracked (sched k) _ Hpush) as Hrace.
      destruct (race _ _) as [st'|e|]; try exact I.
      destruct Hrace as (Hst' & _ & Hless).
      cbn [executing] in Hless. rewrite length_app in Hless. cbn in Hless.
      apply IH; [exact Hst'|lia].
    + apply IH; [exact Hpush|]. cbn [executing].
      rewrite Z.geb_leb in Hfull. apply Z.leb_gt in Hfull.
      rewrite length_app in *. cbn [length] in *. lia.
Qed.

Lemma asyncPool_loop_app (poolLimit : Z) (array_length : nat)
      (items1 items2 : list T) :
  forall (k : nat) (st : @pool R),
    asyncPool_loop iteratorFn sched poolLimit array_length (items1 ++ items2) k st =
    match asyncPool_loop iteratorFn sched poolLimit array_length items1 k st with
    | loop_done k' st' =>
        asyncPool_loop iteratorFn sched poolLimit array_length items2 k' st'
    | loop_throws e => loop_throws e
    | loop_never => loop_never
    end.
Proof.
  induction items1 as [|item items1 IH]; intros k st; [reflexivity|].
  cbn [app asyncPool_loop].
  destruct (poolLimit <=? Z.of_nat array_length); [|apply IH].
  destruct (_ >=? poolLimit); [|apply IH].
  destruct (race _ _); [apply IH|reflexivity|reflexivity].
Qed.

End PoolBound.

(** X4.  The limit is kept.  When the limit is not larger than the array,
    then every time the loop of [asyncPool] has handled some first elements
    of the array and goes on (to start the next task, or to
    [Promise.all]), fewer than [max poolLimit 1] of the promises it has
    created are still unsettled; so with the next task started at most
    [max poolLimit 1] tasks are in flight. *)
Theorem asyncPool_keeps_limit {T R} (iteratorFn : nat -> T -> result R)
    (sched : nat -> list nat) (poolLimit : Z) (started rest : list T)
    (k : nat) (st : @pool R) :
  poolLimit <= Z.of_nat (length (started ++ rest)) ->
  asyncPool_loop iteratorFn sched poolLimit (length (started ++ rest))
                 started 0 (Pool [] [] []) = loop_done k st ->
  length (ret st) = length started /\
  Z.of_nat (length (unresolved st)) <= Z.max (poolLimit - 1) 0.
Proof.
  intros Hlimit Hloop. split.
  - pose proof (asyncPool_loop_settles iteratorFn sched poolLimit
                  (length (started ++ rest)) started 0 (Pool [] [] [])) as Hret.
    rewrite Hloop, pushed_all in Hret. rewrite Hret. apply length_imap.
  - pose proof (asyncPool_loop_tracked iteratorFn sched poolLimit
                  (length (started ++ rest)) started Hlimit 0 (Pool [] [] [])
                  tracked_empty) as Hinv.
    rewrite Hloop in Hinv. destruct Hinv as [Hst Hlen]; [cbn; lia|].
    pose proof (unresolved_le_executing st Hst). lia.
Qed.

Lemma asyncPool_keeps_limit_witness :
  exists k st,
    asyncPool_loop double_task late_first 2 4 [10; 20; 30] 0 (Pool [] [] [])
    = loop_done k st /\
    length (ret st) = 3%nat /\ Z.of_nat (length (unresolved st)) <= 1.
Proof.
  eexists. eexists. split; [vm_compute; reflexivity|].
  eapply (asyncPool_keeps_limit double_task late_first 2 [10; 20; 30] [40]);
    [cbn; lia|vm_compute; reflexivity].
Defined.

(** X5.  When the limit is larger than the array, [asyncPool] does not
    throttle: the loop starts every task without waiting once, and nothing
    is put in [executing]. *)
Theorem asyncPool_large_limit_never_waits {T R}
    (iteratorFn : nat -> T -> result R) (sched : nat -> list nat)
    (poolLimit : Z) (array : list T) :
  Z.of_nat (length array) < poolLimit ->
  asyncPool_loop iteratorFn sched poolLimit (length array) array 0
                 (Pool [] [] [])
  = loop_done 0 (Pool (imap iteratorFn array) [] []).
Proof.
  intros Hlimit.
  assert (Hgen : forall items k (st : @pool R),
             asyncPool_loop iteratorFn sched poolLimit (length array) items k st
             = loop_done k (Pool (pushed iteratorFn st items) (executing st)
                                 (settled st))).
  { induction items as [|item items IH]; intros k st.
    - unfold pushed. cbn. rewrite app_nil_r. now destruct st.
    - cbn [asyncPool_loop ret executing settled].
      destruct (Z.leb_spec poolLimit (Z.of_nat (length array))); [lia|].
      rewrite IH. cbn [ret executing settled]. f_equal. f_equal.
      apply (pushed_cons iteratorFn). reflexivity. }
  rewrite Hgen. reflexivity.
Qed.

Lemma asyncPool_large_limit_never_waits_witness :
  asyncPool_loop double_task late_first 5 3 [10; 20; 30] 0 (Pool [] [] [])
  = loop_done 0 (Pool [Fulfilled 20; Fulfilled 41; Fulfilled 62] [] []).
Proof.
  apply (asyncPool_large_limit_never_waits double_task late_first 5 [10; 20; 30]).
  cbn. lia.
Defined.

(** X6.  [asyncPool] fails as a whole when one task fails: if the call
    made for some element is rejected, the promise of [asyncPool] is
    rejected, whatever the limit and the order of settling, and its reason
    is the reason of one of the rejected calls. *)
Theorem asyncPool_rejects_with_a_task {T R}
    (iteratorFn : nat -> T -> result R) (sched : nat -> list nat)
    (poolLimit : Z) (array : list T) (i : nat) (item : T) (e : error) :
  array !! i = Some item ->
  iteratorFn i item = Rejected e ->
  exists e' i' item',
    asyncPool iteratorFn sched poolLimit array = Some (Rejected e') /\
    array !! i' = Some item' /\ iteratorFn i' item' = Rejected e'.
Proof.
  intros Hi He.
  destruct (asyncPool_some_rejected iteratorFn sched poolLimit array i e)
    as (e' & Hrun & Hin).
  - rewrite list_lookup_imap, Hi. cbn. now rewrite He.
  - apply list_elem_of_lookup_1 in Hin. destruct Hin as [i' Hi'].
    rewrite list_lookup_imap in Hi'.
    destruct (array !! i') as [item'|] eqn:Hitem; [|discriminate].
    cbn in Hi'. exists e', i', item'. split; [exact Hrun|].
    split; [exact Hitem|congruence].
Qed.

Lemma asyncPool_rejects_with_a_task_witness :
  exists e' i' item',
    asyncPool even_only late_first 2 [10; 21; 30] = Some (Rejected e') /\
    [10; 21; 30] !! i' = Some item' /\ even_only i' item' = Rejected e'.
Proof.
  apply (asyncPool_rejects_with_a_task even_only late_first 2 [10; 21; 30]
           1%nat 21 connection_reset); reflexivity.
Defined.

(** ** The cost and the output of the scan *)

Lemma withRetry_cost {A} (c : rpc_call) (answers : nat -> result A) :
  let run := withRetry (remote c answers) 5 500 [] in
  (invocations (snd run) <= 5)%nat /\ total (waits (snd run)) <= 15500.
Proof.
  cbv zeta.
  destruct (withRetry_closed c answers 5 500) as (m & Hle & _ & Hend).
  assert (Hwaits : waits (snd (withRetry (remote c answers) 5 500 [])) =
                   doubling 500 m).
  { destruct Hend as [[_ ->]|(_ & _ & ->)]; cbn [snd];
      rewrite ?waits_snoc_request; apply waits_retried. }
  split.
  - destruct Hend as [[_ ->]|(Hlt & _ & ->)]; cbn [snd];
      rewrite ?invocations_app, invocations_retried; cbn in *; lia.
  - rewrite Hwaits, total_doubling.
    assert (2 ^ Z.of_nat m <= 2 ^ 5) by (apply Z.pow_le_mono_r; lia). lia.
Qed.

(** X7.  What a wallet costs.  One call of [checkWallet] sends at most ten
    requests to the node and waits at most 31 seconds between them, and
    for an address that [PublicKey] refuses it sends none. *)
Theorem checkWallet_budget (config : settings)
    (PublicKey : string -> result string) (connection : node)
    (address : string) :
  let run := checkWallet config PublicKey connection address [] in
  (invocations (snd run) <= 10)%nat /\
  total (waits (snd run)) <= 31000 /\
  (forall e, PublicKey address = Rejected e -> invocations (snd run) = 0%nat).
Proof.
  cbv zeta. unfold checkWallet, Eff.try_catch. rewrite checkWallet_try_run.
  destruct (PublicKey address) as [publicKey|e0] eqn:Hkey.
  2:{ rewrite !emit_then. cbn. repeat split; try lia. }
  cbv zeta. unfold observed_balance, observed_signatures.
  destruct (withRetry_cost (getBalance publicKey)
              (answers_getBalance connection publicKey)) as [Hn1 Hw1].
  destruct (withRetry_cost (getSignaturesForAddress publicKey 1000)
              (fun n => at_most 1000
                 (answers_getSignaturesForAddress connection publicKey n)))
    as [Hn2 Hw2].
  fold (connection_getBalance connection publicKey) in Hn1, Hw1.
  fold (connection_getSignaturesForAddress connection publicKey 1000) in Hn2, Hw2.
  destruct (withRetry (connection_getBalance connection publicKey) 5 500 [])
    as [[balanceLamports|e1] t1];
  destruct (withRetry (connection_getSignaturesForAddress connection publicKey 1000)
                      5 500 []) as [[signatures|e2] t2];
  cbn [fst snd] in *;
  repeat match goal with
         | |- context [if ?b then _ else _] => destruct b
         end;
  rewrite ?emit_then; cbn [fst snd Eff.ret];
  rewrite ?invocations_app, ?waits_app, ?total_app; cbn;
  (split; [lia|split; [lia|discriminate]]).
Qed.

Lemma checkWallet_budget_witness :
  invocations (snd (checkWallet scan_settings PublicKey (scan_node 0)
                                "not-a-key" [])) = 0%nat.
Proof.
  destruct (checkWallet_budget scan_settings PublicKey (scan_node 0) "not-a-key")
    as (_ & _ & Hnone).
  exact (Hnone (new_Error "Invalid public key input") eq_refl).
Defined.

(** What the saved list is made of: the records of the slots that are
    not [null], in the order of the wallet list. *)
Lemma saved_sublist (f : nat -> string -> option walletInfo) (P : walletInfo -> Prop)
      (walletList : list string) :
  (forall i a w, f i a = Some w -> address w = a /\ P w) ->
  sublist (map address (omap id (imap f walletList))) walletList /\
  Forall P (omap id (imap f walletList)).
Proof.
  revert f. induction walletList as [|a l IH]; intros f Hf.
  - split; constructor.
  - cbn [imap omap]. destruct (IH (f ∘ S)) as [Hsub Hall].
    { intros i a' w Hw. apply (Hf (S i)), Hw. }
    destruct (f 0%nat a) as [w|] eqn:Hw; cbn [id].
    + destruct (Hf _ _ _ Hw) as [<- HP]. cbn [map].
      split; [apply sublist_skip, Hsub|constructor; assumption].
    + split; [apply sublist_cons, Hsub|exact Hall].
Qed.

Lemma qualifies_bounds (config : settings) (PublicKey : string -> result string)
      (connection : node) (a : string) (w : walletInfo) :
  qualifies config PublicKey connection a w ->
  address w = a /\
  (exists B : Z,
     balance w = (Number B / Number 1000000000)%number /\
     (Number B <? min_balance_sol config * Number 1000000000)%number = false) /\
  fst (transaction_count_range config) <= transactionCount w
    <= snd (transaction_count_range config) /\
  0 <= transactionCount w <= 1000.
Proof.
  intros Hq. pose proof Hq as (pk & B & sigs & _ & _ & HB & Hs & Hrange & ->).
  cbn [address balance transactionCount].
  split; [reflexivity|]. split; [|split; [exact Hrange|]].
  - exists B. split; [reflexivity|exact HB].
  - split; [lia|]. eapply observed_signatures_capped, Hs.
Qed.

(** X8.  What the scan saves.  The addresses of the saved records are
    addresses of the wallet list, in the order of the list and each at
    most as often as it is listed; every saved record shows the double
    [B / 1e9] for a number [B] of lamports that the code did not find
    below the double [min_balance_sol * 1e9], and a transaction count
    within [transaction_count_range], and never more than 1000. *)
Theorem scan_saves_filtered_wallets (config : settings)
    (PublicKey : string -> result string) (connection : nat -> node)
    (sched : nat -> list nat) (walletList : list string) :
  exists filteredWallets,
    main config PublicKey connection sched walletList = saved filteredWallets /\
    sublist (map address filteredWallets) walletList /\
    Forall (fun w =>
              (exists B : Z,
                 balance w = (Number B / Number 1000000000)%number /\
                 (Number B <? min_balance_sol config * Number 1000000000)%number
                 = false) /\
              fst (transaction_count_range config) <= transactionCount w
                <= snd (transaction_count_range config) /\
              0 <= transactionCount w <= 1000) filteredWallets.
Proof.
  eexists. split; [unfold main; rewrite scan_results; reflexivity|].
  apply (saved_sublist (fun i a => slot config PublicKey (connection i) a)).
  intros i a w Hw. apply slot_qualifies in Hw.
  apply (qualifies_bounds _ _ _ _ _ Hw).
Qed.

(** X9.  A range no count can meet.  The node is asked for at most 1000
    signatures, so when the lower end of [transaction_count_range] is
    above 1000, or above the upper end, the scan saves an empty list,
    whatever the wallets hold. *)
Theorem scan_saves_nothing_outside_limit (config : settings)
    (PublicKey : string -> result string) (connection : nat -> node)
    (sched : nat -> list nat) (walletList : list string) :
  1000 < txMin config \/ txMax config < txMin config \/ txMax config < 0 ->
  main config PublicKey connection sched walletList = saved [].
Proof.
  intros Hrange. unfold main. rewrite scan_results. f_equal.
  destruct (saved_sublist (fun i a => slot config PublicKey (connection i) a)
              (fun w => txMin config <= transactionCount w <= txMax config /\
                        0 <= transactionCount w <= 1000) walletList)
    as [_ Hall].
  { intros i a w Hw. apply slot_qualifies, qualifies_bounds in Hw.
    unfold txMin, txMax. tauto. }
  destruct (omap id _) as [|w l]; [reflexivity|].
  apply Forall_cons in Hall. destruct Hall as [Hw _]. lia.
Qed.

Lemma scan_saves_nothing_outside_limit_witness :
  main (BalanceTxFilter.Settings (1001, 5000) (Number 0) 2) PublicKey scan_node
       late_first scan_wallets = saved [].
Proof.
  apply (scan_saves_nothing_outside_limit
           (BalanceTxFilter.Settings (1001, 5000) (Number 0) 2)).
  left. cbn. lia.
Defined.

End ScanMore.

(** * Text: lines, keys and masks *)

Module TextFacts.
Import SolanaCollector BalanceTxFilterInput Vocabulary.

(** ** Strings *)

Lemma append_nil_r (s : string) : (s ++ "")%string = s.
Proof. induction s as [|c s IH]; cbn; [reflexivity|now rewrite IH]. Qed.

Lemma append_assoc (s t u : string) :
  ((s ++ t) ++ u)%string = (s ++ t ++ u)%string.
Proof. induction s as [|c s IH]; cbn; [reflexivity|now rewrite IH]. Qed.

Lemma length_append (s t : string) :
  String.length (s ++ t) = (String.length s + String.length t)%nat.
Proof. induction s as [|c s IH]; cbn; [reflexivity|now rewrite IH]. Qed.

Lemma chars_append (s t : string) :
  list_ascii_of_string (s ++ t)
  = list_ascii_of_string s ++ list_ascii_of_string t.
Proof. induction s as [|c s IH]; cbn; [reflexivity|now rewrite IH]. Qed.

Lemma string_of_chars_app (l1 l2 : list ascii) :
  string_of_list_ascii (l1 ++ l2)
  = (string_of_list_ascii l1 ++ string_of_list_ascii l2)%string.
Proof. induction l1 as [|c l1 IH]; cbn; [reflexivity|now rewrite IH]. Qed.

Lemma reverse_append (s t : string) :
  reverse (s ++ t) = (reverse t ++ reverse s)%string.
Proof.
  unfold reverse. now rewrite chars_append, rev_app_distr, string_of_chars_app.
Qed.

Lemma substring_whole (s t : string) :
  String.substring 0 (String.length s) (s ++ t) = s.
Proof.
  induction s as [|c s IH]; cbn; [now destruct t|now rewrite IH].
Qed.

Lemma substring_skip (s t : string) (m : nat) :
  String.substring (String.length s) m (s ++ t) = String.substring 0 m t.
Proof. induction s as [|c s IH]; cbn; [reflexivity|exact IH]. Qed.

Lemma substring_all (s : string) :
  String.substring 0 (String.length s) s = s.
Proof. rewrite <- (append_nil_r s) at 2. apply substring_whole. Qed.

Lemma has_char_append (c : ascii) (s t : string) :
  has_char c (s ++ t) = has_char c s || has_char c t.
Proof. unfold has_char. now rewrite chars_append, existsb_app. Qed.

(** ** split *)

Lemma split_without (s : string) (sep : ascii) :
  has_char sep s = false -> split s sep = [s].
Proof.
  induction s as [|c s IH]; [reflexivity|]. unfold has_char. cbn.
  rewrite Ascii.eqb_sym. destruct (Ascii.eqb c sep); [discriminate|].
  cbn. intros H. now rewrite (IH H).
Qed.

Lemma split_append (s t : string) (sep : ascii) :
  has_char sep s = false ->
  split (s ++ String sep t) sep = s :: split t sep.
Proof.
  induction s as [|c s IH]; cbn.
  - intros _. now rewrite Ascii.eqb_refl.
  - unfold has_char. cbn. rewrite Ascii.eqb_sym.
    destruct (Ascii.eqb c sep); [discriminate|]. cbn.
    intros H. now rewrite (IH H).
Qed.

(** Splitting the text of lines joined by the separator gives the lines
    back. *)
Lemma split_concat (ls : list string) (sep : ascii) :
  ls <> [] ->
  forallb (fun l => negb (has_char sep l)) ls = true ->
  split (String.concat (String sep "") ls) sep = ls.
Proof.
  induction ls as [|l ls IH]; [congruence|]. intros _ Hall.
  cbn [forallb] in Hall. apply andb_prop in Hall. destruct Hall as [Hl Hls].
  apply negb_true_iff in Hl.
  destruct ls as [|l' ls]; [now apply split_without|].
  change (String.concat (String sep "") (l :: l' :: ls))
    with (l ++ String sep (String.concat (String sep "") (l' :: ls)))%string.
  rewrite split_append by exact Hl. f_equal. apply IH; [discriminate|exact Hls].
Qed.

(** ** trim *)

(** [trimStart] takes white-space characters from the start as long as
    there is one. *)
Lemma trimStart_strip (s : string) :
  trimStart s = match strip s with Some rest => trimStart rest | None => s end.
Proof.
  destruct s as [|c1 rest1]; [reflexivity|]. cbn [trimStart strip].
  destruct (is_whitespace1 c1); [reflexivity|].
  destruct rest1 as [|c2 rest2]; [reflexivity|].
  destruct (is_whitespace2 c1 c2); [reflexivity|].
  destruct rest2 as [|c3 rest3]; [reflexivity|].
  destruct (is_whitespace3 c1 c2 c3); reflexivity.
Qed.

Lemma strip_length (s rest : string) :
  strip s = Some rest -> (String.length rest < String.length s)%nat.
Proof.
  destruct s as [|c1 rest1]; [discriminate|]. cbn [strip].
  destruct (is_whitespace1 c1); [intros [= <-]; cbn; lia|].
  destruct rest1 as [|c2 rest2]; [discriminate|].
  destruct (is_whitespace2 c1 c2); [intros [= <-]; cbn; lia|].
  destruct rest2 as [|c3 rest3]; [discriminate|].
  destruct (is_whitespace3 c1 c2 c3); [intros [= <-]; cbn; lia|discriminate].
Qed.

Lemma strip_append (s rest t : string) :
  strip s = Some rest -> strip (s ++ t) = Some (rest ++ t)%string.
Proof.
  destruct s as [|c1 rest1]; [discriminate|]. cbn [strip append].
  destruct (is_whitespace1 c1); [intros [= <-]; reflexivity|].
  destruct rest1 as [|c2 rest2]; [discriminate|]. cbn [append].
  destruct (is_whitespace2 c1 c2); [intros [= <-]; reflexivity|].
  destruct rest2 as [|c3 rest3]; [discriminate|]. cbn [append].
  destruct (is_whitespace3 c1 c2 c3); [intros [= <-]; reflexivity|discriminate].
Qed.

(** A character of one byte is not the second or third byte of a
    white-space character. *)
Lemma is_whitespace2_one_byte (c1 c : ascii) :
  one_byte c -> is_whitespace2 c1 c = false.
Proof.
  unfold one_byte, is_whitespace2. intros Hc.
  destruct (Nat.eqb_spec (nat_of_ascii c) 160); [lia|].
  apply andb_false_r.
Qed.

Lemma is_whitespace3_one_byte (c1 c2 c : ascii) :
  one_byte c -> is_whitespace3 c1 c2 c = false.
Proof.
  unfold one_byte, is_whitespace3. intros Hc. cbv zeta.
  destruct (Nat.eqb_spec (nat_of_ascii c) 128); [lia|].
  destruct (Nat.eqb_spec (nat_of_ascii c) 159); [lia|].
  destruct (Nat.eqb_spec (nat_of_ascii c) 168); [lia|].
  destruct (Nat.eqb_spec (nat_of_ascii c) 169); [lia|].
  destruct (Nat.eqb_spec (nat_of_ascii c) 175); [lia|].
  destruct (Nat.eqb_spec (nat_of_ascii c) 191); [lia|].
  destruct (Nat.leb_spec 128 (nat_of_ascii c)); [lia|].
  cbn [andb orb]. now rewrite !andb_false_r.
Qed.

Lemma is_whitespace1_one_byte (c : ascii) :
  is_whitespace1 c = true -> one_byte c.
Proof.
  unfold one_byte, is_whitespace1. cbv zeta.
  destruct (Nat.leb_spec (nat_of_ascii c) 13);
    destruct (Nat.eqb_spec (nat_of_ascii c) 32);
    rewrite ?andb_false_r; cbn [orb]; intros; try lia; discriminate.
Qed.

Lemma strip_snoc (s : string) (c : ascii) :
  one_byte c -> strip s = None -> s <> "" ->
  strip (s ++ String c "") = None.
Proof.
  intros Hc. destruct s as [|c1 rest1]; [congruence|]. intros Hs _.
  revert Hs. cbn [strip append].
  destruct (is_whitespace1 c1); [discriminate|].
  destruct rest1 as [|c2 rest2]; cbn [append].
  { intros _. now rewrite is_whitespace2_one_byte. }
  destruct (is_whitespace2 c1 c2); [discriminate|].
  destruct rest2 as [|c3 rest3]; cbn [append].
  { intros _. now rewrite is_whitespace3_one_byte. }
  destruct (is_whitespace3 c1 c2 c3); [discriminate|reflexivity].
Qed.

(** Induction on a string along [strip]. *)
Lemma strip_ind (P : string -> Prop) :
  (forall s, strip s = None -> P s) ->
  (forall s rest, strip s = Some rest -> P rest -> P s) ->
  forall s, P s.
Proof.
  intros Hnone Hsome s.
  assert (H : forall n s, (String.length s < n)%nat -> P s).
  { induction n as [|n IH]; intros s' Hlen; [lia|].
    destruct (strip s') as [rest|] eqn:Hstrip.
    - apply (Hsome _ _ Hstrip). apply IH.
      pose proof (strip_length _ _ Hstrip). lia.
    - apply Hnone, Hstrip. }
  apply (H (S (String.length s))). lia.
Qed.

(** What [trimStart] returns does not begin with white space. *)
Lemma strip_trimStart (s : string) : strip (trimStart s) = None.
Proof.
  induction s as [s Hs|s rest Hs IH] using strip_ind;
    rewrite trimStart_strip, Hs; assumption.
Qed.

Lemma trimStart_fixed (s : string) : strip s = None -> trimStart s = s.
Proof. intros Hs. now rewrite trimStart_strip, Hs. Qed.

Lemma trimStart_append_ws (s t : string) :
  trimStart s = "" -> trimStart (s ++ t) = trimStart t.
Proof.
  induction s as [s Hs|s rest Hs IH] using strip_ind.
  - rewrite (trimStart_fixed s Hs). now intros ->.
  - rewrite (trimStart_strip s), Hs. intros Hrest.
    rewrite (trimStart_strip (s ++ t)), (strip_append _ _ t Hs).
    apply IH, Hrest.
Qed.

Lemma trimStart_snoc (s : string) (c : ascii) :
  one_byte c -> trimStart s <> "" ->
  trimStart (s ++ String c "") = (trimStart s ++ String c "")%string.
Proof.
  intros Hc. induction s as [s Hs|s rest Hs IH] using strip_ind.
  - rewrite (trimStart_fixed s Hs). intros Hne.
    apply trimStart_fixed, strip_snoc; assumption.
  - rewrite (trimStart_strip s), Hs. intros Hne.
    rewrite (trimStart_strip (s ++ String c "")), (strip_append _ _ _ Hs).
    apply IH, Hne.
Qed.

(** [trimEnd] cuts white space off, and nothing else. *)
Lemma trimEnd_split (s : string) :
  exists t, s = (trimEnd s ++ t)%string /\ trimStart t = "".
Proof.
  induction s as [|c s (t & Hs & Ht)]; [now exists ""|]. cbn [trimEnd].
  destruct (String.eqb_spec (trimStart (String c s)) "") as [Hws|Hnot].
  - now exists (String c s).
  - exists t. split; [|exact Ht]. cbn [append]. now rewrite <- Hs.
Qed.

Lemma trimEnd_idem (s : string) : trimEnd (trimEnd s) = trimEnd s.
Proof.
  induction s as [|c s IH]; [reflexivity|]. cbn [trimEnd].
  destruct (String.eqb_spec (trimStart (String c s)) "") as [Hws|Hnot];
    [reflexivity|].
  cbn [trimEnd]. rewrite IH.
  destruct (String.eqb_spec (trimStart (String c (trimEnd s))) "") as [Hws|_];
    [|reflexivity].
  exfalso. apply Hnot. destruct (trimEnd_split s) as (t & Hs & Ht).
  rewrite Hs at 1.
  change (String c (trimEnd s ++ t)) with (String c (trimEnd s) ++ t)%string.
  now rewrite (trimStart_append_ws _ t Hws).
Qed.

(** [trimEnd] leaves the start of a string as it is. *)
Lemma strip_trimEnd (s : string) : strip s = None -> strip (trimEnd s) = None.
Proof.
  intros Hs. destruct (strip (trimEnd s)) as [rest|] eqn:Hstrip; [|reflexivity].
  destruct (trimEnd_split s) as (t & Hsplit & _).
  rewrite Hsplit, (strip_append _ _ t Hstrip) in Hs. discriminate.
Qed.

Lemma trim_idem (s : string) : trim (trim s) = trim s.
Proof.
  unfold trim.
  rewrite (trimStart_fixed (trimEnd (trimStart s)));
    [apply trimEnd_idem|apply strip_trimEnd, strip_trimStart].
Qed.

Lemma trimStart_one (c : ascii) :
  trimStart (String c "") = if is_whitespace1 c then "" else String c "".
Proof. cbn. now destruct (is_whitespace1 c). Qed.

(** A one-byte white-space character added at the end of a line is
    trimmed away. *)
Lemma trimEnd_snoc_ws (s : string) (c : ascii) :
  is_whitespace1 c = true -> trimEnd (s ++ String c "") = trimEnd s.
Proof.
  intros Hc. pose proof (is_whitespace1_one_byte c Hc) as Hbyte.
  assert (Hone : trimStart (String c "") = "")
    by now rewrite trimStart_one, Hc.
  induction s as [|d s IH]; cbn [append trimEnd].
  { change (trimStart (String c "") =? "")%string
      with (trimStart (String c "") =? "")%string. now rewrite Hone. }
  rewrite IH.
  change (String d (s ++ String c "")) with (String d s ++ String c "")%string.
  destruct (String.eqb_spec (trimStart (String d s)) "") as [Hws|Hnot].
  - now rewrite (trimStart_append_ws _ _ Hws), Hone.
  - rewrite (trimStart_snoc _ _ Hbyte Hnot).
    destruct (trimStart (String d s)); [congruence|reflexivity].
Qed.

Lemma trim_snoc_ws (s : string) (c : ascii) :
  is_whitespace1 c = true -> trim (s ++ String c "") = trim s.
Proof.
  intros Hc. unfold trim.
  destruct (String.eqb_spec (trimStart s) "") as [Hws|Hnot].
  - rewrite (trimStart_append_ws _ _ Hws), trimStart_one, Hc, Hws. reflexivity.
  - rewrite (trimStart_snoc _ _ (is_whitespace1_one_byte c Hc) Hnot).
    now apply trimEnd_snoc_ws.
Qed.

(** A string that ends with a one-byte character that is not white
    space is not trimmed at its end. *)
Lemma trimStart_snoc_nonws (s : string) (c : ascii) :
  one_byte c -> is_whitespace1 c = false ->
  trimStart (s ++ String c "") <> "".
Proof.
  intros Hbyte Hc.
  destruct (String.eqb_spec (trimStart s) "") as [Hws|Hnot].
  - rewrite (trimStart_append_ws _ _ Hws), trimStart_one, Hc. discriminate.
  - rewrite (trimStart_snoc _ _ Hbyte Hnot).
    destruct (trimStart s); [congruence|discriminate].
Qed.

Lemma trimEnd_snoc_nonws (s : string) (c : ascii) :
  one_byte c -> is_whitespace1 c = false ->
  trimEnd (s ++ String c "") = (s ++ String c "")%string.
Proof.
  intros Hbyte Hc. induction s as [|d s IH]; cbn [append trimEnd].
  - pose proof (trimStart_snoc_nonws "" c Hbyte Hc) as Hne. cbn [append] in Hne.
    now destruct (String.eqb_spec (trimStart (String c "")) "").
  - rewrite IH.
    pose proof (trimStart_snoc_nonws (String d s) c Hbyte Hc) as Hne.
    cbn [append] in Hne.
    now destruct (String.eqb_spec (trimStart (String d (s ++ String c ""))) "").
Qed.

(** ** The wallet file of the scanner *)

Lemma trim_carriage_return (l : string) :
  trim (l ++ String carriage_return "") = trim l.
Proof. now apply trim_snoc_ws. Qed.

Lemma split_CRLF (l : string) (ls : list string) :
  has_char line_feed l = false ->
  split (String.concat CRLF (l :: ls)) line_feed =
  match ls with
  | [] => [l]
  | _ => (l ++ String carriage_return "")%string
           :: split (String.concat CRLF ls) line_feed
  end.
Proof.
  intros Hl. destruct ls as [|l' ls]; [now apply split_without|].
  change (String.concat CRLF (l :: l' :: ls))
    with (l ++ CRLF ++ String.concat CRLF (l' :: ls))%string.
  unfold CRLF at 1. cbn [append].
  change (l ++ String carriage_return (String line_feed ?t))%string
    with (l ++ (String carriage_return "" ++ String line_feed t))%string.
  rewrite <- append_assoc. apply split_append.
  rewrite has_char_append, Hl. reflexivity.
Qed.

Lemma walletList_joined (ls : list string) :
  single_lines ls = true ->
  map trim (split (String.concat LF ls) line_feed) =
    match ls with [] => [""] | _ => map trim ls end /\
  map trim (split (String.concat CRLF ls) line_feed) =
    match ls with [] => [""] | _ => map trim ls end.
Proof.
  intros Hls. split.
  - destruct ls as [|l ls]; [reflexivity|].
    unfold LF. rewrite split_concat; [reflexivity|discriminate|exact Hls].
  - induction ls as [|l ls IH]; [reflexivity|].
    cbn [single_lines forallb] in Hls. apply andb_prop in Hls.
    destruct Hls as [Hl Hls]. apply negb_true_iff in Hl.
    rewrite split_CRLF by exact Hl.
    destruct ls as [|l' ls]; [reflexivity|].
    cbn [map]. rewrite trim_carriage_return. f_equal. apply (IH Hls).
Qed.

(** X10.  Reading the wallet file.  For a file made of lines joined by
    line feeds, or by carriage return and line feed, the wallet list holds
    the lines with the white space around them removed, without the lines
    that are empty then: blank lines, padding and a line end after the
    last line make no difference. *)
Theorem walletList_reads_lines (ls : list string) :
  single_lines ls = true ->
  let wanted := List.filter (fun line => negb (String.eqb line ""))
                            (map trim ls) in
  walletList (String.concat LF ls) = wanted /\
  walletList (String.concat CRLF ls) = wanted.
Proof.
  intros Hls wanted. subst wanted. unfold walletList.
  destruct (walletList_joined ls Hls) as [Hlf Hcrlf].
  change (ascii_of_nat 10) with line_feed.
  change (map (fun line => trim line)) with (map trim).
  rewrite Hlf, Hcrlf. destruct ls; split; reflexivity.
Qed.

Lemma walletList_reads_lines_witness :
  walletList (String.concat CRLF
                [(Examples.byte_order_mark ++ "  alice")%string; ""; "bob  ";
                 "   "; Examples.no_break_space; "carol"; ""])
  = ["alice"; "bob"; "carol"] /\
  walletList (String.concat LF
                [(Examples.byte_order_mark ++ "  alice")%string; ""; "bob  ";
                 "   "; Examples.no_break_space; "carol"; ""])
  = ["alice"; "bob"; "carol"].
Proof.
  destruct (walletList_reads_lines
              [(Examples.byte_order_mark ++ "  alice")%string; ""; "bob  "; "   ";
               Examples.no_break_space; "carol"; ""] eq_refl) as [Hlf Hcrlf].
  split; [exact Hcrlf|exact Hlf].
Defined.

(** X11.  Whatever the file holds, no entry of the wallet list is empty
    and none begins or ends with white space: trimming an entry again
    changes nothing. *)
Theorem walletList_entries_trimmed (data : string) :
  Forall (fun address => address <> "" /\ trim address = address)
         (walletList data).
Proof.
  unfold walletList. apply List.Forall_forall. intros w Hw.
  apply List.filter_In in Hw. destruct Hw as [Hin Hne].
  apply List.in_map_iff in Hin. destruct Hin as (l & <- & _).
  split; [|apply trim_idem].
  apply negb_true_iff, String.eqb_neq in Hne. exact Hne.
Qed.

(** ** The key file of the sweeper *)

Lemma endsWith_last (s : string) (c : ascii) :
  endsWith (s ++ String c "") (String c "") = true.
Proof.
  unfold endsWith. rewrite reverse_append.
  change (reverse (String c "")) with (String c "").
  cbn [append String.prefix].
  destruct (ascii_dec c c) as [_|Hne]; [|congruence].
  now destruct (reverse s).
Qed.

Lemma slice_inner (a s b : string) :
  (0 < String.length b)%nat ->
  slice (a ++ s ++ b) (Z.of_nat (String.length a))
        (- Z.of_nat (String.length b)) = s.
Proof.
  intros Hb. unfold slice. rewrite !length_append.
  match goal with
  | |- String.substring ?from ?len _ = _ =>
      replace from with (String.length a);
      [replace len with (String.length s)|]
  end.
  - rewrite substring_skip. apply substring_whole.
  - destruct (Z.ltb_spec (Z.of_nat (String.length a)) 0); [lia|].
    destruct (Z.ltb_spec (- Z.of_nat (String.length b)) 0); lia.
  - destruct (Z.ltb_spec (Z.of_nat (String.length a)) 0); lia.
Qed.

Lemma chomp_carriage_return (l : string) :
  chomp (l ++ String carriage_return "") = l.
Proof.
  unfold chomp. change (ascii_of_nat 13) with carriage_return.
  rewrite endsWith_last.
  apply (slice_inner "" l (String carriage_return "")). cbn. lia.
Qed.

Lemma split_lines_cons (piece : string) (pieces : list string) :
  pieces <> [] ->
  split_lines (piece :: pieces) = chomp piece :: split_lines pieces.
Proof. destruct pieces; [congruence|reflexivity]. Qed.

Lemma split_nonempty (s : string) (sep : ascii) : split s sep <> [].
Proof.
  pose proof (SweepFacts.length_split s sep). destruct (split s sep); cbn in *;
    [lia|discriminate].
Qed.

Lemma split_lines_CRLF (ls : list string) :
  single_lines ls = true -> ls <> [] ->
  split_lines (split (String.concat CRLF ls) line_feed) = ls.
Proof.
  induction ls as [|l ls IH]; [congruence|]. intros Hls _.
  cbn [single_lines forallb] in Hls. apply andb_prop in Hls.
  destruct Hls as [Hl Hls]. apply negb_true_iff in Hl.
  rewrite split_CRLF by exact Hl.
  destruct ls as [|l' ls]; [reflexivity|].
  rewrite split_lines_cons by apply split_nonempty.
  rewrite chomp_carriage_return. f_equal. apply IH; [exact Hls|discriminate].
Qed.

Lemma split_lines_plain (ls : list string) :
  forallb (fun l => negb (ends_with_carriage_return l)) ls = true ->
  split_lines ls = ls.
Proof.
  induction ls as [|l ls IH]; [reflexivity|]. intros Hls.
  cbn [forallb] in Hls. apply andb_prop in Hls. destruct Hls as [Hl Hls].
  destruct ls as [|l' ls]; [reflexivity|].
  rewrite split_lines_cons by discriminate. rewrite (IH Hls). f_equal.
  unfold chomp. apply negb_true_iff in Hl.
  unfold ends_with_carriage_return, carriage_return in Hl. now rewrite Hl.
Qed.

(** X12.  Reading the key file.  For a file made of lines joined by
    carriage return and line feed, [readPrivateKeys] returns the lines
    that are not blank, as they are (not trimmed) and in their order; so
    it does for lines joined by line feeds, when no line ends with a
    carriage return. *)
Theorem readPrivateKeys_reads_lines (ls : list string) :
  single_lines ls = true ->
  readPrivateKeys (String.concat CRLF ls)
  = List.filter (fun l => negb (blank l)) ls /\
  (forallb (fun l => negb (ends_with_carriage_return l)) ls = true ->
   readPrivateKeys (String.concat LF ls)
   = List.filter (fun l => negb (blank l)) ls).
Proof.
  intros Hls. unfold readPrivateKeys. change (ascii_of_nat 10) with line_feed.
  destruct ls as [|l ls]; [split; reflexivity|]. split.
  - rewrite split_lines_CRLF; [reflexivity|exact Hls|discriminate].
  - intros Hcr. unfold LF.
    rewrite split_concat; [|discriminate|exact Hls].
    rewrite split_lines_plain by exact Hcr. reflexivity.
Qed.

Lemma readPrivateKeys_reads_lines_witness :
  readPrivateKeys (String.concat CRLF
                     ["[1,2,3]"; ""; " abc "; "  "; Examples.no_break_space;
                      Examples.byte_order_mark; ""])
  = ["[1,2,3]"; " abc "] /\
  readPrivateKeys (String.concat LF
                     ["[1,2,3]"; ""; " abc "; "  "; Examples.no_break_space;
                      Examples.byte_order_mark; ""])
  = ["[1,2,3]"; " abc "].
Proof.
  destruct (readPrivateKeys_reads_lines
              ["[1,2,3]"; ""; " abc "; "  "; Examples.no_break_space;
               Examples.byte_order_mark; ""] eq_refl)
    as [Hcrlf Hlf].
  split; [exact Hcrlf|exact (Hlf eq_refl)].
Defined.

(** ** Masks *)

Lemma length_substring (s : string) :
  forall n m, (String.length (String.substring n m s) <= m)%nat.
Proof.
  induction s as [|c s IH]; intros [|n] [|m]; cbn; try lia.
  - specialize (IH 0%nat m). lia.
  - apply IH.
  - apply IH.
Qed.

(** X13.  [maskAddress] leaves an address of at most ten characters as it
    is; of a longer one it keeps the first five and the last five
    characters with three dots between them, whatever is in the middle.
    A masked address never has more than thirteen characters. *)
Theorem maskAddress_shape (address : string) :
  ((String.length address <= 10)%nat -> maskAddress address = address) /\
  (forall a m b : string,
     address = (a ++ m ++ b)%string ->
     String.length a = 5%nat -> String.length b = 5%nat -> m <> "" ->
     maskAddress address = (a ++ "..." ++ b)%string) /\
  (String.length (maskAddress address) <= 13)%nat.
Proof.
  unfold maskAddress. split; [|split].
  - intros Hlen. destruct (Z.leb_spec (Z.of_nat (String.length address)) 10);
      [reflexivity|lia].
  - intros a m b -> Ha Hb Hm.
    assert (Hlm : (0 < String.length m)%nat) by (destruct m; [congruence|cbn; lia]).
    destruct (Z.leb_spec (Z.of_nat (String.length (a ++ m ++ b))) 10) as [Hle|_].
    { rewrite !length_append in Hle. lia. }
    f_equal; [|f_equal].
    + unfold slice. change (0 <? 0) with false. change (5 <? 0) with false.
      cbv iota. rewrite !length_append, Ha, Hb.
      rewrite Z.min_l, Z.min_l by lia.
      change (Z.to_nat 0) with 0%nat. change (Z.to_nat (Z.max (5 - 0) 0)) with 5%nat.
      rewrite <- Ha. apply substring_whole.
    + unfold slice_from, slice. change (-5 <? 0) with true. cbv iota.
      rewrite <- append_assoc. rewrite (length_append (a ++ m) b), Hb.
      destruct (Z.ltb_spec (Z.of_nat (String.length (a ++ m) + 5)) 0); [lia|].
      match goal with
      | |- String.substring ?from ?len _ = _ =>
          replace from with (String.length (a ++ m)) by lia;
          replace len with 5%nat by lia
      end.
      rewrite substring_skip, <- Hb. apply substring_all.
  - destruct (Z.leb_spec (Z.of_nat (String.length address)) 10); [lia|].
    rewrite !length_append. cbn [String.length].
    unfold slice_from, slice. change (0 <? 0) with false.
    change (5 <? 0) with false. change (-5 <? 0) with true. cbv iota.
    destruct (Z.ltb_spec (Z.of_nat (String.length address)) 0); [lia|].
    match goal with
    | |- (String.length (String.substring ?n1 ?m1 _) +
          (3 + String.length (String.substring ?n2 ?m2 _)) <= _)%nat =>
        pose proof (length_substring address n1 m1);
        pose proof (length_substring address n2 m2);
        assert (m1 = 5%nat) by lia; assert (m2 = 5%nat) by lia
    end.
    lia.
Qed.

Lemma maskAddress_shape_witness :
  maskAddress "9xQeWvG816bUx9EPjHmaT23yvVM2ZWbrrpZb9PusVFin" = "9xQeW...sVFin".
Proof.
  destruct (maskAddress_shape "9xQeWvG816bUx9EPjHmaT23yvVM2ZWbrrpZb9PusVFin")
    as (_ & Hlong & _).
  apply (Hlong "9xQeW" "vG816bUx9EPjHmaT23yvVM2ZWbrrpZb9Pu" "sVFin");
    [reflexivity|reflexivity|reflexivity|discriminate].
Defined.

(** ** Keys written as byte arrays *)

Lemma byte_text (z : Z) :
  0 <= z < 256 ->
  has_char "," (string_of_Z z) = false /\
  ToUint8 (parseInt (trim (string_of_Z z))) = z.
Proof.
  intros Hz.
  assert (Hall : forallb (fun n =>
                   negb (has_char "," (string_of_Z (Z.of_nat n))) &&
                   (ToUint8 (parseInt (trim (string_of_Z (Z.of_nat n))))
                    =? Z.of_nat n)) (seq 0 256) = true)
    by (vm_compute; reflexivity).
  rewrite forallb_forall in Hall.
  assert (Hin : In (Z.to_nat z) (seq 0 256)) by (apply in_seq; lia).
  specialize (Hall _ Hin). rewrite Z2Nat.id in Hall by lia.
  apply andb_prop in Hall. destruct Hall as [Hcomma Hparse].
  apply negb_true_iff in Hcomma. split; [exact Hcomma|].
  now apply Z.eqb_eq in Hparse.
Qed.

Lemma startsWith_first (c : ascii) (s : string) :
  startsWith (String c s) (String c "") = true.
Proof.
  unfold startsWith. cbn. destruct (ascii_dec c c); [|congruence].
  now destruct s.
Qed.

(** X14.  A key written as the array of its bytes is read back: for a
    non-empty list of bytes (integers from 0 to 255), [parsePrivateKey]
    of its text ["[b1,b2,...]"] returns these bytes, without consulting
    the base-58 decoder.  The text ["[]"] is read as the single byte 0. *)
Theorem parsePrivateKey_reads_byte_array
    (bs58_decode : string -> result (list Z)) (bytes : list Z) :
  bytes <> [] ->
  bytes_in_range bytes = true ->
  parsePrivateKey bs58_decode (byte_array_text bytes) = Fulfilled bytes /\
  parsePrivateKey bs58_decode (byte_array_text []) = Fulfilled [0].
Proof.
  intros Hne Hrange. split; [|reflexivity].
  unfold parsePrivateKey, byte_array_text.
  set (body := String.concat "," (map string_of_Z bytes)).
  assert (Htrim : trim ("[" ++ body ++ "]") = ("[" ++ body ++ "]")%string).
  { unfold trim. rewrite trimStart_fixed.
    - change ("[" ++ body ++ "]")%string with (String "[" body ++ "]")%string.
      apply trimEnd_snoc_nonws; [apply Nat.ltb_lt; reflexivity|reflexivity].
    - cbn [append strip]. change (is_whitespace1 "[") with false. cbv iota.
      destruct (body ++ "]")%string as [|c2 [|c3 rest]]; reflexivity. }
  cbv zeta. rewrite Htrim.
  cbn [append]. rewrite startsWith_first.
  change (String "[" (body ++ "]"))%string with (String "[" body ++ "]")%string.
  rewrite endsWith_last. cbn [andb].
  change (String "[" body ++ "]")%string with ("[" ++ body ++ "]")%string.
  change (slice ("[" ++ body ++ "]") 1 (-1))
    with (slice ("[" ++ body ++ "]") (Z.of_nat (String.length "["))
                (- Z.of_nat (String.length "]"))).
  rewrite (slice_inner "[" body "]") by (cbn; lia).
  assert (Hbytes : forall b, In b bytes -> 0 <= b < 256).
  { intros b Hb. unfold bytes_in_range in Hrange.
    rewrite forallb_forall in Hrange. specialize (Hrange b Hb). lia. }
  subst body. rewrite split_concat.
  - f_equal. rewrite !map_map. rewrite <- (map_id bytes) at 2.
    apply map_ext_in. intros b Hb.
    destruct (byte_text b (Hbytes b Hb)) as [_ Hb']. exact Hb'.
  - destruct bytes; [congruence|discriminate].
  - rewrite forallb_forall. intros t Ht. apply in_map_iff in Ht.
    destruct Ht as (b & <- & Hb).
    destruct (byte_text b (Hbytes b Hb)) as [-> _]. reflexivity.
Qed.

Lemma parsePrivateKey_reads_byte_array_witness :
  parsePrivateKey Examples.bs58_decode "[174,47,0,255,9]"
  = Fulfilled [174; 47; 0; 255; 9].
Proof.
  destruct (parsePrivateKey_reads_byte_array Examples.bs58_decode
              [174; 47; 0; 255; 9]) as [Hread _];
    [discriminate|reflexivity|exact Hread].
Defined.

End TextFacts.

(** * More on the sweep *)

Module SweepMore.
Import SolanaCollector Vocabulary SweepFacts.
Local Open Scope run_scope.

Lemma count_app (p : event -> bool) (l1 l2 : list event) :
  count p (l1 ++ l2) = (count p l1 + count p l2)%nat.
Proof. unfold count. now rewrite List.filter_app, length_app. Qed.

Lemma count_cons (p : event -> bool) (e : event) (l : list event) :
  count p (e :: l) = ((if p e then 1 else 0) + count p l)%nat.
Proof. unfold count. cbn. destruct (p e); reflexivity. Qed.

Lemma count_nil (p : event -> bool) : count p [] = 0%nat.
Proof. reflexivity. Qed.

(** A state reached from [s] by adding events, [actionCount] having
    grown by the number of completed transfers among them. *)
Lemma state_extends (s : state) (l : list event) (n : Z) (evs : list event) :
  l = done s ++ evs ->
  n = actionCount s + Z.of_nat (count is_Sent evs) ->
  State l n = State (done s ++ evs) (actionCount s + Z.of_nat (count is_Sent evs)).
Proof. now intros -> ->. Qed.

Section SweepRounds.
Variable config : settings.
Variable bs58_decode : string -> result (list Z).
Variable Keypair_fromSecretKey : list Z -> result Keypair.
Variable SystemProgram_transfer : TransferIntent -> result unit.
Variable connection : node.

Lemma confirm_run (signature : string) (timeoutSeconds : Z) (s : state) :
  confirmTransactionWithTimeout connection signature timeoutSeconds s =
  (match answers_confirmTransaction connection
           (calls (confirmTransaction signature) s) with
   | operation_settles (Fulfilled _) :: _ => normal tt
   | operation_settles (Rejected err) :: _ => thrown err
   | _ => thrown (not_confirmed timeoutSeconds)
   end,
   State (done s ++ [setTimeout (timeoutSeconds * 1000);
                     rpc (confirmTransaction signature)])
         (actionCount s)).
Proof.
  unfold confirmTransactionWithTimeout. rewrite !run_emit_then.
  cbn [actionCount done]. rewrite <- app_assoc. cbn [app].
  unfold confirmTransactionWithTimeout_state.
  destruct (answers_confirmTransaction connection _) as [|[|[v|e]] later];
    cbn [app fold_left]; [reflexivity| | |];
    rewrite fold_react_settled by (cbn; congruence); try reflexivity.
  destruct v. reflexivity.
Qed.

Ltac settle_round s :=
  eexists; split;
  [f_equal; apply (state_extends s);
   cbn [done actionCount]; rewrite <- ?app_assoc; cbn [app];
   [reflexivity|cbn; lia]
  |split; [repeat constructor; cbn; auto
          |split; [cbn; lia|split; [cbn; lia|split; [cbn; lia|reflexivity]]]]].

Ltac settle_catch s :=
  cbv beta iota;
  match goal with
  | |- context [transfer_catch _ ?i ?e ?s'] =>
      let reqs := fresh "requests" in
      let logs := fresh "logs" in
      let Hrun := fresh "Hrun" in
      let Hreqs := fresh "Hreqs" in
      destruct (transfer_catch_run connection i e s')
        as (reqs & logs & Hrun & Hreqs);
      rewrite Hrun;
      destruct Hreqs as [[-> ->]|(? & -> & _)];
      settle_round s
  end.

(** A round whose key was parsed: the second [try] with its [catch]. *)
Lemma round_run (i : nat) (senderKeypair recipientKeypair : Keypair) (s : state) :
  exists evs,
    try_catch (transfer_try config SystemProgram_transfer connection i
                            senderKeypair recipientKeypair)
              (transfer_catch connection i) s
    = (normal tt,
       State (done s ++ evs) (actionCount s + Z.of_nat (count is_Sent evs))) /\
    Forall (of_round (publicKey recipientKeypair) [publicKey senderKeypair]) evs /\
    (count is_Sent evs <= count is_submission evs)%nat /\
    (count is_submission evs <= 1)%nat /\
    (count is_node_request evs <= 5)%nat /\
    List.filter is_round_start evs = [].
Proof.
  unfold try_catch, transfer_try. rewrite remote_then.
  destruct (answers_getBalance connection _) as [B|e].
  2:{ settle_catch s. }
  rewrite remote_then.
  destruct (answers_getMinimumBalanceForRentExemption connection _) as [R|e].
  2:{ settle_catch s. }
  rewrite run_emit_then. cbn [done actionCount].
  destruct (_ <=? _)%number.
  { unfold emit. cbn [done actionCount]. settle_round s. }
  rewrite run_emit_then. rewrite bind_run. unfold call at 1.
  destruct (SystemProgram_transfer _).
  2:{ settle_catch s. }
  rewrite remote_then.
  destruct (answers_sendTransaction connection _) as [signature|e].
  2:{ settle_catch s. }
  rewrite bind_run, confirm_run. cbn [done actionCount].
  destruct (answers_confirmTransaction connection _) as [|[|[v|e]] later];
    try (settle_catch s).
  unfold bind, emit. cbn [done actionCount].
  settle_round s.
Qed.

(** The first [try] of a round. *)
Lemma sender_of_run (i : nat) (line : string) (s : state) :
  sender_of bs58_decode Keypair_fromSecretKey i line s =
  match keypair_of bs58_decode Keypair_fromSecretKey line with
  | Fulfilled senderKeypair =>
      (normal (Some senderKeypair),
       State (done s ++ [console_log (Processing_Wallet i
                           (maskAddress (publicKey senderKeypair)))])
             (actionCount s))
  | Rejected _ =>
      (normal None,
       State (done s ++ [errorLogger_error (Invalid_private_key_format i);
                         console_error (Invalid_private_key_format_check_log i)])
             (actionCount s))
  end.
Proof.
  unfold sender_of, keypair_of, try_catch, bind, call.
  destruct (parsePrivateKey bs58_decode line) as [secretKey|e];
    [destruct (Keypair_fromSecretKey secretKey) as [senderKeypair|e]|];
    cbn; rewrite <- ?app_assoc; reflexivity.
Qed.

Lemma of_round_more (recipient : string) (senders senders' : list string)
      (e : event) :
  (forall x, In x senders -> In x senders') ->
  of_round recipient senders e -> of_round recipient senders' e.
Proof.
  intros Hsub [Hdir Hcalm]. split; [|exact Hcalm].
  destruct e as [l|l|l|l|c|t|ms|code]; cbn in *; try tauto.
  - destruct c; cbn in *; intuition.
  - intuition.
Qed.

Lemma senders_of_cons (line : string) (lines : list string) :
  senders_of bs58_decode Keypair_fromSecretKey (line :: lines) =
  match keypair_of bs58_decode Keypair_fromSecretKey line with
  | Fulfilled keypair =>
      publicKey keypair :: senders_of bs58_decode Keypair_fromSecretKey lines
  | Rejected _ => senders_of bs58_decode Keypair_fromSecretKey lines
  end.
Proof.
  unfold senders_of. simpl.
  destruct (keypair_of bs58_decode Keypair_fromSecretKey line); reflexivity.
Qed.

Lemma iteration_run (recipientKeypair : Keypair) (i : nat) (line : string)
      (s : state) :
  exists evs,
    iteration config bs58_decode Keypair_fromSecretKey SystemProgram_transfer
              connection recipientKeypair i line s
    = (normal tt,
       State (done s ++ evs) (actionCount s + Z.of_nat (count is_Sent evs))) /\
    Forall (of_round (publicKey recipientKeypair)
                     (senders_of bs58_decode Keypair_fromSecretKey [line])) evs /\
    (count is_Sent evs <= count is_submission evs)%nat /\
    (count is_submission evs <= 1)%nat /\
    (count is_node_request evs <= 5)%nat /\
    List.filter is_round_start evs
    = [round_start bs58_decode Keypair_fromSecretKey i line].
Proof.
  unfold iteration. rewrite bind_run, sender_of_run.
  assert (Hsenders : senders_of bs58_decode Keypair_fromSecretKey [line] =
                     match keypair_of bs58_decode Keypair_fromSecretKey line with
                     | Fulfilled keypair => [publicKey keypair]
                     | Rejected _ => []
                     end).
  { rewrite senders_of_cons.
    now destruct (keypair_of bs58_decode Keypair_fromSecretKey line). }
  rewrite Hsenders. clear Hsenders. unfold round_start.
  destruct (keypair_of bs58_decode Keypair_fromSecretKey line)
    as [senderKeypair|e].
  - destruct (round_run i senderKeypair recipientKeypair
                (State (done s ++ [console_log (Processing_Wallet i
                                     (maskAddress (publicKey senderKeypair)))])
                       (actionCount s)))
      as (evs & Hrun & Hall & Hsent & Hsub & Hrpc & Hstart).
    rewrite Hrun. cbn [done actionCount].
    exists (console_log (Processing_Wallet i
                           (maskAddress (publicKey senderKeypair))) :: evs).
    split; [|split; [|split; [exact Hsent|split; [exact Hsub|split;
                                                    [exact Hrpc|]]]]].
    + f_equal. rewrite <- app_assoc. reflexivity.
    + constructor; [split; exact I|exact Hall].
    + cbn [List.filter is_round_start]. now rewrite Hstart.
  - unfold ret. settle_round s.
Qed.

Lemma sweep_run (recipientKeypair : Keypair) (lines : list string) :
  forall (i : nat) (s : state),
  exists evs,
    sweep config bs58_decode Keypair_fromSecretKey SystemProgram_transfer
          connection recipientKeypair i lines s
    = (normal tt,
       State (done s ++ evs) (actionCount s + Z.of_nat (count is_Sent evs))) /\
    Forall (of_round (publicKey recipientKeypair)
                     (senders_of bs58_decode Keypair_fromSecretKey lines)) evs /\
    (count is_Sent evs <= count is_submission evs)%nat /\
    (count is_submission evs <= length lines)%nat /\
    (count is_node_request evs <= 5 * length lines)%nat /\
    List.filter is_round_start evs
    = imap (fun k line =>
              round_start bs58_decode Keypair_fromSecretKey (i + k) line) lines.
Proof.
  induction lines as [|line lines IH]; intros i s; cbn [sweep].
  - exists []. unfold ret. cbn.
    rewrite app_nil_r, Z.add_0_r. destruct s. repeat split; try constructor; lia.
  - rewrite bind_run.
    destruct (iteration_run recipientKeypair i line s)
      as (evs1 & -> & Hall1 & Hsent1 & Hsub1 & Hrpc1 & Hstart1).
    destruct (IH (S i) (State (done s ++ evs1)
                              (actionCount s + Z.of_nat (count is_Sent evs1))))
      as (evs2 & -> & Hall2 & Hsent2 & Hsub2 & Hrpc2 & Hstart2).
    exists (evs1 ++ evs2). cbn [done actionCount].
    rewrite !count_app.
    split; [|split; [|split; [lia|split; [cbn [length]; lia|split;
                                             [cbn [length]; lia|]]]]].
    3:{ rewrite List.filter_app, Hstart1, Hstart2. cbn [imap app].
        rewrite Nat.add_0_r. f_equal. apply imap_ext. intros k x _. cbn.
        f_equal. lia. }
    + f_equal. rewrite app_assoc. f_equal. lia.
    + apply Forall_app. split.
      * eapply List.Forall_impl; [|exact Hall1]. intros e. apply of_round_more.
        intros x. rewrite !senders_of_cons. cbn.
        destruct (keypair_of bs58_decode Keypair_fromSecretKey line); cbn; tauto.
      * eapply List.Forall_impl; [|exact Hall2]. intros e. apply of_round_more.
        intros x. rewrite senders_of_cons.
        destruct (keypair_of bs58_decode Keypair_fromSecretKey line); cbn; tauto.
Qed.

(** The program as a whole: the general error when the client cannot be
    built or the key file cannot be read, the two early exits, or the
    rounds followed by the closing line. *)
Lemma main_run (new_Connection : result unit) (fs_readFileSync : result string)
      (s : state) :
  main config bs58_decode Keypair_fromSecretKey SystemProgram_transfer
       connection new_Connection fs_readFileSync s =
  let reported (err : error) :=
    (normal tt,
     State (done s ++ [errorLogger_error (General_error (message err));
                       console_error An_error_occurred])
           (actionCount s)) in
  match new_Connection with
  | Rejected err => reported err
  | Fulfilled _ =>
      match fs_readFileSync with
      | Rejected err => reported err
      | Fulfilled data =>
          let privateKeys := readPrivateKeys data in
          if Z.of_nat (length privateKeys) <? 2 then
            (exited 1,
             State (done s ++ [console_error At_least_two_wallets_are_required;
                               process_exit 1])
                   (actionCount s))
          else
            match keypair_of bs58_decode Keypair_fromSecretKey
                             (default "" (privateKeys !! 0%nat)) with
            | Rejected err =>
                (exited 1,
                 State (done s ++
                        [errorLogger_error
                           (Recipient_key_parsing_error (message err));
                         console_error Failed_to_parse_the_recipient_private_key;
                         process_exit 1])
                       (actionCount s))
            | Fulfilled recipientKeypair =>
                let final :=
                  snd (sweep config bs58_decode Keypair_fromSecretKey
                             SystemProgram_transfer connection recipientKeypair 1
                             (skipn 1 privateKeys)
                             (State (done s ++
                                     [console_log (Recipient_Wallet
                                        (maskAddress (publicKey recipientKeypair)))])
                                    (actionCount s))) in
                (normal tt,
                 State (done final ++ [console_log (Finished (actionCount final))])
                       (actionCount final))
            end
      end
  end.
Proof.
  unfold main, try_catch at 1. rewrite bind_run. unfold call at 1.
  destruct new_Connection as [[]|err].
  2:{ cbn. unfold emit. cbn. rewrite <- ?app_assoc. reflexivity. }
  rewrite bind_run. unfold call at 1.
  destruct fs_readFileSync as [data|err].
  2:{ cbn. unfold emit. cbn. rewrite <- ?app_assoc. reflexivity. }
  cbv zeta.
  destruct (Z.of_nat (length (readPrivateKeys data)) <? 2).
  { cbn. rewrite <- ?app_assoc. reflexivity. }
  rewrite bind_run. unfold try_catch at 1, keypair_of.
  rewrite bind_run. unfold call at 1.
  destruct (parsePrivateKey bs58_decode
              (default "" (readPrivateKeys data !! 0%nat)))
    as [secretKey|err].
  2:{ cbn. rewrite <- !app_assoc. reflexivity. }
  rewrite bind_run. unfold call at 1.
  destruct (Keypair_fromSecretKey secretKey) as [recipientKeypair|err].
  2:{ cbn. rewrite <- !app_assoc. reflexivity. }
  rewrite run_emit_then. unfold ret at 1. cbv beta iota. rewrite bind_run.
  destruct (sweep_run recipientKeypair (skipn 1 (readPrivateKeys data)) 1%nat
              (State (done s ++ [console_log (Recipient_Wallet
                                   (maskAddress (publicKey recipientKeypair)))])
                     (actionCount s))) as (evs & -> & _).
  reflexivity.
Qed.

End SweepRounds.

(** ** The sweep as a whole *)


Lemma of_round_directed (recipient : string) (senders : list string)
      (evs : list event) :
  Forall (of_round recipient senders) evs ->
  Forall (directed recipient senders) evs.
Proof. apply List.Forall_impl. intros e [Hdir _]. exact Hdir. Qed.



(** X16.  What [actionCount] counts.  At the end of every run
    [actionCount] is the number of completed-transfer lines written to
    the transaction log.  There are at most as many of them as
    transactions were submitted, at most one transaction is submitted per
    line of the key file after the first, and at most five calls of
    methods of [connection] are made per such line. *)
Theorem actionCount_counts_completed_transfers (config : settings)
    (bs58_decode : string -> result (list Z))
    (Keypair_fromSecretKey : list Z -> result Keypair)
    (SystemProgram_transfer : TransferIntent -> result unit) (connection : node)
    (new_Connection : result unit) (fs_readFileSync : result string) :
  let final := snd (main config bs58_decode Keypair_fromSecretKey
                         SystemProgram_transfer connection
                         new_Connection fs_readFileSync start) in
  let privateKeys := keys_read fs_readFileSync in
  actionCount final = Z.of_nat (count is_Sent (done final)) /\
  (count is_Sent (done final) <= count is_submission (done final))%nat /\
  (count is_submission (done final) <= length privateKeys - 1)%nat /\
  (count is_node_request (done final) <= 5 * (length privateKeys - 1))%nat.
Proof.
  cbv zeta. rewrite main_run. cbv zeta.
  destruct new_Connection as [[]|err]; [|cbn; lia].
  destruct fs_readFileSync as [data|err]; [|cbn; lia].
  cbn [keys_read].
  destruct (Z.of_nat (length (readPrivateKeys data)) <? 2); [cbn; lia|].
  destruct (keypair_of bs58_decode Keypair_fromSecretKey _)
    as [recipientKeypair|err]; [|cbn; lia].
  destruct (sweep_run config bs58_decode Keypair_fromSecretKey
              SystemProgram_transfer connection recipientKeypair
              (skipn 1 (readPrivateKeys data)) 1%nat
              (State (done start ++
                      [console_log (Recipient_Wallet
                         (maskAddress (publicKey recipientKeypair)))])
                     (actionCount start)))
    as (evs & -> & _ & Hsent & Hsub & Hrpc).
  cbn [snd done actionCount start app].
  rewrite length_skipn in Hsub, Hrpc.
  rewrite !count_cons, !count_app, !count_cons, !count_nil.
  cbn [is_Sent is_submission is_node_request]. lia.
Qed.

(** X17.  Where the funds go.  In every run, a transfer is built or
    submitted only towards the public key of the first line of the key
    file, from the public key of a later line that could be read, and
    signed by that sender; balances are asked only for such senders.  When
    the first line cannot be read, or there are fewer than two lines, no
    call of a method of [connection] is made at all. *)
Theorem transfers_go_to_first_key (config : settings)
    (bs58_decode : string -> result (list Z))
    (Keypair_fromSecretKey : list Z -> result Keypair)
    (SystemProgram_transfer : TransferIntent -> result unit) (connection : node)
    (new_Connection : result unit) (fs_readFileSync : result string) :
  let final := snd (main config bs58_decode Keypair_fromSecretKey
                         SystemProgram_transfer connection
                         new_Connection fs_readFileSync start) in
  let privateKeys := keys_read fs_readFileSync in
  let first := keypair_of bs58_decode Keypair_fromSecretKey
                          (default "" (privateKeys !! 0%nat)) in
  (forall recipientKeypair,
     first = Fulfilled recipientKeypair ->
     Forall (directed (publicKey recipientKeypair)
                      (senders_of bs58_decode Keypair_fromSecretKey
                                  (skipn 1 privateKeys)))
            (done final)) /\
  ((length privateKeys < 2)%nat \/ (exists err, first = Rejected err) ->
   count is_node_request (done final) = 0%nat).
Proof.
  cbv zeta. rewrite main_run. cbv zeta.
  destruct new_Connection as [[]|err0];
    [|split; intros; [repeat constructor|reflexivity]].
  destruct fs_readFileSync as [data|err0];
    [|split; intros; [repeat constructor|reflexivity]].
  cbn [keys_read]. split.
  - intros recipientKeypair Hfirst.
    destruct (Z.of_nat (length (readPrivateKeys data)) <? 2);
      [repeat constructor|].
    rewrite Hfirst.
    destruct (sweep_run config bs58_decode Keypair_fromSecretKey
                SystemProgram_transfer connection recipientKeypair
                (skipn 1 (readPrivateKeys data)) 1%nat
                (State (done start ++
                        [console_log (Recipient_Wallet
                           (maskAddress (publicKey recipientKeypair)))])
                       (actionCount start))) as (evs & -> & Hall & _).
    cbn [snd done start app]. constructor; [exact I|].
    apply Forall_app. split; [eapply of_round_directed, Hall|].
    repeat constructor.
  - intros Hnone.
    destruct (Z.ltb_spec (Z.of_nat (length (readPrivateKeys data))) 2);
      [reflexivity|].
    destruct Hnone as [Hlen|[err ->]]; [lia|reflexivity].
Qed.

Lemma transfers_go_to_first_key_witness :
  Forall (directed "Key1PublicKey1" ["Key2PublicKey2"])
         (done (snd (main Examples.default_settings Examples.bs58_decode
                          Examples.Keypair_fromSecretKey Examples.accept_transfer
                          Examples.healthy_node (Fulfilled tt)
                          (Fulfilled (Examples.key_file [1; 2])) start))).
Proof.
  destruct (transfers_go_to_first_key Examples.default_settings
              Examples.bs58_decode Examples.Keypair_fromSecretKey
              Examples.accept_transfer Examples.healthy_node (Fulfilled tt)
              (Fulfilled (Examples.key_file [1; 2])))
    as [Hdirected _].
  exact (Hdirected (MkKeypair "Key1PublicKey1" (1 :: repeat 0 63)) eq_refl).
Defined.

(** X21.  Every line gets its round.  When the client is built, the key
    file is read, there are at least two lines and the first one can be
    read, the rounds that are begun are exactly those of the lines after
    the first, one per line, in the order of the file and numbered by
    the position of the line: each begins by announcing the wallet, or by
    logging that the key cannot be read.  Nothing that happens in a round
    keeps a later line from its round. *)
Theorem sweep_visits_every_line (config : settings)
    (bs58_decode : string -> result (list Z))
    (Keypair_fromSecretKey : list Z -> result Keypair)
    (SystemProgram_transfer : TransferIntent -> result unit) (connection : node)
    (data : string) (recipientKeypair : Keypair) :
  let privateKeys := readPrivateKeys data in
  (2 <= length privateKeys)%nat ->
  keypair_of bs58_decode Keypair_fromSecretKey
             (default "" (privateKeys !! 0%nat)) = Fulfilled recipientKeypair ->
  List.filter is_round_start
    (done (snd (main config bs58_decode Keypair_fromSecretKey
                     SystemProgram_transfer connection
                     (Fulfilled tt) (Fulfilled data) start)))
  = imap (fun k line =>
            round_start bs58_decode Keypair_fromSecretKey (S k) line)
         (skipn 1 privateKeys).
Proof.
  intros privateKeys Hlen Hfirst. subst privateKeys. rewrite main_run. cbv zeta.
  destruct (Z.ltb_spec (Z.of_nat (length (readPrivateKeys data))) 2); [lia|].
  rewrite Hfirst.
  destruct (sweep_run config bs58_decode Keypair_fromSecretKey
              SystemProgram_transfer connection recipientKeypair
              (skipn 1 (readPrivateKeys data)) 1%nat
              (State (done start ++
                      [console_log (Recipient_Wallet
                         (maskAddress (publicKey recipientKeypair)))])
                     (actionCount start)))
    as (evs & -> & _ & _ & _ & _ & Hstart).
  cbn [snd done start app List.filter is_round_start].
  rewrite List.filter_app, Hstart. cbn [List.filter is_round_start].
  apply app_nil_r.
Qed.

Lemma sweep_visits_every_line_witness :
  List.filter is_round_start
    (done (snd (main Examples.default_settings Examples.bs58_decode
                     Examples.Keypair_fromSecretKey Examples.accept_transfer
                     Examples.stalling_node (Fulfilled tt)
                     (Fulfilled (String.concat LF
                        [Examples.key_line 1; Examples.key_line 2; "[1,2,3]";
                         Examples.key_line 4])) start)))
  = [console_log (Processing_Wallet 1 "Key2P...cKey2");
     errorLogger_error (Invalid_private_key_format 2);
     console_log (Processing_Wallet 3 "Key4P...cKey4")].
Proof.
  refine (sweep_visits_every_line Examples.default_settings Examples.bs58_decode
            Examples.Keypair_fromSecretKey Examples.accept_transfer
            Examples.stalling_node
            (String.concat LF
               [Examples.key_line 1; Examples.key_line 2; "[1,2,3]";
                Examples.key_line 4])
            (MkKeypair "Key1PublicKey1" (1 :: repeat 0 63)) _ eq_refl).
  vm_compute. lia.
Defined.

(** ** A round that submits a transfer *)

Section SweepPaths.
Variable config : settings.
Variable bs58_decode : string -> result (list Z).
Variable Keypair_fromSecretKey : list Z -> result Keypair.
Variable SystemProgram_transfer : TransferIntent -> result unit.
Variable connection : node.

(** A round up to the moment the sweeper waits for the confirmation. *)
Lemma round_submitted (recipientKeypair senderKeypair : Keypair) (i : nat)
      (line : string) (s : state) (B R : Z) (signature : string) :
  keypair_of bs58_decode Keypair_fromSecretKey line = Fulfilled senderKeypair ->
  answers_getBalance connection
    (calls (getBalance (publicKey senderKeypair)) s) = Fulfilled B ->
  answers_getMinimumBalanceForRentExemption connection
    (calls (getMinimumBalanceForRentExemption 0) s) = Fulfilled R ->
  let amountToSend :=
    (Number B - Number R - fee_in_force config * LAMPORTS_PER_SOL)%number in
  let transaction :=
    Transfer (publicKey senderKeypair) (publicKey recipientKeypair) amountToSend in
  (amountToSend <=? Number 0)%number = false ->
  SystemProgram_transfer transaction = Fulfilled tt ->
  answers_sendTransaction connection
    (calls (sendTransaction transaction (publicKey senderKeypair)) s)
  = Fulfilled signature ->
  let waiting :=
    State (done s ++
           [console_log (Processing_Wallet i
                           (maskAddress (publicKey senderKeypair)));
            rpc (getBalance (publicKey senderKeypair));
            rpc (getMinimumBalanceForRentExemption 0);
            console_log (Wallet_Balance i (Number B / LAMPORTS_PER_SOL)%number);
            new_Transaction transaction;
            rpc (sendTransaction transaction (publicKey senderKeypair));
            setTimeout (CONFIRMATION_TIMEOUT_SECONDS config * 1000);
            rpc (confirmTransaction signature)])
          (actionCount s) in
  iteration config bs58_decode Keypair_fromSecretKey SystemProgram_transfer
            connection recipientKeypair i line s =
  match answers_confirmTransaction connection
          (calls (confirmTransaction signature) s) with
  | operation_settles (Fulfilled _) :: _ =>
      (normal tt,
       State (done waiting ++
              [transactionLogger_info
                 (Sent (amountToSend / LAMPORTS_PER_SOL)%number
                       (maskAddress (publicKey senderKeypair))
                       (maskAddress (publicKey recipientKeypair)) signature);
               console_log (Actions_completed (actionCount s + 1))])
             (actionCount s + 1))
  | operation_settles (Rejected err) :: _ =>
      transfer_catch connection i err waiting
  | _ =>
      transfer_catch connection i
        (not_confirmed (CONFIRMATION_TIMEOUT_SECONDS config)) waiting
  end.
Proof.
  rewrite fee_in_force_eq.
  intros Hkey HB HR amountToSend transaction Hpos Hbuilt Hsend waiting.
  unfold iteration. rewrite bind_run, sender_of_run, Hkey.
  unfold try_catch, transfer_try. rewrite remote_then.
  rewrite calls_snoc, calls_done. cbn [same_method].
  rewrite Nat.add_0_r, HB.
  rewrite remote_then. cbn [done actionCount].
  rewrite !calls_snoc, calls_done. cbn [same_method].
  rewrite !Nat.add_0_r, HR. rewrite run_emit_then.
  fold amountToSend. rewrite Hpos. fold transaction. rewrite run_emit_then.
  rewrite bind_run. unfold call at 1. rewrite Hbuilt. rewrite remote_then.
  cbn [done actionCount]. rewrite !calls_snoc, calls_done. cbn [same_method].
  rewrite !Nat.add_0_r, Hsend.
  rewrite bind_run, confirm_run.
  cbn [done actionCount]. rewrite !calls_snoc, calls_done. cbn [same_method].
  rewrite !Nat.add_0_r.
  subst waiting. rewrite <- !app_assoc. cbn [app].
  destruct (answers_confirmTransaction connection _) as [|[|[v|e]] later];
    try reflexivity.
  unfold bind, emit. cbn [done actionCount]. rewrite <- !app_assoc. reflexivity.
Qed.
End SweepPaths.

(** X18.  A round that completes a transfer.  The key of the line is
    read, the node reports the balance [B] and the reserve [R], the
    amount [B - R - fee * LAMPORTS_PER_SOL] computed in doubles is not
    [<= 0], the library builds the transaction, the node accepts it and
    the confirmation arrives before the deadline.  Then the round asks
    for balance and reserve, prints the balance, builds and submits the
    transfer of that amount from the sender to the recipient, signed by the sender, sets the timer and asks for the
    confirmation, logs the completed transfer, and adds one to
    [actionCount], which it prints. *)
Theorem round_completes_transfer (config : settings)
    (bs58_decode : string -> result (list Z))
    (Keypair_fromSecretKey : list Z -> result Keypair)
    (SystemProgram_transfer : TransferIntent -> result unit) (connection : node)
    (recipientKeypair senderKeypair : Keypair) (i : nat)
    (line : string) (s : state) (B R : Z) (signature : string)
    (later : list (happening unit)) :
  keypair_of bs58_decode Keypair_fromSecretKey line = Fulfilled senderKeypair ->
  answers_getBalance connection
    (calls (getBalance (publicKey senderKeypair)) s) = Fulfilled B ->
  answers_getMinimumBalanceForRentExemption connection
    (calls (getMinimumBalanceForRentExemption 0) s) = Fulfilled R ->
  let amountToSend :=
    (Number B - Number R - fee_in_force config * LAMPORTS_PER_SOL)%number in
  let transaction :=
    Transfer (publicKey senderKeypair) (publicKey recipientKeypair) amountToSend in
  (amountToSend <=? Number 0)%number = false ->
  SystemProgram_transfer transaction = Fulfilled tt ->
  answers_sendTransaction connection
    (calls (sendTransaction transaction (publicKey senderKeypair)) s)
  = Fulfilled signature ->
  answers_confirmTransaction connection (calls (confirmTransaction signature) s)
  = operation_settles (Fulfilled tt) :: later ->
  iteration config bs58_decode Keypair_fromSecretKey SystemProgram_transfer
            connection recipientKeypair i line s =
  (normal tt,
   State (done s ++
          [console_log (Processing_Wallet i
                          (maskAddress (publicKey senderKeypair)));
           rpc (getBalance (publicKey senderKeypair));
           rpc (getMinimumBalanceForRentExemption 0);
           console_log (Wallet_Balance i (Number B / LAMPORTS_PER_SOL)%number);
           new_Transaction transaction;
           rpc (sendTransaction transaction (publicKey senderKeypair));
           setTimeout (CONFIRMATION_TIMEOUT_SECONDS config * 1000);
           rpc (confirmTransaction signature);
           transactionLogger_info
             (Sent (amountToSend / LAMPORTS_PER_SOL)%number
                   (maskAddress (publicKey senderKeypair))
                   (maskAddress (publicKey recipientKeypair)) signature);
           console_log (Actions_completed (actionCount s + 1))])
         (actionCount s + 1)).
Proof.
  intros Hkey HB HR amountToSend transaction Hpos Hbuilt Hsend Hconfirm.
  rewrite (round_submitted config bs58_decode Keypair_fromSecretKey
             SystemProgram_transfer connection recipientKeypair senderKeypair
             i line s B R signature Hkey HB HR Hpos Hbuilt Hsend).
  rewrite Hconfirm. cbn [done]. rewrite <- app_assoc. reflexivity.
Qed.

Lemma round_completes_transfer_witness :
  iteration Examples.default_settings Examples.bs58_decode
            Examples.Keypair_fromSecretKey Examples.accept_transfer
            Examples.healthy_node
            (MkKeypair "Key1PublicKey1" (1 :: repeat 0 63)) 1
            (Examples.key_line 2) start =
  (normal tt,
   State [console_log (Processing_Wallet 1 "Key2P...cKey2");
          rpc (getBalance "Key2PublicKey2");
          rpc (getMinimumBalanceForRentExemption 0);
          console_log (Wallet_Balance 1 (Number 5000000 / LAMPORTS_PER_SOL)%number);
          new_Transaction
            (Transfer "Key2PublicKey2" "Key1PublicKey1"
               (Number 5000000 - Number 890880
                - fee_in_force Examples.default_settings * LAMPORTS_PER_SOL)%number);
          rpc (sendTransaction
                 (Transfer "Key2PublicKey2" "Key1PublicKey1"
                    (Number 5000000 - Number 890880
                     - fee_in_force Examples.default_settings
                       * LAMPORTS_PER_SOL)%number)
                 "Key2PublicKey2");
          setTimeout 60000;
          rpc (confirmTransaction "signature1");
          transactionLogger_info
            (Sent ((Number 5000000 - Number 890880
                    - fee_in_force Examples.default_settings
                      * LAMPORTS_PER_SOL) / LAMPORTS_PER_SOL)%number
                  "Key2P...cKey2" "Key1P...cKey1" "signature1");
          console_log (Actions_completed 1)]
         1).
Proof.
  refine (round_completes_transfer Examples.default_settings
            Examples.bs58_decode Examples.Keypair_fromSecretKey
            Examples.accept_transfer Examples.healthy_node
            (MkKeypair "Key1PublicKey1" (1 :: repeat 0 63))
            (MkKeypair "Key2PublicKey2" (2 :: repeat 0 63))
            1 (Examples.key_line 2) start 5000000 890880 "signature1" []
            eq_refl eq_refl eq_refl _ eq_refl eq_refl eq_refl).
  vm_compute. reflexivity.
Defined.

(** X19.  A transfer that is not confirmed.  When the transaction was
    submitted and the confirmation does not arrive before the deadline,
    the round ends normally all the same: it writes the transfer error
    "Transaction was not confirmed in N seconds." with no logs, does not
    log a completed transfer and leaves [actionCount] as it was, although
    the transaction has been submitted.  So it does when the confirmation
    fails with an ordinary error, whose message it writes. *)
Theorem round_unconfirmed_transfer (config : settings)
    (bs58_decode : string -> result (list Z))
    (Keypair_fromSecretKey : list Z -> result Keypair)
    (SystemProgram_transfer : TransferIntent -> result unit) (connection : node)
    (recipientKeypair senderKeypair : Keypair) (i : nat)
    (line : string) (s : state) (B R : Z) (signature : string) :
  keypair_of bs58_decode Keypair_fromSecretKey line = Fulfilled senderKeypair ->
  answers_getBalance connection
    (calls (getBalance (publicKey senderKeypair)) s) = Fulfilled B ->
  answers_getMinimumBalanceForRentExemption connection
    (calls (getMinimumBalanceForRentExemption 0) s) = Fulfilled R ->
  let amountToSend :=
    (Number B - Number R - fee_in_force config * LAMPORTS_PER_SOL)%number in
  let transfer :=
    Transfer (publicKey senderKeypair) (publicKey recipientKeypair) amountToSend in
  (amountToSend <=? Number 0)%number = false ->
  SystemProgram_transfer transfer = Fulfilled tt ->
  answers_sendTransaction connection
    (calls (sendTransaction transfer (publicKey senderKeypair)) s)
  = Fulfilled signature ->
  let happenings :=
    answers_confirmTransaction connection (calls (confirmTransaction signature) s) in
  let round :=
    iteration config bs58_decode Keypair_fromSecretKey SystemProgram_transfer
              connection recipientKeypair i line s in
  let reported (error_message : string) :=
    (normal tt,
     State (done s ++
            [console_log (Processing_Wallet i
                            (maskAddress (publicKey senderKeypair)));
             rpc (getBalance (publicKey senderKeypair));
             rpc (getMinimumBalanceForRentExemption 0);
             console_log (Wallet_Balance i (Number B / LAMPORTS_PER_SOL)%number);
             new_Transaction transfer;
             rpc (sendTransaction transfer (publicKey senderKeypair));
             setTimeout (CONFIRMATION_TIMEOUT_SECONDS config * 1000);
             rpc (confirmTransaction signature);
             errorLogger_error (Transfer_error i error_message []);
             console_error (Transfer_error_check_log i)])
           (actionCount s)) in
  (happenings = [] \/ (exists later, happenings = timer_fires :: later) ->
   round = reported
             ("Transaction was not confirmed in "
                ++ string_of_Z (CONFIRMATION_TIMEOUT_SECONDS config)
                ++ " seconds.")%string) /\
  (forall err later,
     happenings = operation_settles (Rejected err) :: later ->
     is_SendTransactionError err = false \/ transaction err = None ->
     round = reported (message err)).
Proof.
  intros Hkey HB HR amountToSend transfer Hpos Hbuilt Hsend
         happenings round reported.
  subst round happenings reported.
  rewrite (round_submitted config bs58_decode Keypair_fromSecretKey
             SystemProgram_transfer connection recipientKeypair senderKeypair
             i line s B R signature Hkey HB HR Hpos Hbuilt Hsend).
  fold amountToSend transfer. split.
  - intros Hnone.
    assert (Hcatch :
      match answers_confirmTransaction connection
              (calls (confirmTransaction signature) s) with
      | operation_settles (Fulfilled _) :: _ => True
      | operation_settles (Rejected _) :: _ => True
      | _ => False
      end -> False).
    { destruct Hnone as [->|[later ->]]; exact (fun H => H). }
    destruct (answers_confirmTransaction connection _) as [|[|[v|e]] later];
      try (exfalso; exact (Hcatch I));
      rewrite transfer_catch_plain by (left; reflexivity);
      cbn [done actionCount]; rewrite <- app_assoc; reflexivity.
  - intros err later -> Hplain.
    rewrite transfer_catch_plain by exact Hplain.
    cbn [done actionCount]. rewrite <- app_assoc. reflexivity.
Qed.

Lemma round_unconfirmed_transfer_witness :
  iteration Examples.default_settings Examples.bs58_decode
            Examples.Keypair_fromSecretKey Examples.accept_transfer
            Examples.stalling_node
            (MkKeypair "Key1PublicKey1" (1 :: repeat 0 63)) 1
            (Examples.key_line 2) start =
  (normal tt,
   State [console_log (Processing_Wallet 1 "Key2P...cKey2");
          rpc (getBalance "Key2PublicKey2");
          rpc (getMinimumBalanceForRentExemption 0);
          console_log (Wallet_Balance 1 (Number 5000000 / LAMPORTS_PER_SOL)%number);
          new_Transaction
            (Transfer "Key2PublicKey2" "Key1PublicKey1"
               (Number 5000000 - Number 890880
                - fee_in_force Examples.default_settings * LAMPORTS_PER_SOL)%number);
          rpc (sendTransaction
                 (Transfer "Key2PublicKey2" "Key1PublicKey1"
                    (Number 5000000 - Number 890880
                     - fee_in_force Examples.default_settings
                       * LAMPORTS_PER_SOL)%number)
                 "Key2PublicKey2");
          setTimeout 60000;
          rpc (confirmTransaction "signature1");
          errorLogger_error
            (Transfer_error 1 "Transaction was not confirmed in 60 seconds." []);
          console_error (Transfer_error_check_log 1)]
         0).
Proof.
  refine (proj1 (round_unconfirmed_transfer Examples.default_settings
            Examples.bs58_decode Examples.Keypair_fromSecretKey
            Examples.accept_transfer Examples.stalling_node
            (MkKeypair "Key1PublicKey1" (1 :: repeat 0 63))
            (MkKeypair "Key2PublicKey2" (2 :: repeat 0 63))
            1 (Examples.key_line 2) start 5000000 890880 "signature1"
            eq_refl eq_refl eq_refl _ eq_refl eq_refl) _).
  - vm_compute. reflexivity.
  - left. reflexivity.
Defined.

(** X20.  The logs of a failed transaction.  For a [SendTransactionError]
    that carries a transaction, the [catch] of a round asks the node once
    for that transaction and writes the log messages it returns into the
    error line; when that request fails too, the failure is swallowed and
    the error line has no logs.  Either way the [catch] ends normally and
    [actionCount] is unchanged. *)
Theorem transfer_catch_fetches_logs (connection : node) (i : nat) (err : error)
    (tx : string) (s : state) :
  is_SendTransactionError err = true ->
  transaction err = Some tx ->
  let reported (logs : list string) :=
    (normal tt,
     State (done s ++
            [rpc (getTransaction tx);
             errorLogger_error (Transfer_error i (message err) logs);
             console_error (Transfer_error_check_log i)])
           (actionCount s)) in
  (forall logs,
     answers_getTransaction connection (calls (getTransaction tx) s)
     = Fulfilled logs ->
     transfer_catch connection i err s = reported logs) /\
  (forall err',
     answers_getTransaction connection (calls (getTransaction tx) s)
     = Rejected err' ->
     transfer_catch connection i err s = reported []).
Proof.
  intros Hkind Htx reported. subst reported.
  destruct (transfer_catch_run connection i err s)
    as (requests & logs & Hrun & [[-> ->]|(tx' & -> & _ & Htx' & ->)]).
  - exfalso. revert Hrun. unfold transfer_catch. rewrite Hkind, Htx.
    rewrite bind_run. unfold try_catch, remote, call.
    destruct (answers_getTransaction connection _); cbn; unfold emit; cbn;
      rewrite <- ?app_assoc; intros [= H%app_inv_head]; discriminate.
  - assert (tx' = tx) by congruence. subst tx'. rewrite Hrun.
    split; [intros l ->|intros e ->]; reflexivity.
Qed.

Lemma transfer_catch_fetches_logs_witness :
  transfer_catch Examples.stalling_node 3 Examples.simulation_failed start =
  (normal tt,
   State [rpc (getTransaction "signature0");
          errorLogger_error
            (Transfer_error 3 "Transaction simulation failed"
                            ["Program log: insufficient lamports"]);
          console_error (Transfer_error_check_log 3)]
         0).
Proof.
  refine (proj1 (transfer_catch_fetches_logs Examples.stalling_node 3
                   Examples.simulation_failed "signature0" start
                   eq_refl eq_refl) _ eq_refl).
Defined.

End SweepMore.
